(** * The schema-driven, authorization-aware instance resolver

    A shallow embedding of [InstanceResolver] (the resolver that mediates
    get / list / update / destroy / task operations on a model instance)
    together with the properties its specification states about it.

    Conventions of the embedding:
    - a JavaScript value is a [value]; a property that is absent reads as
      [VUndefined];
    - a persisted instance, a resolved identity and a returned object are
      finite maps from property names to values ([gmap string value]);
    - request inputs whose key order is observable through [Object.keys]
      are ordered association lists ([jsobj]);
    - asynchronous code is sequentialised in a state-and-exception monad
      over a [World] (storage rows, identities, workflow engine, request
      context and the trace of side-effecting calls);
    - what the resolver takes from its JavaScript runtime and from lodash
      ([String.prototype.toLowerCase], [_.pick] on the field maps) is a
      parameter, [JsRuntime]: the properties hold for every runtime. *)

From Stdlib Require Import ZArith String Ascii List Bool.
From stdpp Require Import base option gmap strings pretty list fin_maps fin_sets.

Local Open Scope string_scope.

(** ** JavaScript values *)

#[local] Unset Elimination Schemes.
Inductive value : Type :=
| VUndefined
| VNull
| VBool (b : bool)
| VNum (n : Z)
| VStr (s : string)
| VArr (items : list value)
| VObj (props : list (string * value)).
#[local] Set Elimination Schemes.

(** [typeof v] *)
Definition typeof (v : value) : string :=
  match v with
  | VUndefined => "undefined"
  | VNull => "object"
  | VBool _ => "boolean"
  | VNum _ => "number"
  | VStr _ => "string"
  | VArr _ => "object"
  | VObj _ => "object"
  end.

(** Truthiness, as tested by [if(v)], [!v] and [a && b]. *)
Definition truthy (v : value) : bool :=
  match v with
  | VUndefined => false
  | VNull => false
  | VBool b => b
  | VNum n => negb (n =? 0)%Z
  | VStr s => negb (String.eqb s "")
  | VArr _ => true
  | VObj _ => true
  end.

(** [a === b].  Arrays and objects compare by reference; every comparison
    made by the resolver is between values of different origins (request
    input or identity against a stored row), which never share a
    reference, so composite values are never strictly equal. *)
Definition strict_eq (a b : value) : bool :=
  match a, b with
  | VUndefined, VUndefined => true
  | VNull, VNull => true
  | VBool x, VBool y => Bool.eqb x y
  | VNum x, VNum y => (x =? y)%Z
  | VStr x, VStr y => String.eqb x y
  | _, _ => false
  end.

(** A string used in a boolean position: the empty string is falsy. *)
Definition truthy_str (s : string) : bool := negb (String.eqb s "").

(** A property name that may be [undefined]; JavaScript converts it to the
    key ["undefined"] when it is used to index an object. *)
Definition keyOf (k : option string) : string := default "undefined" k.

(** [o[k]] on a map-like object. *)
Definition prop (o : gmap string value) (k : string) : value :=
  default VUndefined (o !! k).

(** ** Ordered objects (request inputs) *)

Definition jsobj : Type := list (string * value).

Fixpoint oget (o : jsobj) (k : string) : option value :=
  match o with
  | [] => None
  | (k', v) :: o' => if String.eqb k' k then Some v else oget o' k
  end.

Fixpoint oset (o : jsobj) (k : string) (v : value) : jsobj :=
  match o with
  | [] => [(k, v)]
  | (k', v') :: o' =>
      if String.eqb k' k then (k, v) :: o' else (k', v') :: oset o' k v
  end.

(** [delete o[k]] *)
Definition odelete (o : jsobj) (k : string) : jsobj :=
  List.filter (fun kv => negb (String.eqb (fst kv) k)) o.

(** [Object.keys(o)] *)
Definition okeys (o : jsobj) : list string := map fst o.

(** [o[k]] on an ordered object. *)
Definition oprop (o : jsobj) (k : string) : value :=
  default VUndefined (oget o k).

(** lodash [_.pick(o, keys)] on a request object, for keys that are the
    names of declared state fields: schema identifiers, which lodash reads
    as the names of single own properties (its path syntax, and members a
    request object might inherit, are not part of this model).  The result
    receives the picked properties in the order of [keys]. *)
Definition pickEntries (o : jsobj) (keys : list string) : jsobj :=
  fold_left
    (fun acc k => match oget o k with
                  | Some v => oset acc k v
                  | None => acc
                  end)
    keys [].

(** The own properties of [m] that [keys] names literally. *)
Definition pickOwn {A : Type} (m : gmap string A) (keys : list string)
  : gmap string A :=
  filter (fun kv => fst kv ∈ keys) m.

(** [arr.indexOf(x) !== -1] *)
Definition includes (x : string) (arr : list string) : bool :=
  bool_decide (x ∈ arr).

(** [arr.push(x)] *)
Definition push {A : Type} (arr : list A) (x : A) : list A := (arr ++ [x])%list.

(** [arr.join(sep)] for an array of strings. *)
Fixpoint join (sep : string) (arr : list string) : string :=
  match arr with
  | [] => ""
  | [x] => x
  | x :: rest => x ++ sep ++ join sep rest
  end.

(** Lower-casing of the ASCII letters, with which
    [String.prototype.toLowerCase] agrees on ASCII strings; it serves the
    sample runtime below. *)
Definition lower_ascii (c : ascii) : ascii :=
  let n := nat_of_ascii c in
  if (65 <=? n)%nat && (n <=? 90)%nat then ascii_of_nat (n + 32) else c.

Fixpoint asciiLowerCase (s : string) : string :=
  match s with
  | EmptyString => EmptyString
  | String c s' => String (lower_ascii c) (asciiLowerCase s')
  end.

(** [s.indexOf(c) !== -1] for one character. *)
Fixpoint hasChar (c : ascii) (s : string) : bool :=
  match s with
  | EmptyString => false
  | String c' s' => Ascii.eqb c' c || hasChar c s'
  end.

(** ** The model schema *)

(** One element of a model definition; only the attributes the resolver
    itself reads are kept. *)
Record Element := {
  field : option string;
  input : option bool;
  joinField : option string;
  listingFilterMultiple : bool
}.

Record ModelDefinition := {
  elements : list Element;
  md_input : option bool
}.

(** ** The JavaScript runtime and lodash *)

(** The members a plain object inherits from [Object.prototype]. *)
Definition objectPrototypeMembers : list string :=
  ["constructor"; "__defineGetter__"; "__defineSetter__"; "hasOwnProperty";
   "__lookupGetter__"; "__lookupSetter__"; "isPrototypeOf";
   "propertyIsEnumerable"; "toString"; "valueOf"; "__proto__";
   "toLocaleString"].

(** A name that lodash reads as the name of one own property: it has none
    of the characters of lodash's path syntax ([a.b], [a[0]]) and is not
    the name of an inherited member. *)
Definition plainName (name : string) : bool :=
  negb (hasChar "." name) && negb (hasChar "[" name)
  && negb (includes name objectPrototypeMembers).

(** What the resolver takes from its runtime.

    [toLowerCase] is [String.prototype.toLowerCase]; nothing is assumed of
    it.

    [pick] is lodash's [_.pick(object, paths)] on a map of model elements
    ([allowedReadFields], [allowedInputFields]).  Only its behaviour on
    plain names is fixed ([pick_plain]): it keeps the own properties that
    are named.  Beyond that lodash resolves paths into the elements and
    copies inherited members, so that the picked object can have keys that
    [paths] does not list; of those cases nothing is assumed.  The
    resolver only tests which own keys the picked object has: the elements
    under the keys stand for whatever lodash stores there. *)
Class JsRuntime := {
  toLowerCase : string -> string;
  pick : gmap string Element -> list string -> gmap string Element;
  pick_plain : forall m paths,
    forallb plainName paths = true -> pick m paths = pickOwn m paths
}.

(** ** Access control *)

Inductive AclAction := Access | Write | Read | Create | Destroy | Task.

(** The decision returned by [acl.applyRules]; [matchingRules] is only
    printed by the debug logger and is left out. *)
Record AclMatch := {
  allow : bool;
  allowedFields : option (list string);
  allowedRestrictions : option (list string);
  allowedTasks : option (list string)
}.

(** The rule table of a model class, seen through its one entry point
    [applyRules(targets, action, instance)]. *)
Record Acl := {
  applyRules : list string -> AclAction -> option (gmap string value) -> AclMatch
}.

Definition AdditionalAllowedGetFields : list string :=
  ["id"; "created"; "updated"; "tasks"; "restrictedFields"].

(** [_restrictionsApplyToUser(restrictions, isOwner)] *)
Definition _restrictionsApplyToUser
  (restrictions : option (list string)) (isOwner : bool) : bool :=
  match restrictions with
  | None => true
  | Some rs =>
      if (length rs =? 0)%nat then true
      else if includes "all" rs then true
      else isOwner && includes "owner" rs
  end.

(** [_allowedReadFieldKeysForInstance(model)] *)
Definition _allowedReadFieldKeysForInstance (model : ModelDefinition)
  : gmap string Element :=
  fold_left
    (fun allowedFields e =>
       match field e with
       | Some f => if truthy_str f then <[f := e]> allowedFields
                   else allowedFields
       | None => allowedFields
       end)
    (elements model) ∅.

(** [_allowedInputKeysForInstanceInput(model)] *)
Definition _allowedInputKeysForInstanceInput (model : ModelDefinition)
  : gmap string Element :=
  fold_left
    (fun allowedInputFields e =>
       match field e, input e with
       | Some f, Some false => allowedInputFields
       | Some f, _ => if truthy_str f then <[f := e]> allowedInputFields
                      else allowedInputFields
       | None, _ => allowedInputFields
       end)
    (elements model) ∅.

(** ** Errors and outcomes *)

Inductive JsError :=
| NotFoundError (msg : string)
| AuthorizationError (msg : string)
| UserInputError (msg : string)
| Error (msg : string)
| TypeError
| StorageError
| TransportError (msg : string).

Inductive Outcome (A : Type) :=
| Return (a : A)
| Throw (e : JsError).
Arguments Return {A} a.
Arguments Throw {A} e.

(** ** Collaborators *)

Definition Enums : Type := gmap string (gmap string value).

(** The element filters of the schema utilities, which the resolver's
    constructor calls and which are taken as given; a filter that yields no
    array is represented by the empty list. *)
Record Utils := {
  filterModelElementsForRelations : list Element -> Enums -> list Element;
  filterModelElementsForOwnerFields : list Element -> list Element;
  filterModelElementsForStates : list Element -> Enums -> list Element;
  filterModelElementsForListingFilters : list Element -> Enums -> list Element;
  filterModelElementsForListingSortable : list Element -> Enums -> list Element
}.

Record Ordering := {
  column : string;
  desc : bool
}.

(** The model class: its rule table and the storage behaviour the resolver
    relies on (constraint check of [save], relation expansion of an eager
    load, row ordering of [orderBy]). *)
Record ModelClass := {
  mc_acl : option Acl;
  accepts : gmap string value -> bool;
  expand : list (option string) -> gmap string value -> gmap string value;
  orderRows : list Ordering -> list (gmap string value) -> list (gmap string value)
}.

Record TaskDefinition := {
  td_name : string;
  model : ModelDefinition;
  processKey : string
}.

Record ProcessInstance := {
  pi_id : string;
  pi_businessKey : string
}.

Record WfTask := {
  task_id : string;
  taskDefinitionKey : string;
  _links : option value;
  _embedded : option value
}.

(** The [_embedded] part of the answer of [taskService.list]. *)
Record TaskListData := {
  embedded_tasks : option (list WfTask);
  embedded_task : option (list WfTask)
}.

Record CompleteTaskOpts := {
  cto_id : string;
  variables : option (gmap string value)
}.

(** The workflow engine client, over an engine state [E]. *)
Record WorkflowService (E : Type) := {
  processInstanceService_list :
    string -> string -> E -> Outcome (list ProcessInstance);
  processInstanceService_del : string -> E -> Outcome unit * E;
  taskService_list : string -> E -> Outcome TaskListData;
  taskService_complete : CompleteTaskOpts -> E -> Outcome unit * E
}.
Arguments processInstanceService_list {E} _ _ _ _.
Arguments processInstanceService_del {E} _ _ _.
Arguments taskService_list {E} _ _ _.
Arguments taskService_complete {E} _ _ _.

(** ** The resolver object *)

Record InstanceResolver := {
  contextLookupId : nat;
  modelClass : ModelClass;
  acl : option Acl;
  taskDef : TaskDefinition;
  modelDef : ModelDefinition;
  enums : Enums;
  relationFields : list (option string);
  ownerFields : list Element;
  allowedReadFields : gmap string Element;
  allowedInputFields : gmap string Element;
  stateFields : list Element;
  listingFilterFields : list Element;
  listingSortableFields : list Element
}.

(** The constructor [InstanceResolver(modelClass, taskDefinition, enums)];
    [uid] is the value of the module counter it takes its lookup id from. *)
Definition newInstanceResolver (utils : Utils) (uid : nat)
  (modelClass : ModelClass) (taskDefinition : TaskDefinition) (enums : Enums)
  : InstanceResolver :=
  let modelDef := model taskDefinition in
  let relations := filterModelElementsForRelations utils (elements modelDef) enums in
  {| contextLookupId := uid;
     modelClass := modelClass;
     acl := mc_acl modelClass;
     taskDef := taskDefinition;
     modelDef := modelDef;
     enums := enums;
     relationFields := map field relations;
     ownerFields := filterModelElementsForOwnerFields utils (elements modelDef);
     allowedReadFields := _allowedReadFieldKeysForInstance modelDef;
     allowedInputFields := _allowedInputKeysForInstanceInput modelDef;
     stateFields := filterModelElementsForStates utils (elements modelDef) enums;
     listingFilterFields :=
       filterModelElementsForListingFilters utils (elements modelDef) enums;
     listingSortableFields :=
       filterModelElementsForListingSortable utils (elements modelDef) enums |}.

(** [getAllowedReadFields(readAcl, includeAdditionalFields)]: the own
    property names of the object it returns. *)
Definition getAllowedReadFields `{rt : JsRuntime} (this : InstanceResolver)
  (readAcl : option AclMatch) (includeAdditionalFields : bool) : gset string :=
  let allowedFields :=
    match readAcl ≫= allowedFields with
    | Some fs => dom (pick (allowedReadFields this) fs)
    | None => dom (allowedReadFields this)
    end in
  if includeAdditionalFields
  then allowedFields ∪ list_to_set AdditionalAllowedGetFields
  else allowedFields.

(** [userToAclTargets(user, object)] *)
Definition userToAclTargets (this : InstanceResolver)
  (user object : option (gmap string value)) : list string * bool :=
  let targets := ["anonymous"] in
  let hasId := match user with
               | Some u => truthy (prop u "id")
               | None => false
               end in
  let targets := if hasId then push targets "administrator" else targets in
  match user, object with
  | Some u, Some o =>
      if hasId then
        let targets := push targets "user" in
        let isOwner :=
          fold_left
            (fun isOwner f =>
               let ownerId := prop o (keyOf (joinField f)) in
               if strict_eq ownerId (prop u "id") then true else isOwner)
            (ownerFields this) false in
        (if isOwner then push targets "owner" else targets, isOwner)
      else (targets, false)
  | _, _ => (targets, false)
  end.

(** [_getInstance(instance, aclTargets, topLevelFields)] *)
Definition _getInstance `{rt : JsRuntime} (this : InstanceResolver)
  (instance : gmap string value) (aclTargets : list string)
  (topLevelFields : list string) : gmap string value :=
  let aclMatch :=
    match acl this with
    | Some a => Some (applyRules a aclTargets Read (Some instance))
    | None => None
    end in
  if match aclMatch with
     | Some m => negb (allow m)
     | None => false
     end
  then
    <["restrictedFields" :=
        VArr (map VStr
                (List.filter (fun f => negb (String.eqb f "id")) topLevelFields))]>
      {["id" := prop instance "id"]}
  else
    let allowedFields := getAllowedReadFields this aclMatch true in
    let filteredRequestedAllowedFields :=
      List.filter (fun f => bool_decide (f ∈ allowedFields)) topLevelFields in
    let r : gmap string value := {["id" := prop instance "id"]} in
    let r :=
      fold_left
        (fun r f =>
           if negb (strict_eq (prop instance f) VUndefined)
           then <[f := prop instance f]> r
           else r)
        filteredRequestedAllowedFields r in
    let restrictedFields :=
      List.filter (fun f => negb (bool_decide (f ∈ allowedFields)))
        topLevelFields in
    let r := <["restrictedFields" := VArr (map VStr restrictedFields)]> r in
    if (length restrictedFields =? 0)%nat
    then delete "restrictedFields" r
    else r.

(** ** The world the operations run in *)

(** The request context object, shared by reference between the calls of
    one request. *)
Record RequestContext := {
  rc_user : option string;
  resolvedUser : option (gmap string value);
  instanceLookup : gmap nat (gmap string (gmap string value))
}.

(** Side-effecting calls issued to the collaborators. *)
Inductive Effect :=
| ESave (o : gmap string value)
| EProcessDelete (id : string)
| ETaskComplete (opts : CompleteTaskOpts).

Record World (E : Type) := {
  db : gmap string (gmap string value);
  identities : gmap string (gmap string value);
  engine : E;
  context : option RequestContext;
  trace : list Effect
}.
Arguments db {E} _.
Arguments identities {E} _.
Arguments engine {E} _.
Arguments context {E} _.
Arguments trace {E} _.

Definition withDb {E} (w : World E) (d : gmap string (gmap string value))
  : World E :=
  {| db := d; identities := identities w; engine := engine w;
     context := context w; trace := trace w |}.

Definition withEngine {E} (w : World E) (e : E) : World E :=
  {| db := db w; identities := identities w; engine := e;
     context := context w; trace := trace w |}.

Definition withContext {E} (w : World E) (c : RequestContext) : World E :=
  {| db := db w; identities := identities w; engine := engine w;
     context := Some c; trace := trace w |}.

Definition withEffect {E} (w : World E) (ev : Effect) : World E :=
  {| db := db w; identities := identities w; engine := engine w;
     context := context w; trace := push (trace w) ev |}.

(** The name under which a value indexes an object; instance ids are
    strings, the other cases are the usual string conversions of
    primitives. *)
Definition toPropertyKey (v : value) : string :=
  match v with
  | VStr s => s
  | VNum n => pretty n
  | VBool true => "true"
  | VBool false => "false"
  | VNull => "null"
  | VUndefined => "undefined"
  | VArr _ => ""
  | VObj _ => "[object Object]"
  end.

(** ** The storage query builder *)

Inductive Conn := CAnd | COr.

Inductive Atom :=
| AEq (col : string) (v : value)
| AIn (col : string) (vs : list value).

(** A parenthesised group of predicates, each with the connector that
    attaches it to the ones before it. *)
Definition Group : Type := list (Conn * Atom).

Record Query := {
  q_where : list Group;
  q_skipUndefined : bool;
  q_orderBy : list Ordering;
  q_eager : option (list (option string))
}.

(** A predicate that compares a column with [undefined] (the values of an
    [IN] list come from the request and are never [undefined]). *)
Definition atomValueUndefined (a : Atom) : bool :=
  match a with
  | AEq _ VUndefined => true
  | _ => false
  end.

Definition evalAtom (row : gmap string value) (a : Atom) : bool :=
  match a with
  | AEq col v => strict_eq (prop row col) v
  | AIn col vs => existsb (strict_eq (prop row col)) vs
  end.

(** A chain [p1 AND p2 OR p3 ...] read with the precedence of SQL:
    [cur] is the value of the conjunction being accumulated. *)
Fixpoint evalChain (row : gmap string value) (cur : bool) (g : Group) : bool :=
  match g with
  | [] => cur
  | (CAnd, a) :: g' => evalChain row (cur && evalAtom row a) g'
  | (COr, a) :: g' => cur || evalChain row (evalAtom row a) g'
  end.

(** Modelled from the spec: the storage engine's query builder
    ("equality/IN-filters, OR-combinable predicate groups"); the groups are
    AND-combined and a group without predicates constrains nothing. *)
Definition evalGroup (row : gmap string value) (g : Group) : bool :=
  match g with
  | [] => true
  | (_, a) :: g' => evalChain row (evalAtom row a) g'
  end.

Definition evalQuery (q : Query) (row : gmap string value) : bool :=
  forallb (evalGroup row) (q_where q).

(** Some predicate of the query compares with [undefined].  The
    predicates of [list] are all built inside [where] callbacks, which
    [skipUndefined()] does not reach: the storage engine rejects such a
    query when it runs. *)
Definition undefinedBinding (q : Query) : bool :=
  existsb (existsb (fun ca => atomValueUndefined (snd ca))) (q_where q).

(** ** Inputs and results of the operations *)

Record ListInput := {
  li_filter : option (gmap string value);
  li_sorting : option (gmap string value)
}.

Record DestroyInput := {
  di_id : string;
  di_state : option jsobj
}.

Record CompleteTaskInput := {
  ct_id : string;
  ct_taskId : string;
  ct_state : option jsobj
}.

(** What [get] hands back: the redacted object, or an error object that is
    returned (not thrown). *)
Inductive GetResult :=
| GotObject (r : gmap string value)
| ReturnedError (e : JsError).

Definition nonEmpty {A : Type} (l : list A) : bool :=
  negb (length l =? 0)%nat.

Section Operations.

Context `{rt : JsRuntime}.
Variable E : Type.
Variable camunda : WorkflowService E.

(** Asynchronous resolver code, sequentialised: a computation reads and
    updates the world and either returns or throws. *)
Definition M (A : Type) : Type := World E -> Outcome A * World E.

#[export] Instance M_ret : MRet M := fun A a w => (Return a, w).

#[export] Instance M_bind : MBind M := fun A B f m w =>
  match m w with
  | (Return a, w') => f a w'
  | (Throw e, w') => (Throw e, w')
  end.

Definition throw {A : Type} (e : JsError) : M A := fun w => (Throw e, w).

(** [promise.catch(handler)] *)
Definition catch {A : Type} (m : M A) (handler : JsError -> M A) : M A :=
  fun w =>
    match m w with
    | (Return a, w') => (Return a, w')
    | (Throw e, w') => handler e w'
    end.

Definition logEffect (ev : Effect) : M unit :=
  fun w => (Return (), withEffect w ev).

(** A read-only request to the workflow engine. *)
Definition engineRead {A : Type} (f : E -> Outcome A) : M A :=
  fun w => (f (engine w), w).

(** A request that may change the state of the workflow engine. *)
Definition engineCall {A : Type} (f : E -> Outcome A * E) : M A :=
  fun w => (fst (f (engine w)), withEngine w (snd (f (engine w)))).

(** Modelled from the spec: [modelClass.find(id, eagerRelations?)]
    ("find(id, eagerRelations?) -> Instance|null"). *)
Definition find (this : InstanceResolver) (id : value)
  (eagerResolves : option (list (option string)))
  : M (option (gmap string value)) :=
  fun w =>
    let row := match id with
               | VStr s => db w !! s
               | _ => None
               end in
    (Return (match eagerResolves with
             | Some rels => expand (modelClass this) rels <$> row
             | None => row
             end), w).

(** Modelled from the spec: [instance.save()] ("save(instance) -> void,
    failing on constraint violation"); the row is written under the
    instance id. *)
Definition save (this : InstanceResolver) (object : gmap string value)
  : M unit :=
  logEffect (ESave object);;
  match prop object "id" with
  | VStr s =>
      if accepts (modelClass this) object
      then (fun w => (Return (), withDb w (<[s := object]> (db w)))) : M unit
      else throw StorageError
  | _ => throw StorageError
  end.

(** Modelled from the spec: execution of a built query by the storage
    engine.  A query with an [undefined] value in a predicate fails. *)
Definition runQuery (this : InstanceResolver) (q : Query)
  : M (list (gmap string value)) :=
  fun w =>
    if undefinedBinding q then (Throw StorageError, w)
    else
      let rows := List.filter (evalQuery q) (map snd (map_to_list (db w))) in
      let rows := match q_orderBy q with
                  | [] => rows
                  | ordering => orderRows (modelClass this) ordering rows
                  end in
      (Return (match q_eager q with
               | Some rels => map (expand (modelClass this) rels) rows
               | None => rows
               end), w).

(** [resolveUserForContext(context)] *)
Definition resolveUserForContext (this : InstanceResolver)
  : M (option (gmap string value)) :=
  fun w =>
    match context w with
    | None => (Return None, w)
    | Some c =>
        if negb (truthy_str (default "" (rc_user c))) then (Return None, w)
        else
          match resolvedUser c with
          | Some u => (Return (Some u), w)
          | None =>
              let user := identities w !! default "" (rc_user c) in
              (Return user,
               withContext w {| rc_user := rc_user c;
                                resolvedUser := user;
                                instanceLookup := instanceLookup c |})
          end
    end.

(** [addInstancesToContext(instances, context)]; it is an [async]
    function whose promise is never awaited, so with no context object
    its failure is not seen by the caller. *)
Definition addInstancesToContext (this : InstanceResolver)
  (instances : list (gmap string value)) : M unit :=
  fun w =>
    match context w with
    | Some c =>
        if nonEmpty instances then
          let instanceLookupMap :=
            default ∅ (instanceLookup c !! contextLookupId this) in
          let instanceLookupMap :=
            fold_left
              (fun m instance =>
                 let id := prop instance "id" in
                 if truthy id then <[toPropertyKey id := instance]> m else m)
              instances instanceLookupMap in
          (Return (),
           withContext w {| rc_user := rc_user c;
                            resolvedUser := resolvedUser c;
                            instanceLookup :=
                              <[contextLookupId this := instanceLookupMap]>
                                (instanceLookup c) |})
        else (Return (), w)
    | None => (Return (), w)
    end.

(** The top-level fields requested, as [GraphQLFields] reports them, are
    the argument [info]. *)
Definition eagerResolvesFor (this : InstanceResolver)
  (topLevelFields : list string) : option (list (option string)) :=
  if nonEmpty (relationFields this)
  then Some (List.filter
               (fun f => match f with
                         | Some s => includes s topLevelFields
                         | None => false
                         end)
               (relationFields this))
  else None.

(** [InstanceResolver.prototype.get] *)
Definition get (this : InstanceResolver) (input_id : string)
  (info : list string) : M GetResult :=
  let topLevelFields := info in
  let eagerResolves := eagerResolvesFor this topLevelFields in
  object ← find this (VStr input_id) eagerResolves;
  user ← resolveUserForContext this;
  match object with
  | None => mret (ReturnedError (NotFoundError "Instance not found."))
  | Some object =>
      addInstancesToContext this [object];;
      let '(aclTargets, isOwner) := userToAclTargets this user (Some object) in
      match acl this with
      | Some a =>
          let accessMatch := applyRules a aclTargets Access (Some object) in
          if negb (allow accessMatch)
          then throw (AuthorizationError "You do not have access to this object.")
          else if negb (_restrictionsApplyToUser
                          (allowedRestrictions accessMatch) isOwner)
          then throw (AuthorizationError "You do not have access to this object.")
          else mret ()
      | None => mret ()
      end;;
      mret (GotObject (_getInstance this object aclTargets topLevelFields))
  end.

(** The predicates the filter callback of [list] adds to its builder,
    and whether it added any. *)
Definition filterStatements (this : InstanceResolver)
  (filter : option (gmap string value)) : Group * bool :=
  match filter with
  | Some filter =>
      if nonEmpty (listingFilterFields this) then
        fold_left
          (fun '(b, addedWhereStatement) f =>
             let v := prop filter (keyOf (field f)) in
             if negb (truthy v) then (b, addedWhereStatement)
             else if negb (strict_eq v VNull) && negb (strict_eq v VUndefined)
             then
               if listingFilterMultiple f then
                 match v with
                 | VArr vs => (push b (CAnd, AIn (keyOf (field f)) vs), true)
                 | _ => (b, addedWhereStatement)
                 end
               else (push b (CAnd, AEq (keyOf (field f)) v), true)
             else (b, addedWhereStatement))
          (listingFilterFields this) ([], false)
      else ([], false)
  | None => ([], false)
  end.

(** [ownerFieldStatementBuilder]: [where] for the first owner field,
    [orWhere] for the others. *)
Definition ownerFieldStatementBuilder (this : InstanceResolver)
  (user : gmap string value) : Group :=
  imap (fun index f =>
          (if (index =? 0)%nat then CAnd else COr,
           AEq (keyOf (joinField f)) (prop user "id")))
    (ownerFields this).

(** [query.where(group)]; [andWhere] is the same builder method. *)
Definition where_ (q : Query) (g : Group) : Query :=
  {| q_where := push (q_where q) g; q_skipUndefined := q_skipUndefined q;
     q_orderBy := q_orderBy q; q_eager := q_eager q |}.
Definition andWhere := where_.

Definition skipUndefined (q : Query) : Query :=
  {| q_where := q_where q; q_skipUndefined := true;
     q_orderBy := q_orderBy q; q_eager := q_eager q |}.

Definition orderBy (q : Query) (ordering : list Ordering) : Query :=
  {| q_where := q_where q; q_skipUndefined := q_skipUndefined q;
     q_orderBy := ordering; q_eager := q_eager q |}.

Definition eager (q : Query) (rels : list (option string)) : Query :=
  {| q_where := q_where q; q_skipUndefined := q_skipUndefined q;
     q_orderBy := q_orderBy q; q_eager := Some rels |}.

(** The ordering [list] derives from the [sorting] input. *)
Definition sortingToOrdering (this : InstanceResolver)
  (sorting : gmap string value) : list Ordering :=
  fold_left
    (fun ordering f =>
       match sorting !! keyOf (field f) with
       | None => ordering
       | Some v =>
           match v with
           | VBool b => push ordering {| column := keyOf (field f); desc := b |}
           | _ => ordering
           end
       end)
    (listingSortableFields this) [].

(** [InstanceResolver.prototype.list] *)
Definition list_ (this : InstanceResolver) (input : ListInput)
  (info : list string) : M (list (gmap string value)) :=
  let topLevelFields := info in
  let eagerResolves := eagerResolvesFor this topLevelFields in
  user ← resolveUserForContext this;
  allowedRestrictions ←
    match acl this with
    | Some a =>
        let '(aclTargets, _) := userToAclTargets this user None in
        let accessMatch := applyRules a aclTargets Access None in
        if negb (allow accessMatch)
        then throw (AuthorizationError "You do not have access to this object.")
        else mret (allowedRestrictions accessMatch)
    | None => mret (Some ["all"])
    end;
  let '(filterGroup, addedWhereStatement) :=
    filterStatements this (li_filter input) in
  let query :=
    where_ {| q_where := []; q_skipUndefined := false;
              q_orderBy := []; q_eager := None |} filterGroup in
  query ←
    match allowedRestrictions with
    | None => throw TypeError
    | Some restrictions =>
        if negb (includes "all" restrictions) then
          match user with
          | None => throw (AuthorizationError "You must be a valid user ")
          | Some u =>
              if nonEmpty (ownerFields this) then
                mret (if addedWhereStatement
                      then andWhere query (ownerFieldStatementBuilder this u)
                      else where_ query (ownerFieldStatementBuilder this u))
              else mret query
          end
        else mret query
    end;
  let query := skipUndefined query in
  let query :=
    match li_sorting input with
    | Some sorting =>
        if nonEmpty (listingSortableFields this) then
          let ordering := sortingToOrdering this sorting in
          if nonEmpty ordering then orderBy query ordering else query
        else query
    | None => query
    end in
  let query :=
    match eagerResolves with
    | Some rels => eager query rels
    | None => query
    end in
  r ← runQuery this query;
  addInstancesToContext this r;;
  mret (map (fun object =>
               let '(aclTargets, _) := userToAclTargets this user (Some object) in
               _getInstance this object aclTargets topLevelFields)
          r).

(** The [forEach] over [Object.keys(input)] of [update]: an allowed key
    is written to the loaded object (which fails when there is none), a
    disallowed key is collected. *)
Fixpoint applyInput (allowedFields : gmap string Element) (input : jsobj)
  (keys : list string) (object : option (gmap string value))
  (restrictedFields : list string)
  : Outcome (option (gmap string value) * list string) :=
  match keys with
  | [] => Return (object, restrictedFields)
  | key :: keys' =>
      if bool_decide (is_Some (allowedFields !! key)) then
        match object with
        | Some o =>
            applyInput allowedFields input keys'
              (Some (<[key := oprop input key]> o)) restrictedFields
        | None => Throw TypeError
        end
      else
        applyInput allowedFields input keys' object (push restrictedFields key)
  end.

(** [InstanceResolver.prototype.update] *)
Definition update (this : InstanceResolver) (input : jsobj)
  (info : list string) : M bool :=
  if negb (match md_input (modelDef this) with
           | Some true => true
           | _ => false
           end)
  then throw (Error "Model is not defined as an allowing updates.")
  else
    object ← find this (oprop input "id") None;
    user ← resolveUserForContext this;
    aclWriteMatch ←
      match acl this with
      | Some a =>
          let '(aclTargets, isOwner) := userToAclTargets this user object in
          let accessMatch := applyRules a aclTargets Access object in
          if negb (allow accessMatch)
          then throw (AuthorizationError "You do not have access to this object.")
          else if negb (_restrictionsApplyToUser
                          (allowedRestrictions accessMatch) isOwner)
          then throw (AuthorizationError "You do not have access to this object.")
          else
            let aclWriteMatch := applyRules a aclTargets Write object in
            if negb (allow aclWriteMatch)
            then throw (AuthorizationError
                          "You do not have write access to this object.")
            else mret (Some aclWriteMatch)
      | None => mret None
      end;
    let input := odelete input "id" in
    let allowedFields :=
      match aclWriteMatch ≫= allowedFields with
      | Some fs => pick (allowedInputFields this) fs
      | None => allowedInputFields this
      end in
    match applyInput allowedFields input (okeys input) object [] with
    | Throw e => throw e
    | Return (object, restrictedFields) =>
        if nonEmpty restrictedFields
        then throw (AuthorizationError
                      ("You do not have write access on the following fields: "
                         ++ join ", " restrictedFields))
        else
          match object with
          | Some o => save this o;; mret true
          | None => throw TypeError
          end
    end.

(** The state filtering shared by [destroy] and [completeTask]. *)
Definition filterState (this : InstanceResolver) (state : option jsobj)
  : option jsobj :=
  let allowedKeys := map (fun e => keyOf (field e)) (stateFields this) in
  match state with
  | Some st => if nonEmpty allowedKeys
               then Some (pickEntries st allowedKeys)
               else None
  | None => None
  end.

(** The process-instance teardown that ends [destroy]. *)
Definition teardown (this : InstanceResolver) (input : DestroyInput) : M bool :=
  catch
    (data ← engineRead
              (processInstanceService_list camunda (di_id input)
                 (processKey (taskDef this)));
     match data with
     | processInstance :: _ =>
         if truthy_str (pi_id processInstance)
            && truthy_str (pi_businessKey processInstance)
            && String.eqb (toLowerCase (pi_businessKey processInstance))
                 (toLowerCase (di_id input))
         then
           logEffect (EProcessDelete (pi_id processInstance));;
           engineCall (processInstanceService_del camunda (pi_id processInstance));;
           mret true
         else mret false
     | [] => mret false
     end)
    (fun err =>
       throw (Error "Unable to destroy instance due to business engine error.")).

(** The [forEach] over [Object.keys(filteredState)] of [destroy]. *)
Definition applyState (filteredState : jsobj) (object : gmap string value)
  : gmap string value * bool :=
  fold_left
    (fun '(object, didModify) key =>
       let value := oprop filteredState key in
       if negb (strict_eq (prop object key) value)
       then (<[key := value]> object, true)
       else (object, didModify))
    (okeys filteredState) (object, false).

(** [destroy] up to the listing of process instances: load, not-found
    check, access and destroy gates, state changes. *)
Definition destroyPrepare (this : InstanceResolver) (input : DestroyInput)
  : M unit :=
  object ← find this (VStr (di_id input)) None;
  user ← resolveUserForContext this;
  match object with
  | None => throw (Error "Instance with identifier not found.")
  | Some object =>
      match acl this with
      | Some a =>
          let '(aclTargets, isOwner) := userToAclTargets this user (Some object) in
          let accessMatch := applyRules a aclTargets Access (Some object) in
          if negb (allow accessMatch)
          then throw (AuthorizationError "You do not have access to this object.")
          else if negb (_restrictionsApplyToUser
                          (allowedRestrictions accessMatch) isOwner)
          then throw (AuthorizationError "You do not have access to this object.")
          else
            let destroyAclMatch := applyRules a aclTargets Destroy (Some object) in
            if negb (allow destroyAclMatch)
            then throw (AuthorizationError
                          "You do not have the rights allowed to destroy this object.")
            else mret ()
      | None => mret ()
      end;;
      let filteredState := filterState this (di_state input) in
      match filteredState with
      | Some filteredState =>
          if nonEmpty (okeys filteredState) then
            let '(object, didModify) := applyState filteredState object in
            if didModify then save this object else mret ()
          else mret ()
      | None => mret ()
      end
  end.

(** [InstanceResolver.prototype.destroy] *)
Definition destroy (this : InstanceResolver) (input : DestroyInput) : M bool :=
  destroyPrepare this input;;
  teardown this input.

(** [tasks.forEach(task => { delete task._links; delete task._embedded })] *)
Definition stripLinks (t : WfTask) : WfTask :=
  {| task_id := task_id t; taskDefinitionKey := taskDefinitionKey t;
     _links := None; _embedded := None |}.

(** [data._embedded.tasks || data._embedded.task] *)
Definition embeddedTasks (data : TaskListData) : option (list WfTask) :=
  match embedded_tasks data with
  | Some ts => Some ts
  | None => embedded_task data
  end.

(** [InstanceResolver.prototype.getTasks] *)
Definition getTasks (this : InstanceResolver) (instanceID : string)
  : M (list WfTask) :=
  object ← find this (VStr instanceID) None;
  user ← resolveUserForContext this;
  match object with
  | None => throw (NotFoundError "Instance with identifier not found.")
  | Some object =>
      tasksAclMatch ←
        match acl this with
        | Some a =>
            let '(aclTargets, isOwner) :=
              userToAclTargets this user (Some object) in
            let tasksAclMatch := applyRules a aclTargets Task (Some object) in
            if negb (allow tasksAclMatch)
            then throw (AuthorizationError
                          "You do not have the rights allowed to destroy this object.")
            else mret (Some tasksAclMatch)
        | None => mret None
        end;
      catch
        (data ← engineRead (taskService_list camunda instanceID);
         match embeddedTasks data with
         | None => throw TypeError
         | Some tasks =>
             let tasks := map stripLinks tasks in
             match tasksAclMatch ≫= allowedTasks with
             | Some allowed =>
                 mret (List.filter
                         (fun t => includes (taskDefinitionKey t) allowed) tasks)
             | None => mret tasks
             end
         end)
        (fun err =>
           throw (Error "Unable to fetch tasks for instance due to business engine error."))
  end.

(** The [forEach] over [Object.keys(filteredState)] of [completeTask]. *)
Definition applyStateVars (filteredState : jsobj) (instance : gmap string value)
  : gmap string value * bool * gmap string value :=
  fold_left
    (fun '(instance, didModify, newVars) key =>
       let value := oprop filteredState key in
       let '(instance, didModify) :=
         if negb (strict_eq (prop instance key) value)
         then (<[key := value]> instance, true)
         else (instance, didModify) in
       if String.eqb (typeof value) "string"
          || String.eqb (typeof value) "number"
          || strict_eq value VNull
       then (instance, didModify, <[key := VObj [("value", value)]]> newVars)
       else (instance, didModify, newVars))
    (okeys filteredState) (instance, false, (∅ : gmap string value)).

(** [InstanceResolver.prototype.completeTask] *)
Definition completeTask (this : InstanceResolver) (input : CompleteTaskInput)
  : M bool :=
  let id := ct_id input in
  let taskId := ct_taskId input in
  let state := ct_state input in
  if negb (truthy_str id) || negb (truthy_str taskId)
  then throw (UserInputError
                "Complete Task requires an id and taskId to be supplied")
  else
    instance ← find this (VStr id) None;
    user ← resolveUserForContext this;
    tasks ← (data ← engineRead (taskService_list camunda id);
             mret (List.filter (fun t => String.eqb (task_id t) taskId)
                     (default [] (embeddedTasks data))));
    match instance with
    | None => throw (Error "Instance with identifier not found.")
    | Some instance =>
        if negb (nonEmpty tasks)
        then throw (Error "Specific task not found for instance.")
        else
          tasksAclMatch ←
            match acl this with
            | Some a =>
                let '(aclTargets, isOwner) :=
                  userToAclTargets this user (Some instance) in
                let accessMatch := applyRules a aclTargets Access (Some instance) in
                if negb (allow accessMatch)
                then throw (AuthorizationError
                              "You do not have access to this object.")
                else if negb (_restrictionsApplyToUser
                                (allowedRestrictions accessMatch) isOwner)
                then throw (AuthorizationError
                              "You do not have access to this object.")
                else
                  let tasksAclMatch :=
                    applyRules a aclTargets Task (Some instance) in
                  if negb (allow tasksAclMatch)
                  then throw (AuthorizationError
                                "You do not have the rights allowed to destroy this object.")
                  else mret (Some tasksAclMatch)
            | None => mret None
            end;
          let filteredTasks :=
            match tasksAclMatch ≫= allowedTasks with
            | Some allowed =>
                List.filter (fun t => includes (taskDefinitionKey t) allowed) tasks
            | None => tasks
            end in
          if negb (nonEmpty filteredTasks)
          then throw (AuthorizationError
                        "You do not have access to the task associated with the instance.")
          else
            let filteredState := filterState this state in
            completeTaskOpts ←
              match filteredState with
              | Some filteredState =>
                  if nonEmpty (okeys filteredState) then
                    let '(instance, didModify, newVars) :=
                      applyStateVars filteredState instance in
                    (if didModify then save this instance else mret ());;
                    mret {| cto_id := taskId; variables := Some newVars |}
                  else mret {| cto_id := taskId; variables := None |}
              | None => mret {| cto_id := taskId; variables := None |}
              end;
            catch
              (logEffect (ETaskComplete completeTaskOpts);;
               engineCall (taskService_complete camunda completeTaskOpts);;
               mret true)
              (fun err =>
                 throw (Error "Unable to complete task for instance due to business engine error."))
    end.

End Operations.

Arguments throw {E A} _ _.
Arguments catch {E A} _ _ _.
Arguments logEffect {E} _ _.
Arguments engineRead {E A} _ _.
Arguments engineCall {E A} _ _.
Arguments get {rt E} _ _ _ _.
Arguments list_ {rt E} _ _ _ _.
Arguments update {rt E} _ _ _ _.
Arguments destroyPrepare {E} _ _ _.
Arguments teardown {rt E} _ _ _ _.
Arguments destroy {rt E} _ _ _ _.
Arguments getTasks {E} _ _ _ _.
Arguments completeTask {E} _ _ _ _.
Arguments find {E} _ _ _ _.
Arguments save {E} _ _ _.
Arguments runQuery {E} _ _ _.
Arguments resolveUserForContext {E} _ _.
Arguments addInstancesToContext {E} _ _ _.

(** * Notions used to state the properties *)

(** The restriction set is satisfied: it contains [all], or it contains
    [owner] and the caller owns the instance. *)
Definition restrictionSatisfied (rs : list string) (isOwner : bool) : Prop :=
  "all" ∈ rs \/ ("owner" ∈ rs /\ isOwner = true).

(** The outcome of an operation refused at its access gate. *)
Definition accessDenied {A : Type} : Outcome A :=
  Throw (AuthorizationError "You do not have access to this object.").

(** An identity counts as authenticated when it is present and carries a
    truthy id. *)
Definition authenticated (user : option (gmap string value)) : Prop :=
  exists u, user = Some u /\ truthy (prop u "id") = true.

(** The caller owns the instance: its id strictly equals the value of the
    join field of some owner field. *)
Definition ownsInstance (this : InstanceResolver)
  (u o : gmap string value) : Prop :=
  exists f, f ∈ ownerFields this
            /\ strict_eq (prop o (keyOf (joinField f))) (prop u "id") = true.

(** The access gate of [get], [update], [destroy] and [completeTask] lets
    the caller through: there is no rule table, or the access match allows
    and its restrictions are satisfied. *)
Definition accessGranted (this : InstanceResolver)
  (user : option (gmap string value)) (obj : gmap string value) : Prop :=
  match acl this with
  | Some a =>
      let accessMatch :=
        applyRules a (fst (userToAclTargets this user (Some obj))) Access (Some obj) in
      allow accessMatch = true
      /\ _restrictionsApplyToUser (allowedRestrictions accessMatch)
           (snd (userToAclTargets this user (Some obj))) = true
  | None => True
  end.

(** The read match of a call, when there is a rule table. *)
Definition readMatch (this : InstanceResolver)
  (user : option (gmap string value)) (obj : gmap string value)
  : option AclMatch :=
  match acl this with
  | Some a =>
      Some (applyRules a (fst (userToAclTargets this user (Some obj))) Read (Some obj))
  | None => None
  end.

(** The schema's read ceiling: the names of the elements that have one. *)
Definition readCeiling (md : ModelDefinition) (k : string) : Prop :=
  exists e, e ∈ elements md /\ field e = Some k /\ k <> "".

(** The schema's input ceiling: the named elements whose [input] is not
    [false]. *)
Definition inputCeiling (md : ModelDefinition) (k : string) : Prop :=
  exists e, e ∈ elements md /\ field e = Some k /\ k <> ""
            /\ input e <> Some false.

(** A policy match admits a field: it names no fields, or names this one. *)
Definition policyAdmits (m : option AclMatch) (k : string) : Prop :=
  match m ≫= allowedFields with
  | Some fs => k ∈ fs
  | None => True
  end.

(** The read-allowed set: the ceiling narrowed by the policy, extended by
    the fixed additional fields. *)
Definition readAllowed (md : ModelDefinition) (m : option AclMatch)
  (k : string) : Prop :=
  k ∈ AdditionalAllowedGetFields \/ (readCeiling md k /\ policyAdmits m k).

(** The write-allowed set: the input ceiling narrowed by the policy. *)
Definition writeAllowed (md : ModelDefinition) (m : option AclMatch)
  (k : string) : Prop :=
  inputCeiling md k /\ policyAdmits m k.

(** The write match of an [update], when there is a rule table. *)
Definition writeMatch (this : InstanceResolver)
  (user object : option (gmap string value)) : option AclMatch :=
  match acl this with
  | Some a =>
      Some (applyRules a (fst (userToAclTargets this user object)) Write object)
  | None => None
  end.

(** The gates of [update] let the caller through: access (with its
    restrictions) and write are allowed, or there is no rule table. *)
Definition updateGranted (this : InstanceResolver)
  (user object : option (gmap string value)) : Prop :=
  match acl this with
  | Some a =>
      let targets := fst (userToAclTargets this user object) in
      let accessMatch := applyRules a targets Access object in
      allow accessMatch = true
      /\ _restrictionsApplyToUser (allowedRestrictions accessMatch)
           (snd (userToAclTargets this user object)) = true
      /\ allow (applyRules a targets Write object) = true
  | None => True
  end.

(** The names of a policy match are plain field names: none has path
    syntax, none is the name of an inherited member. *)
Definition plainPolicy (m : option AclMatch) : Prop :=
  match m ≫= allowedFields with
  | Some fs => forallb plainName fs = true
  | None => True
  end.

(** The test the loop of [update] makes on a key, negated. *)
Definition disallowedKey (allowedFields : gmap string Element) (k : string)
  : bool :=
  negb (bool_decide (is_Some (allowedFields !! k))).

(** The process instance [destroy] would delete: the first one listed,
    provided it has an id and its business key is the instance id up to
    letter case. *)
Definition matchingProcessInstance `{rt : JsRuntime} (id : string) (data : list ProcessInstance)
  : option ProcessInstance :=
  match data with
  | p :: _ =>
      if truthy_str (pi_id p) && truthy_str (pi_businessKey p)
         && String.eqb (toLowerCase (pi_businessKey p)) (toLowerCase id)
      then Some p
      else None
  | [] => None
  end.

(** The listing of process instances gives [destroy] nothing to delete:
    it is empty, or its first entry lacks an id or a business key, or has
    a business key that differs from the instance id after both are
    lower-cased. *)
Definition nothingToDelete `{rt : JsRuntime} (id : string)
  (data : list ProcessInstance) : Prop :=
  match data with
  | [] => True
  | p :: _ =>
      pi_id p = "" \/ pi_businessKey p = ""
      \/ toLowerCase (pi_businessKey p) <> toLowerCase id
  end.

(** A field name is declared as a state field of the schema. *)
Definition declaredStateField (this : InstanceResolver) (k : string) : Prop :=
  exists e, e ∈ stateFields this /\ keyOf (field e) = k.

(** The values [completeTask] forwards: strings, numbers and [null]. *)
Definition processVariableValue (v : value) : Prop :=
  (exists s, v = VStr s) \/ (exists n, v = VNum n) \/ v = VNull.

(** The test [completeTask] makes on a state value before forwarding it. *)
Definition forwarded (v : value) : bool :=
  String.eqb (typeof v) "string" || String.eqb (typeof v) "number"
  || strict_eq v VNull.

(** The rows of the storage table. *)
Definition storedRows {E} (w : World E) : list (gmap string value) :=
  map snd (map_to_list (db w)).

(** A row passes the filter predicates [list] derives from its input. *)
Definition passesFilters (this : InstanceResolver)
  (filter : option (gmap string value)) (row : gmap string value) : bool :=
  forallb (fun ca => evalAtom row (snd ca)) (fst (filterStatements this filter)).

(** The caller is an owner of the row: some owner field's join column
    holds the caller's id. *)
Definition ownsRow (this : InstanceResolver) (u row : gmap string value)
  : bool :=
  existsb (fun f => strict_eq (prop row (keyOf (joinField f))) (prop u "id"))
    (ownerFields this).

(** The ordering and the relation expansion [list] asks of the storage
    engine for the rows it selected. *)
Definition presentRows (this : InstanceResolver) (input : ListInput)
  (info : list string) (rows : list (gmap string value))
  : list (gmap string value) :=
  let ordering :=
    match li_sorting input with
    | Some sorting =>
        if nonEmpty (listingSortableFields this)
        then sortingToOrdering this sorting
        else []
    | None => []
    end in
  let rows := match ordering with
              | [] => rows
              | _ => orderRows (modelClass this) ordering rows
              end in
  match eagerResolvesFor this info with
  | Some rels => map (expand (modelClass this) rels) rows
  | None => rows
  end.

(** The per-row redaction that ends [list]. *)
Definition redactFor `{rt : JsRuntime} (this : InstanceResolver)
  (user : option (gmap string value)) (info : list string)
  (row : gmap string value) : gmap string value :=
  _getInstance this row (fst (userToAclTargets this user (Some row))) info.

(** * A sample model, used to exercise the operations *)

Module Sample.

(** The part of a path before its first dot. *)
Fixpoint beforeDot (path : string) : string :=
  match path with
  | EmptyString => EmptyString
  | String c path' =>
      if Ascii.eqb c "." then EmptyString else String c (beforeDot path')
  end.

(** The key lodash sets for a path [k.field] into a map of elements: every
    element of the field maps has the property [field], so the element
    under [k], when there is one, has the path. *)
Definition keyOfPath (path : string) : string :=
  if String.eqb path (beforeDot path ++ ".field") then beforeDot path else path.

(** A runtime for the examples: lower-casing of ASCII letters, and a
    [pick] that resolves the paths [k.field] as lodash does and reads
    every other name as the name of an own property. *)
Definition samplePick (m : gmap string Element) (paths : list string)
  : gmap string Element :=
  if forallb plainName paths then pickOwn m paths
  else pickOwn m (map keyOfPath paths).

Definition runtime : JsRuntime :=
  {| toLowerCase := asciiLowerCase;
     pick := samplePick;
     pick_plain := fun m paths (H : forallb plainName paths = true) =>
       eq_ind_r (x := true)
                (fun b : bool => (if b then pickOwn m paths
                                  else pickOwn m (map keyOfPath paths))
                                 = pickOwn m paths) eq_refl H |}.

Definition el (f : string) : Element :=
  {| field := Some f; input := None; joinField := None;
     listingFilterMultiple := false |}.

Definition submitter : Element :=
  {| field := Some "submitter"; input := Some false;
     joinField := Some "submitterId"; listingFilterMultiple := false |}.

Definition utils : Utils :=
  {| filterModelElementsForRelations := fun _ _ => [];
     filterModelElementsForOwnerFields :=
       List.filter (fun e => match joinField e with
                             | Some _ => true
                             | None => false
                             end);
     filterModelElementsForStates := fun es _ =>
       List.filter (fun e => match field e with
                             | Some f => String.eqb f "phase" || String.eqb f "hidden"
                             | None => false
                             end) es;
     filterModelElementsForListingFilters := fun _ _ => [];
     filterModelElementsForListingSortable := fun _ _ => [] |}.

Definition elems : list Element :=
  [el "title"; el "secret"; el "phase"; el "hidden"; submitter].

Definition definition (es : list Element) : TaskDefinition :=
  {| td_name := "Submission";
     model := {| elements := es; md_input := Some true |};
     processKey := "submission" |}.

(** A rule table given by one decision per action. *)
Definition rules (decide : AclAction -> AclMatch) : Acl :=
  {| applyRules := fun _ action _ => decide action |}.

Definition allowAll (restrictions : option (list string)) : AclMatch :=
  {| allow := true; allowedFields := None;
     allowedRestrictions := restrictions; allowedTasks := None |}.

Definition denyAll : AclMatch :=
  {| allow := false; allowedFields := None;
     allowedRestrictions := None; allowedTasks := None |}.

Definition class (a : option Acl) : ModelClass :=
  {| mc_acl := a; accepts := fun _ => true; expand := fun _ o => o;
     orderRows := fun _ rows => rows |}.

Definition resolver (a : option Acl) : InstanceResolver :=
  newInstanceResolver utils 1 (class a) (definition elems) ∅.

Definition row1 : gmap string value :=
  <["id" := VStr "i1"]>
    (<["title" := VStr "x"]>
       (<["secret" := VStr "s"]>
          (<["submitterId" := VStr "u1"]> ∅))).

Definition row2 : gmap string value :=
  <["id" := VStr "i2"]>
    (<["title" := VStr "y"]> (<["submitterId" := VStr "u2"]> ∅)).

Definition alice : gmap string value := {["id" := VStr "u1"]}.
Definition bob : gmap string value := {["id" := VStr "u2"]}.

Definition request (user : option string) : RequestContext :=
  {| rc_user := user; resolvedUser := None; instanceLookup := ∅ |}.

(** A workflow engine whose state is the list of its process instances
    and which knows no tasks. *)
Definition engineOf : WorkflowService (list ProcessInstance) :=
  {| processInstanceService_list := fun businessKey _ e =>
       Return (List.filter
                 (fun p => String.eqb (pi_businessKey p) businessKey) e);
     processInstanceService_del := fun id e =>
       (Return (),
        List.filter (fun p => negb (String.eqb (pi_id p) id)) e);
     taskService_list := fun _ _ =>
       Return {| embedded_tasks := Some []; embedded_task := None |};
     taskService_complete := fun _ e => (Return (), e) |}.

Definition world (user : option string) : World (list ProcessInstance) :=
  {| db := <["i1" := row1]> (<["i2" := row2]> ∅);
     identities := <["u1" := alice]> (<["u2" := bob]> ∅);
     engine := [];
     context := Some (request user);
     trace := [] |}.

End Sample.

Module UpdateSample.

(** Write access is limited to [title]; everything else is allowed. *)
Definition titleOnly : Acl :=
  Sample.rules
    (fun action =>
       match action with
       | Write => {| allow := true; allowedFields := Some ["title"];
                     allowedRestrictions := None; allowedTasks := None |}
       | _ => Sample.allowAll (Some ["all"])
       end).

Definition this : InstanceResolver :=
  newInstanceResolver Sample.utils 1 (Sample.class (Some titleOnly))
    (Sample.definition Sample.elems) ∅.

(** [{id: "i1", title: "z", secret: "y"}] *)
Definition mixed : jsobj :=
  [("id", VStr "i1"); ("title", VStr "z"); ("secret", VStr "y")].

(** [{id: "i1", title: "x"}], the values the instance already has *)
Definition unchanged : jsobj := [("id", VStr "i1"); ("title", VStr "x")].

End UpdateSample.

Module TaskSample.

Definition review : WfTask :=
  {| task_id := "t1"; taskDefinitionKey := "review";
     _links := None; _embedded := None |}.

(** A workflow engine with one pending task and no process instances. *)
Definition engineOf : WorkflowService unit :=
  {| processInstanceService_list := fun _ _ _ => Return [];
     processInstanceService_del := fun _ e => (Return (), e);
     taskService_list := fun _ _ =>
       Return {| embedded_tasks := Some [review]; embedded_task := None |};
     taskService_complete := fun _ e => (Return (), e) |}.

Definition world : World unit :=
  {| db := <["i1" := Sample.row1]> ∅;
     identities := <["u1" := Sample.alice]> ∅;
     engine := ();
     context := Some (Sample.request (Some "u1"));
     trace := [] |}.

(** [{id: "i1", taskId: "t1", state: {phase: "review", hidden: true,
    title: "t"}}] *)
Definition input : CompleteTaskInput :=
  {| ct_id := "i1"; ct_taskId := "t1";
     ct_state := Some [("phase", VStr "review"); ("hidden", VBool true);
                       ("title", VStr "t")] |}.

End TaskSample.

Module ListSample.

(** Access is granted with the [owner] restriction only. *)
Definition ownerOnly : Acl :=
  Sample.rules (fun _ => Sample.allowAll (Some ["owner"])).

Definition this : InstanceResolver := Sample.resolver (Some ownerOnly).

(** The same model without its owner field. *)
Definition ownerless : InstanceResolver :=
  newInstanceResolver Sample.utils 1 (Sample.class (Some ownerOnly))
    (Sample.definition [Sample.el "title"]) ∅.

Definition input : ListInput := {| li_filter := None; li_sorting := None |}.

End ListSample.

(** * Further operations of the resolver *)

(** The default attributes of a model element, which [create] reads
    ([defaultEnum], [defaultEnumKey], [defaultValue]; an absent
    [defaultValue] is [VUndefined]). *)
Record ElementDefault := {
  defaultEnum : option string;
  defaultEnumKey : option string;
  defaultValue : value
}.

(** The process-definition client of the workflow engine:
    [processDefinitionService.start({key, businessKey})]. *)
Record ProcessDefinitionService (E : Type) := {
  processDefinitionService_start : string -> string -> E -> Outcome unit * E
}.
Arguments processDefinitionService_start {E} _ _ _ _.

(** [resolveEnum(enumName, enumKey)]; an enum is represented by its
    [values]. *)
Definition resolveEnum (this : InstanceResolver) (enumName enumKey : string)
  : value :=
  match enums this !! enumName with
  | Some e => prop e enumKey
  | None => VNull
  end.

(** The [forEach] of [create] over the owner fields. *)
Definition assignOwner (this : InstanceResolver) (userId : value)
  (newInstance : gmap string value) : gmap string value :=
  fold_left (fun o e => <[keyOf (joinField e) := userId]> o)
    (ownerFields this) newInstance.

(** The value [create] assigns to the field of an element from its
    default attributes, if any: the enum value when [defaultEnum] and
    [defaultEnumKey] are both given (and only if that value is truthy),
    else a truthy [defaultValue]. *)
Definition defaultFor (this : InstanceResolver)
  (defaultsOf : Element -> ElementDefault) (e : Element) : option value :=
  if truthy_str (default "" (defaultEnum (defaultsOf e)))
     && truthy_str (default "" (defaultEnumKey (defaultsOf e)))
  then
    let v := resolveEnum this (default "" (defaultEnum (defaultsOf e)))
               (default "" (defaultEnumKey (defaultsOf e))) in
    if truthy v then Some v else None
  else if truthy (defaultValue (defaultsOf e))
  then Some (defaultValue (defaultsOf e))
  else None.

(** What [create] does for one element when it applies the defaults. *)
Definition applyDefault (this : InstanceResolver)
  (defaultsOf : Element -> ElementDefault) (newInstance : gmap string value)
  (e : Element) : gmap string value :=
  match defaultFor this defaultsOf e with
  | Some v => <[keyOf (field e) := v]> newInstance
  | None => newInstance
  end.

(** The new instance [create] starts from. *)
Definition newInstanceAt (created updated : string) : gmap string value :=
  <["updated" := VStr updated]> (<["created" := VStr created]> ∅).

(** The two loops of [create] on the new instance: the owner fields are
    connected to the caller, then the defaults are applied. *)
Definition prepareInstance (this : InstanceResolver)
  (defaultsOf : Element -> ElementDefault)
  (user : option (gmap string value)) (newInstance : gmap string value)
  : gmap string value :=
  let newInstance :=
    match user with
    | Some u =>
        if truthy (prop u "id") && nonEmpty (ownerFields this)
        then assignOwner this (prop u "id") newInstance
        else newInstance
    | None => newInstance
    end in
  fold_left (applyDefault this defaultsOf) (elements (modelDef this))
    newInstance.

Section MoreOperations.

Variable E : Type.

(** Modelled from the spec: [instance.save()] on an instance that has no
    row yet ("Persist the instance"); the storage engine assigns the id,
    which is given here as [newId], and the saved object carries it. *)
Definition saveNew (this : InstanceResolver) (object : gmap string value)
  (newId : string) : M E (gmap string value) :=
  logEffect (ESave object);;
  if accepts (modelClass this) object
  then (fun w => (Return (<["id" := VStr newId]> object),
                  withDb w (<[newId := <["id" := VStr newId]> object]> (db w))))
       : M E (gmap string value)
  else throw StorageError.

(** [InstanceResolver.prototype.create]; [defaultsOf] gives the default
    attributes of the model's elements, [created] and [updated] are the two
    readings of the clock. *)
Definition create (pds : ProcessDefinitionService E)
  (defaultsOf : Element -> ElementDefault) (created updated newId : string)
  (this : InstanceResolver) : M E (gmap string value) :=
  let newInstance := newInstanceAt created updated in
  user ← resolveUserForContext this;
  match acl this with
  | Some a =>
      let '(aclTargets, _) := userToAclTargets this user (Some newInstance) in
      let match_ := applyRules a aclTargets Create (Some newInstance) in
      if negb (allow match_)
      then throw (AuthorizationError
                    "You do not have rights to create a new instance.")
      else mret ()
  | None => mret ()
  end;;
  let newInstance := prepareInstance this defaultsOf user newInstance in
  newInstance ← saveNew this newInstance newId;
  engineCall (processDefinitionService_start pds (processKey (taskDef this)) newId);;
  mret newInstance.

(** [resolveInstanceUsingContext(instanceId, context)]; [contextGiven]
    says whether the caller passes the request context.  A [null] found
    and stored in the lookup map reads as an absent entry. *)
Definition resolveInstanceUsingContext (this : InstanceResolver)
  (instanceId : value) (contextGiven : bool)
  : M E (option (gmap string value)) :=
  fun w =>
    match (if contextGiven then context w else None) with
    | None => find this instanceId None w
    | Some c =>
        if negb (truthy_str (default "" (rc_user c)))
        then find this instanceId None w
        else
          let instanceLookupMap :=
            default ∅ (instanceLookup c !! contextLookupId this) in
          match instanceLookupMap !! toPropertyKey instanceId with
          | Some instance =>
              (Return (Some instance),
               withContext w
                 {| rc_user := rc_user c; resolvedUser := resolvedUser c;
                    instanceLookup :=
                      <[contextLookupId this := instanceLookupMap]>
                        (instanceLookup c) |})
          | None =>
              match find this instanceId None w with
              | (Return instance, w') =>
                  (Return instance,
                   withContext w'
                     {| rc_user := rc_user c; resolvedUser := resolvedUser c;
                        instanceLookup :=
                          <[contextLookupId this :=
                              match instance with
                              | Some i =>
                                  <[toPropertyKey instanceId := i]>
                                    instanceLookupMap
                              | None => instanceLookupMap
                              end]>
                            (instanceLookup c) |})
              | (Throw e, w') => (Throw e, w')
              end
          end
    end.

(** [InstanceResolver.prototype.resolveRelation]; [relatedQuery] stands
    for the storage engine's [$relatedQuery].  The resolver calls
    [resolveInstanceUsingContext] without the context. *)
Definition resolveRelation
  (relatedQuery : gmap string value -> string -> value)
  (this : InstanceResolver) (element : Element)
  (parent : option (gmap string value)) : M E value :=
  match parent with
  | None => mret VNull
  | Some p =>
      if negb (truthy (prop p "id")) then mret VNull
      else if negb (strict_eq (prop p (keyOf (field element))) VUndefined)
      then mret (prop p (keyOf (field element)))
      else
        instance ← resolveInstanceUsingContext this (prop p "id") false;
        match instance with
        | Some i => mret (relatedQuery i (keyOf (field element)))
        | None => throw TypeError
        end
  end.

End MoreOperations.

Arguments saveNew {E} _ _ _ _.
Arguments create {E} _ _ _ _ _ _ _.
Arguments resolveInstanceUsingContext {E} _ _ _ _.
Arguments resolveRelation {E} _ _ _ _ _.

(** * Further notions used to state properties *)

(** Two worlds hold the same rows, engine state and trace of effects
    (they may differ in the request context). *)
Definition sameStore {E} (w w' : World E) : Prop :=
  db w' = db w /\ engine w' = engine w /\ trace w' = trace w.

(** A computation that, whatever its outcome, leaves rows, engine state
    and trace as they were. *)
Definition readOnly {E A} (m : M E A) : Prop :=
  forall w r w', m w = (r, w') -> sameStore w w'.

(** The task match of a call, when there is a rule table. *)
Definition taskMatch (this : InstanceResolver)
  (user : option (gmap string value)) (obj : gmap string value)
  : option AclMatch :=
  match acl this with
  | Some a =>
      Some (applyRules a (fst (userToAclTargets this user (Some obj))) Task (Some obj))
  | None => None
  end.

(** A task-definition key is admitted by a task match: the match names no
    tasks, or names this one. *)
Definition taskAdmitted (m : option AclMatch) (key : string) : bool :=
  match m ≫= allowedTasks with
  | Some allowed => includes key allowed
  | None => true
  end.

(** The gates of a guarded operation let the caller through: access (with
    its restrictions) and the action itself are allowed, or there is no
    rule table. *)
Definition actionGranted (this : InstanceResolver) (action : AclAction)
  (user : option (gmap string value)) (obj : gmap string value) : Prop :=
  match acl this with
  | Some a =>
      let targets := fst (userToAclTargets this user (Some obj)) in
      let accessMatch := applyRules a targets Access (Some obj) in
      allow accessMatch = true
      /\ _restrictionsApplyToUser (allowedRestrictions accessMatch)
           (snd (userToAclTargets this user (Some obj))) = true
      /\ allow (applyRules a targets action (Some obj)) = true
  | None => True
  end.

Definition destroyGranted (this : InstanceResolver) :=
  actionGranted this Destroy.

(** The gate of [create] lets the caller through. *)
Definition createGranted (this : InstanceResolver) (created updated : string)
  (user : option (gmap string value)) : Prop :=
  match acl this with
  | Some a =>
      allow (applyRules a
               (fst (userToAclTargets this user
                       (Some (newInstanceAt created updated))))
               Create (Some (newInstanceAt created updated))) = true
  | None => True
  end.

(** The tasks of a listing that carry the id [taskId]. *)
Definition tasksWithId (data : TaskListData) (taskId : string) : list WfTask :=
  List.filter (fun t => String.eqb (task_id t) taskId)
    (default [] (embeddedTasks data)).

(** The request gives the declared state field [k] the value [v]. *)
Definition requestedState (this : InstanceResolver) (state : option jsobj)
  (k : string) (v : value) : Prop :=
  declaredStateField this k /\ exists st, state = Some st /\ oget st k = Some v.

(** The outcomes by which an operation refuses a request: an
    [AuthorizationError] or a [UserInputError]. *)
Definition refusal {A} (r : Outcome A) : Prop :=
  exists msg, r = Throw (AuthorizationError msg) \/ r = Throw (UserInputError msg).

(** A computation that never refuses. *)
Definition neverRefuses {E A} (m : M E A) : Prop :=
  forall w r w', m w = (r, w') -> ~ refusal r.

(** A computation whose refusals are free of effects: when it refuses,
    rows, engine state and trace are as before. *)
Definition refusesCleanly {E A} (m : M E A) : Prop :=
  forall w r w', m w = (r, w') -> refusal r -> sameStore w w'.

(** One round of the state loop of [destroy]. *)
Definition stateStep (fs : jsobj) (acc : gmap string value * bool)
  (key : string) : gmap string value * bool :=
  let value := oprop fs key in
  if negb (strict_eq (prop (fst acc) key) value)
  then (<[key := value]> (fst acc), true)
  else (fst acc, snd acc).

(** The instance after the state changes of a request, and whether any
    of them changed it: the outcome of the state loop of [destroy] and
    [completeTask]. *)
Definition stateOutcome (this : InstanceResolver) (state : option jsobj)
  (obj : gmap string value) : gmap string value * bool :=
  match filterState this state with
  | Some fs => if nonEmpty (okeys fs) then applyState fs obj else (obj, false)
  | None => (obj, false)
  end.

(** The predicate a listing-filter field contributes for a filter. *)
Definition filterAtom (f : Element) (filter : gmap string value)
  : option Atom :=
  let v := prop filter (keyOf (field f)) in
  if truthy v then
    if listingFilterMultiple f then
      match v with
      | VArr vs => Some (AIn (keyOf (field f)) vs)
      | _ => None
      end
    else Some (AEq (keyOf (field f)) v)
  else None.

(** The entry of a filter that counts for a listing-filter field: a truthy
    value, an array if the field takes several values. *)
Definition filterEntry (f : Element) (filter : option (gmap string value))
  : option value :=
  match filter with
  | Some flt =>
      let v := prop flt (keyOf (field f)) in
      if truthy v
         && (negb (listingFilterMultiple f)
             || match v with VArr _ => true | _ => false end)
      then Some v else None
  | None => None
  end.

(** The entry of a sorting that counts for a sortable field: a boolean. *)
Definition sortFlag (f : Element) (sorting : option (gmap string value))
  : option bool :=
  match sorting with
  | Some s => match s !! keyOf (field f) with
              | Some (VBool b) => Some b
              | _ => None
              end
  | None => None
  end.

(** The gate of [list] lets the caller through without restriction: the
    access match allows and its restrictions include ["all"], or there is
    no rule table. *)
Definition listsAll (this : InstanceResolver)
  (user : option (gmap string value)) : Prop :=
  match acl this with
  | Some a =>
      let accessMatch :=
        applyRules a (fst (userToAclTargets this user None)) Access None in
      allow accessMatch = true
      /\ exists rs, allowedRestrictions accessMatch = Some rs /\ "all" ∈ rs
  | None => True
  end.

(** The process variables [completeTask] sends for a state. *)
Definition stateVariables (this : InstanceResolver) (state : option jsobj)
  (obj : gmap string value) : option (gmap string value) :=
  match filterState this state with
  | Some fs => if nonEmpty (okeys fs) then Some (snd (applyStateVars fs obj))
               else None
  | None => None
  end.

(** [completeTask] once its checks have passed: the state change, then
    the request to the engine. *)
Definition completeAdmitted {E} (camunda : WorkflowService E)
  (this : InstanceResolver) (input : CompleteTaskInput)
  (instance : gmap string value) : M E bool :=
  (if snd (stateOutcome this (ct_state input) instance)
   then save this (fst (stateOutcome this (ct_state input) instance))
   else mret ());;
  catch
    (let completeTaskOpts :=
       {| cto_id := ct_taskId input;
          variables := stateVariables this (ct_state input) instance |} in
     logEffect (ETaskComplete completeTaskOpts);;
     engineCall (taskService_complete camunda completeTaskOpts);;
     mret true)
    (fun err =>
       throw (Error "Unable to complete task for instance due to business engine error.")).

(** Further samples. *)
Module MoreSample.

(** Only the [review] task is admitted; everything else is allowed. *)
Definition reviewOnly : Acl :=
  Sample.rules
    (fun action =>
       match action with
       | Task => {| allow := true; allowedFields := None;
                    allowedRestrictions := None;
                    allowedTasks := Some ["review"] |}
       | _ => Sample.allowAll (Some ["all"])
       end).

Definition linked (id key : string) : WfTask :=
  {| task_id := id; taskDefinitionKey := key;
     _links := Some (VObj [("self", VStr "/task")]); _embedded := Some VNull |}.

(** A workflow engine whose state is its list of process instances; it
    answers task listings with two tasks, completes any task, and fails to
    delete the process instance named ["stuck"]. *)
Definition engineOf : WorkflowService (list ProcessInstance) :=
  {| processInstanceService_list := fun businessKey _ e =>
       Return (List.filter
                 (fun p => String.eqb (asciiLowerCase (pi_businessKey p))
                             (asciiLowerCase businessKey)) e);
     processInstanceService_del := fun id e =>
       if String.eqb id "stuck" then (Throw (TransportError "503"), e)
       else (Return (),
             List.filter (fun p => negb (String.eqb (pi_id p) id)) e);
     taskService_list := fun _ _ =>
       Return {| embedded_tasks := Some [linked "t1" "review"; linked "t2" "publish"];
                 embedded_task := None |};
     taskService_complete := fun _ e => (Return (), e) |}.

(** A workflow engine that is down. *)
Definition down : WorkflowService unit :=
  {| processInstanceService_list := fun _ _ _ => Throw (TransportError "ECONNREFUSED");
     processInstanceService_del := fun _ e => (Throw (TransportError "ECONNREFUSED"), e);
     taskService_list := fun _ _ => Throw (TransportError "ECONNREFUSED");
     taskService_complete := fun _ e => (Throw (TransportError "ECONNREFUSED"), e) |}.

(** A workflow engine that lists the [review] task but fails to complete
    it. *)
Definition stalls : WorkflowService unit :=
  {| processInstanceService_list := fun _ _ _ => Return [];
     processInstanceService_del := fun _ e => (Return (), e);
     taskService_list := fun _ _ =>
       Return {| embedded_tasks := Some [TaskSample.review]; embedded_task := None |};
     taskService_complete := fun _ e => (Throw (TransportError "500"), e) |}.

(** A model whose listing can be filtered by [title] (one value) and
    [phase] (several values) and sorted by [title]. *)
Definition severalPhases : Element :=
  {| field := Some "phase"; input := None; joinField := None;
     listingFilterMultiple := true |}.

Definition listingUtils : Utils :=
  {| filterModelElementsForRelations := fun _ _ => [];
     filterModelElementsForOwnerFields := fun _ => [];
     filterModelElementsForStates := fun _ _ => [];
     filterModelElementsForListingFilters := fun es _ => es;
     filterModelElementsForListingSortable := fun es _ =>
       List.filter (fun e => match field e with
                             | Some f => String.eqb f "title"
                             | None => false
                             end) es |}.

Definition listing : InstanceResolver :=
  newInstanceResolver listingUtils 2 (Sample.class None)
    (Sample.definition [Sample.el "title"; severalPhases]) ∅.

(** A process-definition client that records the process it starts, and
    one that is unavailable. *)
Definition starts : ProcessDefinitionService (list ProcessInstance) :=
  {| processDefinitionService_start := fun key businessKey e =>
       (Return (), push e {| pi_id := key; pi_businessKey := businessKey |}) |}.

Definition unavailable : ProcessDefinitionService (list ProcessInstance) :=
  {| processDefinitionService_start := fun _ _ e =>
       (Throw (TransportError "503"), e) |}.

(** Defaults: the phase starts as ["draft"]; the title has the empty
    string as its default value. *)
Definition defaults (e : Element) : ElementDefault :=
  {| defaultEnum := None; defaultEnumKey := None;
     defaultValue :=
       match field e with
       | Some f => if String.eqb f "phase" then VStr "draft"
                   else if String.eqb f "title" then VStr ""
                   else VUndefined
       | None => VUndefined
       end |}.

(** The process instance started for the instance ["i1"], with its
    business key in upper case. *)
Definition running : ProcessInstance :=
  {| pi_id := "p1"; pi_businessKey := "I1" |}.

(** [{id: "i1", state: {phase: "destroyed", title: "t"}}] *)
Definition destroyInput : DestroyInput :=
  {| di_id := "i1";
     di_state := Some [("phase", VStr "destroyed"); ("title", VStr "t")] |}.

Definition world (user : option string) (e : list ProcessInstance)
  : World (list ProcessInstance) :=
  {| db := <["i1" := Sample.row1]> (<["i2" := Sample.row2]> ∅);
     identities := <["u1" := Sample.alice]> (<["u2" := Sample.bob]> ∅);
     engine := e;
     context := Some (Sample.request user);
     trace := [] |}.

Definition downWorld : World unit :=
  {| db := <["i1" := Sample.row1]> ∅;
     identities := <["u1" := Sample.alice]> ∅;
     engine := ();
     context := Some (Sample.request (Some "u1"));
     trace := [] |}.

End MoreSample.

(** * The form fields for files and authors *)

(** The start index of [Array.prototype.splice], made relative to an array
    of length [len]: a negative index counts from the end, and the result
    is clamped to the array. *)
Definition relativeStart (len : nat) (start : Z) : nat :=
  if (start <? 0)%Z then Z.to_nat (Z.max (Z.of_nat len + start) 0)
  else Z.to_nat (Z.min start (Z.of_nat len)).

(** [arr.splice(start, deleteCount, ...items)]: the removed elements and
    the contents of [arr] afterwards.  Without a [deleteCount] everything
    from [start] on is removed. *)
Definition splice {A : Type} (arr : list A) (start : Z)
  (deleteCount : option nat) (items : list A) : list A * list A :=
  let actualStart := relativeStart (length arr) start in
  let actualDeleteCount :=
    match deleteCount with
    | Some n => Nat.min n (length arr - actualStart)
    | None => (length arr - actualStart)%nat
    end in
  (take actualDeleteCount (drop actualStart arr),
   (take actualStart arr ++ items ++ drop (actualStart + actualDeleteCount) arr)%list).

(** [const [first] = arr]: the first element, [undefined] for an empty
    array.  An array entry is [None] when it is [undefined]. *)
Definition firstOf {A : Type} (arr : list (option A)) : option A :=
  default None (head arr).

(** What the handlers of the form fields ask of their environment: the
    state setters of the component, the form data object and the
    validation hook. *)
Inductive FormEffect :=
| SetFieldValueForComplexObject (files : list (option nat))
| SetFileListing (files : list (option nat))
| SetFilesModified (b : bool)
| ClearValidationIssues
| RelationshipWasModified
| SetAuthors (authors : list (option (gmap string value))).

(** [newFileListing.forEach((f, index) => f.order = index)]: the file
    objects are shared with the listing held in the component state, so
    they are updated in the object store; an [undefined] entry stops the
    loop with a [TypeError]. *)
Fixpoint renumber (files : list (option nat)) (index : nat)
  (objects : gmap nat (gmap string value))
  : Outcome unit * gmap nat (gmap string value) :=
  match files with
  | [] => (Return (), objects)
  | Some f :: files' =>
      renumber files' (S index)
        (alter (fun o => <["order" := VNum (Z.of_nat index)]> o) f objects)
  | None :: _ => (Throw TypeError, objects)
  end.

(** [reorderFile(file, newIndex, oldIndex)] of the file uploader field;
    [fileListing] is the component state, a list of references to file
    objects. *)
Definition reorderFile (fileListing : list nat) (newIndex oldIndex : Z)
  (objects : gmap nat (gmap string value))
  : Outcome unit * list FormEffect * gmap nat (gmap string value) :=
  let newFileListing := map Some fileListing in
  let '(removed, newFileListing) := splice newFileListing oldIndex (Some 1%nat) [] in
  let movedFile := firstOf removed in
  let '(_, newFileListing) :=
    splice newFileListing newIndex (Some 0%nat) [movedFile] in
  match renumber newFileListing 0 objects with
  | (Throw e, objects) => (Throw e, [], objects)
  | (Return _, objects) =>
      (Return (),
       [SetFieldValueForComplexObject newFileListing;
        SetFileListing newFileListing;
        SetFilesModified true; ClearValidationIssues; RelationshipWasModified],
       objects)
  end.

(** [onDragEnd({destination, source})] of the authors editor, given the
    two indices; [authors] is the array bound to the field, absent when
    the field has no value. *)
Definition onDragEnd (authors : option (list (option (gmap string value))))
  (destination : option Z) (source : Z) : Outcome unit * list FormEffect :=
  match destination with
  | None => (Return (), [])
  | Some destinationIndex =>
      match authors with
      | None => (Throw TypeError, [])
      | Some authors =>
          let newAuthorListing := authors in
          let '(removed, newAuthorListing) :=
            splice newAuthorListing source (Some 1%nat) [] in
          let movedAuthor := firstOf removed in
          let '(_, newAuthorListing) :=
            splice newAuthorListing destinationIndex (Some 0%nat) [movedAuthor] in
          (Return (), [SetAuthors newAuthorListing])
      end
  end.

(** [addAuthor()]; [nextUniqueIdInArray] is the helper of that name.  The
    result holds the effects and the contents of the bound array
    afterwards: [splice(0)] empties it in place. *)
Definition addAuthor
  (nextUniqueIdInArray : option (list (option (gmap string value))) -> value)
  (authors : option (list (option (gmap string value))))
  : Outcome unit * list FormEffect * option (list (option (gmap string value))) :=
  let newAuthor : gmap string value := {["id" := nextUniqueIdInArray authors]} in
  let '(newAuthorsList, authors) :=
    match authors with
    | Some arr => let '(removed, arr) := splice arr 0 None [] in (removed, Some arr)
    | None => ([], None)
    end in
  (Return (),
   [ClearValidationIssues; SetAuthors (push newAuthorsList (Some newAuthor))],
   authors).

(** [arr.filter(a => a.id !== id)]; reading [id] of an [undefined] entry
    is a [TypeError]. *)
Fixpoint filterOtherIds (id : value) (arr : list (option (gmap string value)))
  : option (list (option (gmap string value))) :=
  match arr with
  | [] => Some []
  | Some a :: arr' =>
      rest ← filterOtherIds id arr';
      Some (if negb (strict_eq (prop a "id") id) then Some a :: rest else rest)
  | None :: _ => None
  end.

(** [removeAuthor(a)] *)
Definition removeAuthor (a : gmap string value)
  (authors : option (list (option (gmap string value))))
  : Outcome unit * list FormEffect * option (list (option (gmap string value))) :=
  let id := prop a "id" in
  match authors with
  | None => (Throw TypeError, [ClearValidationIssues], None)
  | Some arr =>
      let '(removed, arr) := splice arr 0 None [] in
      match filterOtherIds id removed with
      | Some kept => (Return (), [ClearValidationIssues; SetAuthors kept], Some arr)
      | None => (Throw TypeError, [ClearValidationIssues], Some arr)
      end
  end.

(** The [order] a file object carries. *)
Definition orderOf (objects : gmap nat (gmap string value)) (f : nat) : value :=
  prop (default ∅ (objects !! f)) "order".

(** Rule tables for the examples of the restriction rule and of
    instance-conditional rules. *)
Module RuleSample.

(** Access is unrestricted; the matches of every other action allow under
    the restriction [owner]. *)
Definition ownerActions : Acl :=
  Sample.rules
    (fun action =>
       match action with
       | Access => Sample.allowAll (Some ["all"])
       | _ => Sample.allowAll (Some ["owner"])
       end).

(** An instance-conditional rule: an instance may be destroyed until its
    [phase] is ["destroyed"]. *)
Definition destroyOnce : Acl :=
  {| applyRules := fun _ action object =>
       match action, object with
       | Destroy, Some o =>
           if strict_eq (prop o "phase") (VStr "destroyed")
           then Sample.denyAll
           else Sample.allowAll None
       | _, _ => Sample.allowAll (Some ["all"])
       end |}.

(** Write access names the path [title.field], read access the path
    [secret.field]. *)
Definition paths : Acl :=
  Sample.rules
    (fun action =>
       match action with
       | Write => {| allow := true; allowedFields := Some ["title.field"];
                     allowedRestrictions := None; allowedTasks := None |}
       | Read => {| allow := true; allowedFields := Some ["secret.field"];
                    allowedRestrictions := None; allowedTasks := None |}
       | _ => Sample.allowAll (Some ["all"])
       end).

(** [{id: "i1", title: "z"}] *)
Definition retitle : jsobj := [("id", VStr "i1"); ("title", VStr "z")].

(** [{id: "i1", state: {phase: "destroyed"}}] *)
Definition destroyInput : DestroyInput :=
  {| di_id := "i1"; di_state := Some [("phase", VStr "destroyed")] |}.

(** An identity that carries no id, and a request made under it. *)
Definition nameless : gmap string value := {["name" := VStr "n"]}.

Definition namelessWorld : World (list ProcessInstance) :=
  {| db := <["i1" := Sample.row1]> (<["i2" := Sample.row2]> ∅);
     identities := <["u3" := nameless]> ∅;
     engine := [];
     context := Some (Sample.request (Some "u3"));
     trace := [] |}.

End RuleSample.

(** * Properties *)

(** The examples run on the sample runtime. *)
#[global] Existing Instance Sample.runtime.

Lemma includes_true (x : string) (arr : list string) :
  includes x arr = true <-> x ∈ arr.
Proof. unfold includes. apply bool_decide_eq_true. Qed.

Lemma includes_false (x : string) (arr : list string) :
  includes x arr = false <-> x ∉ arr.
Proof. unfold includes. apply bool_decide_eq_false. Qed.

Lemma nonEmpty_true {A : Type} (l : list A) : nonEmpty l = true <-> l <> [].
Proof. destruct l; cbn; split; congruence. Qed.

(** ** The restriction rule *)

Lemma _restrictionsApplyToUser_nonempty (rs : list string) (isOwner : bool) :
  rs <> [] ->
  _restrictionsApplyToUser (Some rs) isOwner = true
  <-> restrictionSatisfied rs isOwner.
Proof.
  intros Hne. unfold _restrictionsApplyToUser, restrictionSatisfied.
  destruct rs as [|r rs]; [congruence|].
  cbn [length Nat.eqb].
  destruct (includes "all" (r :: rs)) eqn:Hall.
  - apply includes_true in Hall. tauto.
  - apply includes_false in Hall.
    rewrite andb_true_iff, includes_true. tauto.
Qed.

(** ** Stepping through the monad *)

Ltac munfold :=
  unfold mbind, M_bind, mret, M_ret, throw, catch, logEffect, engineRead,
    engineCall in *.

Lemma find_total {E} (this : InstanceResolver) (id : value)
  (rels : option (list (option string))) (w : World E) :
  exists o, find this id rels w = (Return o, w).
Proof. unfold find. eauto. Qed.

Lemma find_world {E} (this : InstanceResolver) (id : value)
  (rels : option (list (option string))) (w w' : World E) r :
  find this id rels w = (r, w') -> w' = w.
Proof. unfold find. congruence. Qed.

Lemma resolveUserForContext_total {E} (this : InstanceResolver) (w : World E) :
  exists u w', resolveUserForContext this w = (Return u, w')
               /\ db w' = db w /\ engine w' = engine w /\ trace w' = trace w
               /\ identities w' = identities w.
Proof.
  unfold resolveUserForContext.
  destruct (context w) as [c|]; [|eauto 10].
  destruct (negb _); [eauto 10|].
  destruct (resolvedUser c); eauto 10.
Qed.

Lemma addInstancesToContext_total {E} (this : InstanceResolver)
  (l : list (gmap string value)) (w : World E) :
  exists w', addInstancesToContext this l w = (Return (), w')
             /\ db w' = db w /\ engine w' = engine w /\ trace w' = trace w
             /\ identities w' = identities w.
Proof.
  unfold addInstancesToContext.
  destruct (context w) as [c|]; [|eauto 10].
  destruct (nonEmpty l); eauto 10.
Qed.

(** ** C1: the restriction rule *)

(** C1 (amended).  When the access match computed for an instance carries
    a non-empty [allowedRestrictions] set, the allow decision is honoured
    exactly when the set contains [all], or contains [owner] and the
    caller owns the instance; otherwise each operation that consults the
    rule ([get], [update], [destroy], [completeTask]) refuses the caller
    with an [AuthorizationError], whatever the value of [allow], and a
    [get] that returns implies the set was satisfied. *)
Theorem restriction_rule `{rt : JsRuntime} {E} (camunda : WorkflowService E)
  (this : InstanceResolver) (obj : gmap string value)
  (user : option (gmap string value)) (a : Acl) (rs : list string) :
  acl this = Some a ->
  allowedRestrictions
    (applyRules a (fst (userToAclTargets this user (Some obj))) Access (Some obj))
  = Some rs ->
  rs <> [] ->
  let isOwner := snd (userToAclTargets this user (Some obj)) in
  (_restrictionsApplyToUser (Some rs) isOwner = true
   <-> restrictionSatisfied rs isOwner)
  /\ (forall id info (w w1 w2 : World E),
        find this (VStr id) (eagerResolvesFor this info) w = (Return (Some obj), w1) ->
        resolveUserForContext this w1 = (Return user, w2) ->
        (~ restrictionSatisfied rs isOwner ->
         fst (get this id info w) = accessDenied)
        /\ (forall r, fst (get this id info w) = Return r ->
                      restrictionSatisfied rs isOwner))
  /\ (~ restrictionSatisfied rs isOwner ->
      (forall input info (w w1 w2 : World E),
         md_input (modelDef this) = Some true ->
         find this (oprop input "id") None w = (Return (Some obj), w1) ->
         resolveUserForContext this w1 = (Return user, w2) ->
         fst (update this input info w) = accessDenied)
      /\ (forall input (w w1 w2 : World E),
            find this (VStr (di_id input)) None w = (Return (Some obj), w1) ->
            resolveUserForContext this w1 = (Return user, w2) ->
            fst (destroy camunda this input w) = accessDenied)
      /\ (forall input (w w1 w2 : World E) data,
            truthy_str (ct_id input) = true ->
            truthy_str (ct_taskId input) = true ->
            find this (VStr (ct_id input)) None w = (Return (Some obj), w1) ->
            resolveUserForContext this w1 = (Return user, w2) ->
            taskService_list camunda (ct_id input) (engine w2) = Return data ->
            List.filter (fun t => String.eqb (task_id t) (ct_taskId input))
              (default [] (embeddedTasks data)) <> [] ->
            fst (completeTask camunda this input w) = accessDenied)).
Proof.
  intros Hacl Hrs Hne isOwner. unfold accessDenied.
  pose proof (_restrictionsApplyToUser_nonempty rs isOwner Hne) as Hrule.
  assert (Hgate : ~ restrictionSatisfied rs isOwner ->
    forall targets own,
      userToAclTargets this user (Some obj) = (targets, own) ->
      allow (applyRules a targets Access (Some obj)) = true ->
      negb (_restrictionsApplyToUser
              (allowedRestrictions (applyRules a targets Access (Some obj))) own)
      = true).
  { intros Hnot targets own Ht _. subst isOwner. rewrite Ht in *.
    cbn [fst snd] in *. rewrite Hrs.
    destruct (_restrictionsApplyToUser (Some rs) own) eqn:Hr; [|reflexivity].
    exfalso. apply Hnot, Hrule. reflexivity. }
  split; [exact Hrule|]. split.
  - intros id info w w1 w2 Hfind Huser.
    assert (Hget : ~ restrictionSatisfied rs isOwner ->
                   fst (get this id info w) = accessDenied).
    { intros Hnot. unfold get. munfold. rewrite Hfind, Huser.
      destruct (addInstancesToContext_total this [obj] w2) as (w3 & -> & _).
      destruct (userToAclTargets this user (Some obj)) as [targets own] eqn:Ht.
      rewrite Hacl.
      destruct (allow (applyRules a targets Access (Some obj))) eqn:Hal;
        cbn [negb]; [|reflexivity].
      by rewrite (Hgate Hnot targets own eq_refl Hal). }
    split; [exact Hget|].
    intros r Hr.
    destruct (decide ("all" ∈ rs)) as [?|Hall]; [left; assumption|].
    destruct (decide ("owner" ∈ rs)) as [Hown|Hown].
    + destruct isOwner eqn:Ho; [right; split; [assumption|reflexivity]|].
      exfalso. rewrite Hget in Hr; [discriminate|].
      unfold restrictionSatisfied. intros [?|[_ ?]]; [tauto|discriminate].
    + exfalso. rewrite Hget in Hr; [discriminate|].
      unfold restrictionSatisfied. tauto.
  - intros Hnot. split; [|split].
    + intros input info w w1 w2 Hin Hfind Huser.
      unfold update. rewrite Hin. cbn [negb]. munfold. rewrite Hfind, Huser, Hacl.
      destruct (userToAclTargets this user (Some obj)) as [targets own] eqn:Ht.
      destruct (allow (applyRules a targets Access (Some obj))) eqn:Hal;
        cbn [negb]; [|reflexivity].
      by rewrite (Hgate Hnot targets own eq_refl Hal).
    + intros input w w1 w2 Hfind Huser.
      unfold destroy, destroyPrepare. munfold. rewrite Hfind, Huser, Hacl.
      destruct (userToAclTargets this user (Some obj)) as [targets own] eqn:Ht.
      destruct (allow (applyRules a targets Access (Some obj))) eqn:Hal;
        cbn [negb]; [|reflexivity].
      by rewrite (Hgate Hnot targets own eq_refl Hal).
    + intros input w w1 w2 data Hid Htask Hfind Huser Hlist Htasks.
      unfold completeTask. munfold. rewrite Hid, Htask. cbn [negb orb].
      rewrite Hfind, Huser, Hlist.
      apply nonEmpty_true in Htasks. rewrite Htasks. cbn [negb].
      rewrite Hacl.
      destruct (userToAclTargets this user (Some obj)) as [targets own] eqn:Ht.
      destruct (allow (applyRules a targets Access (Some obj))) eqn:Hal;
        cbn [negb]; [|reflexivity].
      by rewrite (Hgate Hnot targets own eq_refl Hal).
Qed.

(** A non-owner is refused by an [owner]-only access match that allows. *)
Lemma restriction_rule_witness :
  let this := Sample.resolver
                (Some (Sample.rules (fun _ => Sample.allowAll (Some ["owner"])))) in
  fst (get this "i1" ["title"] (Sample.world (Some "u2")))
  = Throw (AuthorizationError "You do not have access to this object.")
  /\ fst (destroy Sample.engineOf this {| di_id := "i1"; di_state := None |}
            (Sample.world (Some "u2")))
     = Throw (AuthorizationError "You do not have access to this object.").
Proof.
  intros this.
  assert (Hne : ["owner"] <> ([] : list string)) by discriminate.
  destruct (restriction_rule Sample.engineOf this Sample.row1 (Some Sample.bob)
              (Sample.rules (fun _ => Sample.allowAll (Some ["owner"]))) ["owner"]
              eq_refl eq_refl Hne)
    as (_ & Hget & Hothers).
  assert (Hnot : ~ restrictionSatisfied ["owner"]
                     (snd (userToAclTargets this (Some Sample.bob)
                             (Some Sample.row1)))).
  { vm_compute. intros [H|[_ H]]; [|discriminate].
    apply list_elem_of_In in H. cbn in H.
    destruct H as [H|[]]. discriminate. }
  split.
  - exact (proj1 (Hget "i1" ["title"] (Sample.world (Some "u2")) _ _
                    eq_refl eq_refl) Hnot).
  - destruct (Hothers Hnot) as (_ & Hdestroy & _).
    exact (Hdestroy {| di_id := "i1"; di_state := None |}
             (Sample.world (Some "u2")) _ _ eq_refl eq_refl).
Defined.

(** The claim as stated fails for the matches of the other actions: under
    rules whose read, write and destroy matches allow with the restriction
    [owner] only, a caller who does not own the instance reads it, updates
    it and destroys it. *)
Lemma restriction_rule_counterexample :
  let this := Sample.resolver (Some RuleSample.ownerActions) in
  let targets := fst (userToAclTargets this (Some Sample.bob) (Some Sample.row1)) in
  let decision action :=
    applyRules RuleSample.ownerActions targets action (Some Sample.row1) in
  snd (userToAclTargets this (Some Sample.bob) (Some Sample.row1)) = false
  /\ ~ restrictionSatisfied ["owner"] false
  /\ (forall action, action = Read \/ action = Write \/ action = Destroy ->
        allow (decision action) = true
        /\ allowedRestrictions (decision action) = Some ["owner"])
  /\ fst (get this "i1" ["title"] (Sample.world (Some "u2")))
     = Return (GotObject (<["id" := VStr "i1"]> {["title" := VStr "x"]}))
  /\ fst (update this RuleSample.retitle [] (Sample.world (Some "u2")))
     = Return true
  /\ fst (destroy MoreSample.engineOf this {| di_id := "i1"; di_state := None |}
            (MoreSample.world (Some "u2") [MoreSample.running]))
     = Return true.
Proof.
  cbv zeta. split_and!.
  - reflexivity.
  - intros [H|[_ H]]; [|discriminate].
    apply list_elem_of_In in H. cbn in H. destruct H as [H|[]]. discriminate.
  - intros action [-> | [-> | ->]]; split; reflexivity.
  - vm_compute. reflexivity.
  - vm_compute. reflexivity.
  - vm_compute. reflexivity.
Qed.

(** ** C4: the policy target set *)

Lemma isOwner_fold (u o : gmap string value)
  (fields : list Element) (acc : bool) :
  fold_left
    (fun isOwner f =>
       if strict_eq (prop o (keyOf (joinField f))) (prop u "id")
       then true else isOwner)
    fields acc = true
  <-> acc = true
      \/ exists f, f ∈ fields
                   /\ strict_eq (prop o (keyOf (joinField f))) (prop u "id") = true.
Proof.
  revert acc. induction fields as [|f fields IH]; intros acc; cbn [fold_left].
  - split; [auto|]. intros [H|(f & Hf & _)]; [exact H|]. inversion Hf.
  - rewrite IH. split.
    + intros [H|(g & Hg & Heq)].
      * destruct (strict_eq _ _) eqn:Hf; [|auto].
        right. exists f. split; [constructor|exact Hf].
      * right. exists g. split; [by constructor|exact Heq].
    + intros [H|(g & Hg & Heq)].
      * left. rewrite H. by destruct (strict_eq _ _).
      * apply elem_of_cons in Hg as [->|Hg].
        -- left. by rewrite Heq.
        -- right. eauto.
Qed.

Lemma authenticated_Some (u : gmap string value) :
  authenticated (Some u) <-> truthy (prop u "id") = true.
Proof.
  unfold authenticated. split.
  - intros (u0 & [= <-] & H). exact H.
  - intros H. eauto.
Qed.

Lemma authenticated_None : ~ authenticated None.
Proof. intros (u & ? & _). discriminate. Qed.

(** Membership in a literal array, decided by evaluation. *)
Ltac eval_includes :=
  rewrite <- ?includes_true;
  repeat match goal with
         | |- context [includes ?x ?l] =>
             let b := eval vm_compute in (includes x l) in
             change (includes x l) with b
         end.

(** The claim as stated fails for a null instance: an authenticated caller
    then gets no [user] target. *)
Lemma acl_targets_user_counterexample :
  truthy (prop Sample.alice "id") = true
  /\ userToAclTargets (Sample.resolver None) (Some Sample.alice) None
     = (["anonymous"; "administrator"], false)
  /\ "user" ∉ fst (userToAclTargets (Sample.resolver None) (Some Sample.alice) None).
Proof.
  split; [reflexivity|]. split; [reflexivity|].
  cbn. intros H. apply list_elem_of_In in H. cbn in H.
  destruct H as [H|[H|[]]]; discriminate.
Qed.

(** C4 (amended).  The target set always contains [anonymous]; it contains
    [administrator] exactly when an authenticated identity is present; it
    contains [user] exactly when the caller is authenticated and an
    instance is given; it contains [owner] exactly when, in addition, the
    identity's id strictly equals the value of the join field of some
    owner field on the instance; the returned flag says the same. *)
Theorem acl_targets (this : InstanceResolver)
  (user object : option (gmap string value)) :
  let targets := fst (userToAclTargets this user object) in
  let isOwner := snd (userToAclTargets this user object) in
  "anonymous" ∈ targets
  /\ ("administrator" ∈ targets <-> authenticated user)
  /\ ("user" ∈ targets <-> authenticated user /\ is_Some object)
  /\ ("owner" ∈ targets
      <-> exists u o, user = Some u /\ object = Some o
                      /\ truthy (prop u "id") = true /\ ownsInstance this u o)
  /\ (isOwner = true <-> "owner" ∈ targets).
Proof.
  cbv zeta. unfold userToAclTargets, push.
  destruct user as [u|].
  2:{ cbn [app fst snd]. eval_includes. pose proof authenticated_None as Hn.
      split_and!; [done|..]; (split; [discriminate|]).
      - intros H. contradiction.
      - intros [H _]. contradiction.
      - intros (u & o & H & _). discriminate.
      - done. }
  rewrite authenticated_Some.
  destruct (truthy (prop u "id")) eqn:Hid.
  2:{ destruct object; cbn [app fst snd]; eval_includes;
        (split_and!; [done|..]; (split; [discriminate|])); try done.
      all: try (intros [H _]; discriminate).
      all: intros (u0 & o0 & [= <-] & _ & ? & _); congruence. }
  destruct object as [o|].
  2:{ cbn [app fst snd]. eval_includes.
      split_and!; [done|..]; split; try done.
      - intros [_ [? ?]]. discriminate.
      - intros (u0 & o0 & _ & ? & _). discriminate. }
  cbn [app fst snd].
  destruct (fold_left _ (ownerFields this) false) eqn:Hfold; cbn [fst snd];
    eval_includes.
  - apply isOwner_fold in Hfold. destruct Hfold as [?|Hex]; [discriminate|].
    split_and!; [done|..]; split; try done.
    intros _. by exists u, o.
  - assert (Hnone : ~ ownsInstance this u o).
    { intros Hex. assert (Ht : false = true); [|discriminate].
      rewrite <- Hfold. apply isOwner_fold. by right. }
    split_and!; [done|..]; split; try done.
    intros (u0 & o0 & [= <-] & [= <-] & _ & Hex). contradiction.
Qed.

(** ** The field ceilings *)

Lemma readFieldKeys_fold (es : list Element) (acc : gmap string Element)
  (k : string) :
  is_Some (fold_left
             (fun allowedFields e =>
                match field e with
                | Some f => if truthy_str f then <[f := e]> allowedFields
                            else allowedFields
                | None => allowedFields
                end) es acc !! k)
  <-> is_Some (acc !! k)
      \/ exists e, e ∈ es /\ field e = Some k /\ k <> "".
Proof.
  revert acc. induction es as [|e es IH]; intros acc; cbn [fold_left].
  - split; [auto|]. intros [H|(e & He & _)]; [exact H|inversion He].
  - rewrite IH. clear IH. split.
    + intros [H|(g & Hg & Hf)].
      * destruct (field e) as [f|] eqn:Hfe; [|auto].
        unfold truthy_str in H.
        destruct (String.eqb_spec f ""); cbn [negb] in H; [auto|].
        destruct (decide (f = k)) as [->|Hne].
        -- right. exists e. split; [constructor|done].
        -- rewrite lookup_insert_ne in H by done. auto.
      * right. exists g. split; [by constructor|done].
    + intros [H|(g & Hg & Hf & Hk)].
      * left. destruct (field e) as [f|]; [|done].
        destruct (truthy_str f); [|done].
        destruct (decide (f = k)) as [->|Hne].
        -- rewrite lookup_insert_eq. eauto.
        -- by rewrite lookup_insert_ne.
      * apply elem_of_cons in Hg as [->|Hg]; [|right; eauto].
        left. rewrite Hf. unfold truthy_str.
        destruct (String.eqb_spec k ""); [done|]. cbn [negb].
        rewrite lookup_insert_eq. eauto.
Qed.

Lemma _allowedReadFieldKeysForInstance_spec (md : ModelDefinition) (k : string) :
  is_Some (_allowedReadFieldKeysForInstance md !! k) <-> readCeiling md k.
Proof.
  unfold _allowedReadFieldKeysForInstance, readCeiling.
  rewrite readFieldKeys_fold, lookup_empty.
  split; [intros [[? ?]|?]; [discriminate|done]|auto].
Qed.

Lemma inputKeys_fold (es : list Element) (acc : gmap string Element)
  (k : string) :
  is_Some (fold_left
             (fun allowedInputFields e =>
                match field e, input e with
                | Some f, Some false => allowedInputFields
                | Some f, _ => if truthy_str f then <[f := e]> allowedInputFields
                               else allowedInputFields
                | None, _ => allowedInputFields
                end) es acc !! k)
  <-> is_Some (acc !! k)
      \/ exists e, e ∈ es /\ field e = Some k /\ k <> ""
                   /\ input e <> Some false.
Proof.
  revert acc. induction es as [|e es IH]; intros acc; cbn [fold_left].
  - split; [auto|]. intros [H|(e & He & _)]; [exact H|inversion He].
  - rewrite IH. clear IH. split.
    + intros [H|(g & Hg & Hf)].
      * destruct (field e) as [f|] eqn:Hfe; [|auto].
        assert (Hcase :
          input e = Some false \/
          (input e <> Some false /\
           is_Some ((if truthy_str f then <[f := e]> acc else acc) !! k))).
        { destruct (input e) as [[|]|]; [right|left|right];
            try done; (split; [congruence|exact H]). }
        destruct Hcase as [Hi|[Hi H']].
        { rewrite Hi in H. auto. }
        unfold truthy_str in H'.
        destruct (String.eqb_spec f ""); cbn [negb] in H'; [auto|].
        destruct (decide (f = k)) as [->|Hne].
        -- right. exists e. split; [constructor|done].
        -- rewrite lookup_insert_ne in H' by done. auto.
      * right. exists g. split; [by constructor|done].
    + intros [H|(g & Hg & Hf & Hk & Hi)].
      * left. destruct (field e) as [f|]; [|done].
        assert (Hgoal :
          is_Some ((if truthy_str f then <[f := e]> acc else acc) !! k)).
        { destruct (truthy_str f); [|done].
          destruct (decide (f = k)) as [->|Hne].
          -- rewrite lookup_insert_eq. eauto.
          -- by rewrite lookup_insert_ne. }
        by destruct (input e) as [[|]|].
      * apply elem_of_cons in Hg as [->|Hg]; [|right; eauto 10].
        left. rewrite Hf.
        assert (Hgoal :
          is_Some ((if truthy_str k then <[k := e]> acc else acc) !! k)).
        { unfold truthy_str. destruct (String.eqb_spec k ""); [done|].
          cbn [negb]. rewrite lookup_insert_eq. eauto. }
        by destruct (input e) as [[|]|].
Qed.

Lemma _allowedInputKeysForInstanceInput_spec (md : ModelDefinition) (k : string) :
  is_Some (_allowedInputKeysForInstanceInput md !! k) <-> inputCeiling md k.
Proof.
  unfold _allowedInputKeysForInstanceInput, inputCeiling.
  rewrite inputKeys_fold, lookup_empty.
  split; [intros [[? ?]|?]; [discriminate|done]|auto].
Qed.

Lemma pickOwn_is_Some {A : Type} (m : gmap string A) (keys : list string)
  (k : string) :
  is_Some (pickOwn m keys !! k) <-> is_Some (m !! k) /\ k ∈ keys.
Proof.
  unfold pickOwn. split.
  - intros [x Hx]. apply map_lookup_filter_Some in Hx as [Hx Hk]. eauto.
  - intros [[x Hx] Hk]. exists x. by apply map_lookup_filter_Some.
Qed.

(** ** Reading an instance *)

Lemma get_granted `{rt : JsRuntime} {E} (this : InstanceResolver) (id : string)
  (info : list string) (w w1 w2 : World E) (obj : gmap string value)
  (user : option (gmap string value)) :
  find this (VStr id) (eagerResolvesFor this info) w = (Return (Some obj), w1) ->
  resolveUserForContext this w1 = (Return user, w2) ->
  accessGranted this user obj ->
  fst (get this id info w)
  = Return (GotObject
              (_getInstance this obj
                 (fst (userToAclTargets this user (Some obj))) info)).
Proof.
  intros Hfind Huser Hgate. unfold get. munfold. rewrite Hfind, Huser.
  destruct (addInstancesToContext_total this [obj] w2) as (w3 & -> & _).
  unfold accessGranted in Hgate.
  destruct (userToAclTargets this user (Some obj)) as [targets own].
  cbn [fst snd] in *.
  destruct (acl this) as [a|]; [|reflexivity].
  destruct Hgate as [-> ->]. reflexivity.
Qed.

Lemma elem_of_filter_bool {A : Type} (P : A -> bool) (l : list A) (x : A) :
  x ∈ List.filter P l <-> x ∈ l /\ P x = true.
Proof.
  rewrite !list_elem_of_In. apply filter_In.
Qed.

Lemma String_eqb_false_iff (a b : string) : negb (String.eqb a b) = true <-> a <> b.
Proof. destruct (String.eqb_spec a b); cbn; split; congruence. Qed.

(** C10.  When the access gate of a [get] passes but the read action is
    denied, the call does not fail: it returns the object made of the
    instance id and a [restrictedFields] list that names exactly the
    requested top-level fields other than [id]. *)
Theorem get_read_denied `{rt : JsRuntime} {E} (this : InstanceResolver) (id : string)
  (info : list string) (w w1 w2 : World E) (obj : gmap string value)
  (user : option (gmap string value)) (m : AclMatch) :
  find this (VStr id) (eagerResolvesFor this info) w = (Return (Some obj), w1) ->
  resolveUserForContext this w1 = (Return user, w2) ->
  accessGranted this user obj ->
  readMatch this user obj = Some m ->
  allow m = false ->
  exists restricted,
    fst (get this id info w)
    = Return (GotObject
                (<["restrictedFields" := VArr (map VStr restricted)]>
                   {["id" := prop obj "id"]}))
    /\ forall f, f ∈ restricted <-> f ∈ info /\ f <> "id".
Proof.
  intros Hfind Huser Hgate Hread Hdeny.
  exists (List.filter (fun f => negb (String.eqb f "id")) info). split.
  - rewrite (get_granted this id info w w1 w2 obj user Hfind Huser Hgate).
    unfold _getInstance. unfold readMatch in Hread.
    destruct (acl this) as [a|]; [|discriminate].
    injection Hread as Hread. rewrite Hread, Hdeny. reflexivity.
  - intros f. rewrite elem_of_filter_bool, String_eqb_false_iff. tauto.
Qed.

(** A caller whose read action is denied still gets the id, and sees the
    always-allowed field [created] reported as restricted. *)
Lemma get_read_denied_witness :
  let this :=
    Sample.resolver
      (Some (Sample.rules (fun action => match action with
                                         | Read => Sample.denyAll
                                         | _ => Sample.allowAll (Some ["all"])
                                         end))) in
  exists restricted,
    fst (get this "i1" ["id"; "created"; "title"] (Sample.world (Some "u1")))
    = Return (GotObject
                (<["restrictedFields" := VArr (map VStr restricted)]>
                   {["id" := VStr "i1"]}))
    /\ forall f, f ∈ restricted <-> f ∈ ["id"; "created"; "title"] /\ f <> "id".
Proof.
  intros this.
  exact (get_read_denied this "i1" ["id"; "created"; "title"]
           (Sample.world (Some "u1")) _ _ Sample.row1 (Some Sample.alice)
           Sample.denyAll eq_refl eq_refl (conj eq_refl eq_refl) eq_refl eq_refl).
Defined.

Lemma getAllowedReadFields_spec `{rt : JsRuntime} (this : InstanceResolver)
  (m : option AclMatch) (k : string) :
  allowedReadFields this = _allowedReadFieldKeysForInstance (modelDef this) ->
  plainPolicy m ->
  k ∈ getAllowedReadFields this m true <-> readAllowed (modelDef this) m k.
Proof.
  intros Hc Hplain. unfold getAllowedReadFields, readAllowed, policyAdmits.
  unfold plainPolicy in Hplain.
  rewrite Hc. rewrite elem_of_union, elem_of_list_to_set.
  destruct (m ≫= allowedFields) as [fs|].
  - rewrite (pick_plain _ _ Hplain).
    rewrite elem_of_dom, pickOwn_is_Some, _allowedReadFieldKeysForInstance_spec.
    tauto.
  - rewrite elem_of_dom, _allowedReadFieldKeysForInstance_spec. tauto.
Qed.

Lemma prop_defined (o : gmap string value) (k : string) :
  strict_eq (prop o k) VUndefined = false -> o !! k = Some (prop o k).
Proof.
  unfold prop. destruct (o !! k) as [v|]; cbn; [done|discriminate].
Qed.

Lemma copy_fold_lookup (obj : gmap string value) (fields : list string)
  (r0 : gmap string value) (k : string) (v : value) :
  fold_left
    (fun r f => if negb (strict_eq (prop obj f) VUndefined)
                then <[f := prop obj f]> r else r)
    fields r0 !! k = Some v ->
  r0 !! k = Some v \/ (k ∈ fields /\ obj !! k = Some v).
Proof.
  revert r0. induction fields as [|f fields IH]; intros r0; cbn [fold_left].
  - auto.
  - intros H. apply IH in H as [H|[Hin Hv]].
    + destruct (strict_eq (prop obj f) VUndefined) eqn:Hd; cbn [negb] in H;
        [auto|].
      destruct (decide (f = k)) as [->|Hne].
      * rewrite lookup_insert_eq in H. injection H as <-.
        right. split; [constructor|by apply prop_defined].
      * rewrite lookup_insert_ne in H by done. auto.
    + right. split; [by constructor|done].
Qed.

Lemma copy_fold_id (obj : gmap string value) (fields : list string)
  (r0 : gmap string value) :
  r0 !! "id" = Some (prop obj "id") ->
  fold_left
    (fun r f => if negb (strict_eq (prop obj f) VUndefined)
                then <[f := prop obj f]> r else r)
    fields r0 !! "id" = Some (prop obj "id").
Proof.
  revert r0. induction fields as [|f fields IH]; intros r0 H; cbn [fold_left].
  - done.
  - apply IH. destruct (negb _); [|done].
    destruct (decide (f = "id")) as [->|Hne].
    + by rewrite lookup_insert_eq.
    + by rewrite lookup_insert_ne.
Qed.

(** The claim as stated fails in two ways: when the read action is denied
    the [restrictedFields] list is returned even when it is empty, and the
    id is part of every returned object, requested or not. *)
Lemma get_redaction_counterexample :
  let denied :=
    Sample.resolver
      (Some (Sample.rules (fun action => match action with
                                         | Read => Sample.denyAll
                                         | _ => Sample.allowAll (Some ["all"])
                                         end))) in
  let open := Sample.resolver None in
  fst (get denied "i1" ["id"] (Sample.world (Some "u1")))
  = Return (GotObject (<["restrictedFields" := VArr []]> {["id" := VStr "i1"]}))
  /\ fst (get open "i1" ["title"] (Sample.world (Some "u1")))
     = Return (GotObject (<["id" := VStr "i1"]> {["title" := VStr "x"]}))
  /\ "id" ∉ ["title"].
Proof.
  cbv zeta. split; [|split].
  - vm_compute. reflexivity.
  - vm_compute. reflexivity.
  - intros H. apply list_elem_of_In in H. cbn in H.
    destruct H as [H|[]]. discriminate.
Qed.

(** C7 (amended).  For every [get] that passes the access gate and whose
    read action is allowed (or that has no rule table), the returned
    object always carries the instance id; every other value it carries
    belongs to a requested field of the read-allowed set and is the
    instance's value; its [restrictedFields] list names exactly the
    requested fields outside that set and is absent when there are none;
    a field outside the set is never a key of the result.  The
    read-allowed set is the set of own keys of what [getAllowedReadFields]
    builds: it always has [id], [created], [updated], [tasks] and
    [restrictedFields], and when the policy names no fields, or names
    plain field names only, it is otherwise the schema's read ceiling
    narrowed by the policy's [allowedFields]. *)
Theorem get_redaction `{rt : JsRuntime} {E} (utils : Utils) (uid : nat) (mc : ModelClass)
  (td : TaskDefinition) (enums : Enums) (id : string) (info : list string)
  (w w1 w2 : World E) (obj : gmap string value)
  (user : option (gmap string value)) :
  let this := newInstanceResolver utils uid mc td enums in
  let allowedField k :=
    k ∈ getAllowedReadFields this (readMatch this user obj) true in
  find this (VStr id) (eagerResolvesFor this info) w = (Return (Some obj), w1) ->
  resolveUserForContext this w1 = (Return user, w2) ->
  accessGranted this user obj ->
  (forall m, readMatch this user obj = Some m -> allow m = true) ->
  (forall k, k ∈ AdditionalAllowedGetFields -> allowedField k)
  /\ (plainPolicy (readMatch this user obj) ->
      forall k, allowedField k
                <-> readAllowed (model td) (readMatch this user obj) k)
  /\ exists r restricted,
       fst (get this id info w) = Return (GotObject r)
       /\ r !! "id" = Some (prop obj "id")
       /\ (forall k v, r !! k = Some v ->
             k = "id" \/ k = "restrictedFields"
             \/ (k ∈ info /\ allowedField k /\ obj !! k = Some v))
       /\ (forall f, f ∈ restricted <-> f ∈ info /\ ~ allowedField f)
       /\ r !! "restrictedFields"
          = match restricted with
            | [] => None
            | _ => Some (VArr (map VStr restricted))
            end
       /\ (forall k, ~ allowedField k -> r !! k = None).
Proof.
  intros this allowedField Hfind Huser Hgate Hread.
  set (readAcl := readMatch this user obj) in *.
  set (allowedFields := getAllowedReadFields this readAcl true).
  assert (Hspec : forall k, k ∈ allowedFields <-> allowedField k) by done.
  assert (Hfixed : forall k, k ∈ AdditionalAllowedGetFields -> allowedField k).
  { intros k Hk. subst allowedField. cbv beta. unfold getAllowedReadFields.
    apply elem_of_union. right. by apply elem_of_list_to_set. }
  split; [exact Hfixed|]. split.
  { intros Hplain k.
    by apply (getAllowedReadFields_spec this readAcl k). }
  set (restricted :=
         List.filter (fun f => negb (bool_decide (f ∈ allowedFields))) info).
  set (copied :=
         fold_left
           (fun r f => if negb (strict_eq (prop obj f) VUndefined)
                       then <[f := prop obj f]> r else r)
           (List.filter (fun f => bool_decide (f ∈ allowedFields)) info)
           ({["id" := prop obj "id"]} : gmap string value)).
  set (r := if (length restricted =? 0)%nat
            then delete "restrictedFields"
                   (<["restrictedFields" := VArr (map VStr restricted)]> copied)
            else <["restrictedFields" := VArr (map VStr restricted)]> copied).
  assert (Hr : _getInstance this obj
                 (fst (userToAclTargets this user (Some obj))) info = r).
  { unfold _getInstance.
    change (match acl this with
            | Some a =>
                Some (applyRules a (fst (userToAclTargets this user (Some obj)))
                        Read (Some obj))
            | None => None
            end) with readAcl.
    destruct readAcl as [m|] eqn:Hm; [|reflexivity].
    rewrite (Hread m eq_refl). reflexivity. }
  assert (Hid : r !! "id" = Some (prop obj "id")).
  { assert (Hc : copied !! "id" = Some (prop obj "id")).
    { apply copy_fold_id. apply lookup_singleton_eq. }
    subst r. destruct (length restricted =? 0)%nat.
    - rewrite lookup_delete_ne by done. by rewrite lookup_insert_ne.
    - by rewrite lookup_insert_ne. }
  assert (Hkeys : forall k v, r !! k = Some v ->
            k = "id" \/ k = "restrictedFields"
            \/ (k ∈ info /\ allowedField k /\ obj !! k = Some v)).
  { intros k v Hk.
    destruct (decide (k = "restrictedFields")) as [->|Hne]; [auto|].
    assert (Hc : copied !! k = Some v).
    { subst r. destruct (length restricted =? 0)%nat.
      - rewrite lookup_delete_ne, lookup_insert_ne in Hk by done. done.
      - rewrite lookup_insert_ne in Hk by done. done. }
    apply copy_fold_lookup in Hc as [Hc|[Hin Hv]].
    - left. apply lookup_singleton_Some in Hc as [<- _]. done.
    - right. right. apply elem_of_filter_bool in Hin as [Hin Ha].
      apply bool_decide_eq_true in Ha. split; [done|]. split; [|done].
      by apply Hspec. }
  exists r, restricted. split_and!.
  - rewrite (get_granted this id info w w1 w2 obj user Hfind Huser Hgate).
    by rewrite Hr.
  - exact Hid.
  - exact Hkeys.
  - intros f. subst restricted. rewrite elem_of_filter_bool.
    rewrite negb_true_iff, bool_decide_eq_false, Hspec. tauto.
  - subst r. destruct restricted as [|f fs] eqn:Hres; cbn [length Nat.eqb].
    + apply lookup_delete_eq.
    + apply lookup_insert_eq.
  - intros k Hk. destruct (r !! k) as [v|] eqn:Hv; [|done].
    exfalso. apply Hk.
    destruct (Hkeys k v Hv) as [->|[->|(_ & Ha & _)]]; [| |done].
    + apply Hfixed. apply list_elem_of_In. cbn. tauto.
    + apply Hfixed. apply list_elem_of_In. cbn. tauto.
Qed.

(** A caller whose read match admits only [title] asks for [title] and
    [secret]: the secret is withheld and reported. *)
Lemma get_redaction_witness :
  let this :=
    newInstanceResolver Sample.utils 1
      (Sample.class
         (Some (Sample.rules
                  (fun action =>
                     match action with
                     | Read => {| allow := true; allowedFields := Some ["title"];
                                  allowedRestrictions := None;
                                  allowedTasks := None |}
                     | _ => Sample.allowAll (Some ["all"])
                     end))))
      (Sample.definition Sample.elems) ∅ in
  exists r restricted,
    fst (get this "i1" ["title"; "secret"] (Sample.world (Some "u1")))
    = Return (GotObject r)
    /\ r !! "secret" = None
    /\ "secret" ∈ restricted
    /\ r !! "restrictedFields"
       = match restricted with
         | [] => None
         | _ => Some (VArr (map VStr restricted))
         end.
Proof.
  intros this.
  assert (Hgate : accessGranted this (Some Sample.alice) Sample.row1)
    by (split; reflexivity).
  assert (Hread : forall m, readMatch this (Some Sample.alice) Sample.row1 = Some m ->
                            allow m = true)
    by (intros m [= <-]; reflexivity).
  destruct (get_redaction Sample.utils 1 _ (Sample.definition Sample.elems) ∅
              "i1" ["title"; "secret"] (Sample.world (Some "u1")) _ _
              Sample.row1 (Some Sample.alice) eq_refl eq_refl Hgate Hread)
    as (_ & Hplain & r & restricted & Hget & _ & _ & Hres & Hlist & Hnone).
  assert (Hsecret :
    ~ readAllowed (model (Sample.definition Sample.elems))
        (readMatch this (Some Sample.alice) Sample.row1) "secret").
  { unfold readAllowed, policyAdmits. cbn.
    intros [H|[_ H]]; apply list_elem_of_In in H; cbn in H;
      repeat (destruct H as [H|H]; [discriminate|]); exact H. }
  assert (Hwithheld :
    "secret" ∉ getAllowedReadFields this
                 (readMatch this (Some Sample.alice) Sample.row1) true).
  { intros H. apply Hsecret. by apply (Hplain eq_refl). }
  exists r, restricted. split; [exact Hget|]. split; [by apply Hnone|].
  split; [|exact Hlist].
  apply Hres. split; [|exact Hwithheld].
  apply list_elem_of_In. right. left. reflexivity.
Defined.

(** ** Updating an instance *)

Lemma resolveUserForContext_world {E} (this : InstanceResolver)
  (w w' : World E) r :
  resolveUserForContext this w = (r, w') ->
  db w' = db w /\ engine w' = engine w /\ trace w' = trace w
  /\ identities w' = identities w.
Proof.
  intros H. destruct (resolveUserForContext_total this w) as (u & w0 & Hu & Hw).
  rewrite Hu in H. injection H as _ <-. exact Hw.
Qed.

Lemma applyInput_Return (allowedFields : gmap string Element) (input : jsobj)
  (keys : list string) (object object' : option (gmap string value))
  (rs rs' : list string) :
  applyInput allowedFields input keys object rs = Return (object', rs') ->
  rs' = (rs ++ List.filter (disallowedKey allowedFields) keys)%list
  /\ (is_Some object -> is_Some object').
Proof.
  revert object rs. induction keys as [|k keys IH]; intros object rs;
    cbn [applyInput List.filter].
  - intros [= <- <-]. by rewrite app_nil_r.
  - unfold disallowedKey at 1.
    destruct (bool_decide (is_Some (allowedFields !! k))); cbn [negb].
    + destruct object as [o|]; [|discriminate].
      intros H. apply IH in H as [-> H]. split; [done|]. intros _. by apply H.
    + intros H. apply IH in H as [-> H]. unfold push.
      by rewrite <- app_assoc.
Qed.

Lemma applyInput_Some (allowedFields : gmap string Element) (input : jsobj)
  (keys : list string) (o : gmap string value) (rs : list string) :
  exists o',
    applyInput allowedFields input keys (Some o) rs
    = Return (Some o', (rs ++ List.filter (disallowedKey allowedFields) keys)%list).
Proof.
  revert o rs. induction keys as [|k keys IH]; intros o rs;
    cbn [applyInput List.filter].
  - exists o. by rewrite app_nil_r.
  - unfold disallowedKey at 1.
    destruct (bool_decide (is_Some (allowedFields !! k))); cbn [negb].
    + apply IH.
    + destruct (IH o (push rs k)) as [o' ->]. exists o'. unfold push.
      by rewrite <- app_assoc.
Qed.

Lemma writeAllowed_spec `{rt : JsRuntime} (this : InstanceResolver) (m : option AclMatch)
  (k : string) :
  allowedInputFields this = _allowedInputKeysForInstanceInput (modelDef this) ->
  plainPolicy m ->
  is_Some (match m ≫= allowedFields with
           | Some fs => pick (allowedInputFields this) fs
           | None => allowedInputFields this
           end !! k)
  <-> writeAllowed (modelDef this) m k.
Proof.
  intros Hc Hplain. unfold writeAllowed, policyAdmits. rewrite Hc.
  unfold plainPolicy in Hplain.
  destruct (m ≫= allowedFields) as [fs|].
  - rewrite (pick_plain _ _ Hplain).
    by rewrite pickOwn_is_Some, _allowedInputKeysForInstanceInput_spec.
  - rewrite _allowedInputKeysForInstanceInput_spec. tauto.
Qed.

(** The claim as stated fails for a write match that names a path: with
    [allowedFields = ["title.field"]] the field [title] is outside the
    ceiling narrowed by the policy, yet lodash picks the key [title] and
    the update of the title is saved. *)
Lemma update_all_or_nothing_counterexample :
  let this := Sample.resolver (Some RuleSample.paths) in
  let w := Sample.world (Some "u1") in
  writeMatch this (Some Sample.alice) (Some Sample.row1) ≫= allowedFields
  = Some ["title.field"]
  /\ "title" ∈ okeys (odelete RuleSample.retitle "id")
  /\ ~ writeAllowed (model (Sample.definition Sample.elems))
        (writeMatch this (Some Sample.alice) (Some Sample.row1)) "title"
  /\ fst (update this RuleSample.retitle [] w) = Return true
  /\ trace (snd (update this RuleSample.retitle [] w))
     = [ESave (<["title" := VStr "z"]> Sample.row1)]
  /\ db (snd (update this RuleSample.retitle [] w)) !! "i1"
     = Some (<["title" := VStr "z"]> Sample.row1).
Proof.
  cbv zeta. split_and!.
  - reflexivity.
  - apply list_elem_of_In. cbn. tauto.
  - unfold writeAllowed, policyAdmits. cbn. intros [_ H].
    apply list_elem_of_In in H. cbn in H. destruct H as [H|[]]. discriminate.
  - vm_compute. reflexivity.
  - vm_compute. reflexivity.
  - vm_compute. reflexivity.
Qed.

(** C2 (amended).  When the input of an [update] has a key (other than the
    [id] that selects the instance) outside the write-allowed set, nothing
    is persisted and no save is issued; and when the call gets as far as
    the field check (updatable model, existing instance, gates passed) it
    fails with the [AuthorizationError] that names exactly the disallowed
    keys.  The write-allowed set is the set of own keys of the field map
    the update tests its input against: the schema's input ceiling when
    the write match names no fields, and what lodash picks from the
    ceiling for the named fields otherwise, which is the ceiling narrowed
    by the policy's [allowedFields] when these are plain field names. *)
Theorem update_all_or_nothing `{rt : JsRuntime} {E} (utils : Utils) (uid : nat) (mc : ModelClass)
  (td : TaskDefinition) (enums : Enums) (input : jsobj) (info : list string)
  (w w1 w2 : World E) (object user : option (gmap string value)) :
  let this := newInstanceResolver utils uid mc td enums in
  let writable :=
    match writeMatch this user object ≫= allowedFields with
    | Some fs => pick (allowedInputFields this) fs
    | None => allowedInputFields this
    end in
  let allowedKey k := is_Some (writable !! k) in
  find this (oprop input "id") None w = (Return object, w1) ->
  resolveUserForContext this w1 = (Return user, w2) ->
  (exists k, k ∈ okeys (odelete input "id") /\ ~ allowedKey k) ->
  db (snd (update this input info w)) = db w
  /\ trace (snd (update this input info w)) = trace w
  /\ (md_input (model td) = Some true ->
      is_Some object ->
      updateGranted this user object ->
      exists disallowed,
        fst (update this input info w)
        = Throw (AuthorizationError
                   ("You do not have write access on the following fields: "
                      ++ join ", " disallowed))
        /\ forall k, k ∈ disallowed
                     <-> k ∈ okeys (odelete input "id") /\ ~ allowedKey k)
  /\ (plainPolicy (writeMatch this user object) ->
      forall k, allowedKey k
                <-> writeAllowed (model td) (writeMatch this user object) k).
Proof.
  intros this writable allowedKey Hfind Huser (k0 & Hk0 & Hbad).
  pose proof (find_world _ _ _ _ _ _ Hfind) as ->.
  destruct (resolveUserForContext_world _ _ _ _ Huser) as (Hdb & _ & Htr & _).
  set (m := writeMatch this user object) in *.
  set (allowedFields :=
         match m ≫= allowedFields with
         | Some fs => pick (allowedInputFields this) fs
         | None => allowedInputFields this
         end) in *.
  assert (Hspec : forall k, disallowedKey allowedFields k = true <-> ~ allowedKey k).
  { intros k. unfold disallowedKey.
    by rewrite negb_true_iff, bool_decide_eq_false. }
  assert (Hplain : plainPolicy m ->
            forall k, allowedKey k <-> writeAllowed (model td) m k).
  { intros Hp k. subst allowedKey writable allowedFields. cbv beta.
    by apply (writeAllowed_spec this m k). }
  set (input' := odelete input "id") in *.
  set (disallowed := List.filter (disallowedKey allowedFields) (okeys input')).
  assert (Hne : disallowed <> []).
  { intros Hnil. assert (Hin : k0 ∈ disallowed).
    { apply elem_of_filter_bool. split; [done|by apply Hspec]. }
    rewrite Hnil in Hin. inversion Hin. }
  assert (Htail : forall w0 : World E, db w0 = db w -> trace w0 = trace w ->
    let res :=
      match applyInput allowedFields input' (okeys input') object [] with
      | Throw e => throw e
      | Return (object0, restrictedFields) =>
          if nonEmpty restrictedFields
          then throw (AuthorizationError
                        ("You do not have write access on the following fields: "
                           ++ join ", " restrictedFields))
          else match object0 with
               | Some o => save this o;; mret true
               | None => throw TypeError
               end
      end w0 in
    db (snd res) = db w /\ trace (snd res) = trace w
    /\ (is_Some object ->
        fst res = Throw (AuthorizationError
                           ("You do not have write access on the following fields: "
                              ++ join ", " disallowed)))).
  { intros w0 Hd Ht.
    destruct (applyInput allowedFields input' (okeys input') object [])
      as [[object0 rs]|e] eqn:Happ; cbv zeta.
    - apply applyInput_Return in Happ as [-> _]. cbn [app].
      fold disallowed.
      apply nonEmpty_true in Hne. rewrite Hne. unfold throw. cbn [fst snd].
      done.
    - unfold throw. cbn [fst snd]. split; [done|]. split; [done|].
      intros [o ->]. destruct (applyInput_Some allowedFields input' (okeys input') o [])
        as [o' Ho']. rewrite Ho' in Happ. discriminate. }
  assert (Hfilter : forall k, k ∈ disallowed <-> k ∈ okeys input' /\ ~ allowedKey k).
  { intros k. subst disallowed. by rewrite elem_of_filter_bool, Hspec. }
  unfold update.
  change (modelDef this) with (model td).
  assert (Hmain :
    db (snd (update this input info w)) = db w
    /\ trace (snd (update this input info w)) = trace w
    /\ (md_input (model td) = Some true ->
        is_Some object ->
        updateGranted this user object ->
        exists disallowed,
          fst (update this input info w)
          = Throw (AuthorizationError
                     ("You do not have write access on the following fields: "
                        ++ join ", " disallowed))
          /\ forall k, k ∈ disallowed
                       <-> k ∈ okeys input' /\ ~ allowedKey k)).
  { unfold update.
    change (modelDef this) with (model td).
    destruct (md_input (model td)) as [[|]|] eqn:Hin; cbn [negb].
    2,3: unfold throw; cbn [fst snd]; split_and!; [done|done|discriminate].
    munfold. rewrite Hfind, Huser.
    fold input'. subst writable.
    unfold updateGranted. clear Hplain. unfold writeMatch in *.
    destruct (acl this) as [a|] eqn:Hacl.
    - destruct (userToAclTargets this user object) as [targets own].
      cbn [fst snd] in *.
      destruct (allow (applyRules a targets Access object)); cbn [negb];
        [|by (split_and!; [done|done|intros _ _ (? & _)])].
      destruct (_restrictionsApplyToUser _ own); cbn [negb];
        [|by (split_and!; [done|done|intros _ _ (_ & ? & _)])].
      destruct (allow (applyRules a targets Write object)); cbn [negb];
        [|by (split_and!; [done|done|intros _ _ (_ & _ & ?)])].
      destruct (Htail w2 Hdb Htr) as (H1 & H2 & H3).
      split; [exact H1|]. split; [exact H2|].
      intros _ Hobj _. exists disallowed. split; [by apply H3|exact Hfilter].
    - destruct (Htail w2 Hdb Htr) as (H1 & H2 & H3).
      split; [exact H1|]. split; [exact H2|].
      intros _ Hobj _. exists disallowed. split; [by apply H3|exact Hfilter]. }
  destruct Hmain as (H1 & H2 & H3). split_and!; [exact H1|exact H2|exact H3|].
  exact Hplain.
Qed.

(** An update of an allowed and a disallowed field is refused as a whole. *)
Lemma update_all_or_nothing_witness :
  let w := Sample.world (Some "u1") in
  db (snd (update UpdateSample.this UpdateSample.mixed [] w)) = db w
  /\ trace (snd (update UpdateSample.this UpdateSample.mixed [] w)) = []
  /\ exists disallowed,
       fst (update UpdateSample.this UpdateSample.mixed [] w)
       = Throw (AuthorizationError
                  ("You do not have write access on the following fields: "
                     ++ join ", " disallowed))
       /\ "secret" ∈ disallowed.
Proof.
  intros w.
  assert (Hsecret :
    ~ is_Some (match writeMatch UpdateSample.this (Some Sample.alice)
                       (Some Sample.row1) ≫= allowedFields with
               | Some fs => pick (allowedInputFields UpdateSample.this) fs
               | None => allowedInputFields UpdateSample.this
               end !! "secret")).
  { vm_compute. intros [x Hx]. discriminate. }
  assert (Hkey : "secret" ∈ okeys (odelete UpdateSample.mixed "id"))
    by (apply list_elem_of_In; cbn; tauto).
  destruct (update_all_or_nothing Sample.utils 1
              (Sample.class (Some UpdateSample.titleOnly))
              (Sample.definition Sample.elems) ∅ UpdateSample.mixed [] w _ _
              (Some Sample.row1) (Some Sample.alice) eq_refl eq_refl
              (ex_intro _ "secret" (conj Hkey Hsecret)))
    as (Hdb & Htrace & Herr & _).
  split; [exact Hdb|]. split; [exact Htrace|].
  destruct (Herr eq_refl (ex_intro _ Sample.row1 eq_refl)
              (conj eq_refl (conj eq_refl eq_refl)))
    as (disallowed & Hthrow & Hdis).
  exists disallowed. split; [exact Hthrow|]. apply Hdis. by split.
Defined.

(** ** C3: saving on update *)

Lemma applyInput_allowed (allowedFields : gmap string Element) (input : jsobj)
  (keys : list string) (o : gmap string value) (rs : list string) :
  (forall k, k ∈ keys -> disallowedKey allowedFields k = false) ->
  applyInput allowedFields input keys (Some o) rs
  = Return (Some (fold_left (fun o k => <[k := oprop input k]> o) keys o), rs).
Proof.
  revert o. induction keys as [|k keys IH]; intros o Hall; cbn [applyInput fold_left].
  - reflexivity.
  - assert (Hk : disallowedKey allowedFields k = false)
      by (apply Hall; constructor).
    unfold disallowedKey in Hk. apply negb_false_iff in Hk. rewrite Hk.
    apply IH. intros k' Hk'. apply Hall. by constructor.
Qed.

Lemma assign_same (input : jsobj) (keys : list string) (o : gmap string value) :
  (forall k, k ∈ keys -> o !! k = Some (oprop input k)) ->
  fold_left (fun o k => <[k := oprop input k]> o) keys o = o.
Proof.
  induction keys as [|k keys IH]; intros Hsame; cbn [fold_left]; [done|].
  rewrite insert_id by (apply Hsame; constructor).
  apply IH. intros k' Hk'. apply Hsame. by constructor.
Qed.

Lemma save_trace {E} (this : InstanceResolver) (o : gmap string value)
  (w : World E) :
  trace (snd (save this o w)) = push (trace w) (ESave o)
  /\ (fst (save this o w) = Return () \/ fst (save this o w) = Throw StorageError).
Proof.
  unfold save. munfold. cbn.
  destruct (prop o "id"); cbn; auto.
  destruct (accepts (modelClass this) o); cbn; auto.
Qed.

(** C3.  What the code does instead of skipping the save: an [update]
    that passes its gates and whose input keys are all write-allowed
    always issues a save of the loaded instance with the input assigned,
    and it does so even when every input value equals the stored one (the
    instance saved is then the one loaded). *)
Theorem update_saves_unconditionally `{rt : JsRuntime} {E} (this : InstanceResolver)
  (input : jsobj) (info : list string) (w w1 w2 : World E)
  (o : gmap string value) (user : option (gmap string value)) :
  let keys := okeys (odelete input "id") in
  let writable :=
    match writeMatch this user (Some o) ≫= allowedFields with
    | Some fs => pick (allowedInputFields this) fs
    | None => allowedInputFields this
    end in
  md_input (modelDef this) = Some true ->
  find this (oprop input "id") None w = (Return (Some o), w1) ->
  resolveUserForContext this w1 = (Return user, w2) ->
  updateGranted this user (Some o) ->
  (forall k, k ∈ keys -> is_Some (writable !! k)) ->
  exists o',
    trace (snd (update this input info w)) = push (trace w) (ESave o')
    /\ (fst (update this input info w) = Return true
        \/ fst (update this input info w) = Throw StorageError)
    /\ ((forall k, k ∈ keys -> o !! k = Some (oprop (odelete input "id") k)) ->
        o' = o).
Proof.
  intros keys writable Hin Hfind Huser Hgate Hall.
  pose proof (find_world _ _ _ _ _ _ Hfind) as ->.
  destruct (resolveUserForContext_world _ _ _ _ Huser) as (_ & _ & Htr & _).
  set (input' := odelete input "id") in *.
  exists (fold_left (fun o k => <[k := oprop input' k]> o) keys o).
  assert (Hrun :
    update this input info w
    = (save this (fold_left (fun o k => <[k := oprop input' k]> o) keys o);;
       mret true) w2).
  { unfold update. rewrite Hin. cbn [negb]. munfold. rewrite Hfind, Huser.
    unfold updateGranted, writeMatch in *. subst writable.
    assert (Happ : forall m,
      (forall k, k ∈ keys ->
         is_Some (match m ≫= allowedFields with
                  | Some fs => pick (allowedInputFields this) fs
                  | None => allowedInputFields this
                  end !! k)) ->
      applyInput
        match m ≫= allowedFields with
        | Some fs => pick (allowedInputFields this) fs
        | None => allowedInputFields this
        end input' keys (Some o) []
      = Return (Some (fold_left (fun o k => <[k := oprop input' k]> o) keys o), [])).
    { intros m Hm. apply applyInput_allowed. intros k Hk. unfold disallowedKey.
      apply negb_false_iff, bool_decide_eq_true. by apply Hm. }
    munfold.
    destruct (acl this) as [a|].
    - destruct (userToAclTargets this user (Some o)) as [targets own].
      cbn [fst snd] in *. destruct Hgate as (-> & -> & ->). cbn [negb].
      fold input'. fold keys. by rewrite (Happ _ Hall).
    - fold input'. fold keys. by rewrite (Happ None Hall). }
  rewrite Hrun. munfold.
  destruct (save_trace this
              (fold_left (fun o k => <[k := oprop input' k]> o) keys o) w2)
    as (Ht & Hres).
  destruct (save this _ w2) as [[[]|e] w3]; cbn [fst snd] in *.
  - split; [by rewrite Ht, Htr|]. split; [by left|]. apply assign_same.
  - split; [by rewrite Ht, Htr|]. split; [|apply assign_same].
    right. destruct Hres as [Hres|Hres]; [discriminate|]. by injection Hres as ->.
Qed.

(** The no-op update [{id: "i1", title: "x"}] of the instance whose title
    is already ["x"]: the save is issued all the same. *)
Lemma update_saves_unconditionally_witness :
  let w := Sample.world (Some "u1") in
  oprop UpdateSample.unchanged "title" = prop Sample.row1 "title"
  /\ trace (snd (update UpdateSample.this UpdateSample.unchanged [] w))
     = [ESave Sample.row1]
  /\ fst (update UpdateSample.this UpdateSample.unchanged [] w) = Return true.
Proof.
  intros w. split; [reflexivity|].
  assert (Hall : forall k,
    k ∈ okeys (odelete UpdateSample.unchanged "id") ->
    is_Some (match writeMatch UpdateSample.this (Some Sample.alice)
                     (Some Sample.row1) ≫= allowedFields with
             | Some fs => pick (allowedInputFields UpdateSample.this) fs
             | None => allowedInputFields UpdateSample.this
             end !! k)).
  { intros k Hk. apply list_elem_of_In in Hk. cbn in Hk.
    destruct Hk as [<-|[]]. vm_compute. eauto. }
  destruct (update_saves_unconditionally UpdateSample.this UpdateSample.unchanged
              [] w _ _ Sample.row1 (Some Sample.alice) eq_refl eq_refl eq_refl
              (conj eq_refl (conj eq_refl eq_refl)) Hall)
    as (o' & Htrace & Hres & Hsame).
  assert (Ho : o' = Sample.row1).
  { apply Hsame. intros k Hk. apply list_elem_of_In in Hk. cbn in Hk.
    destruct Hk as [<-|[]]. reflexivity. }
  subst o'. split; [exact Htrace|].
  vm_compute. reflexivity.
Defined.

(** ** C9: operations on a missing instance *)

Lemma find_missing {E} (this : InstanceResolver) (id : string)
  (rels : option (list (option string))) (w : World E) :
  db w !! id = None -> find this (VStr id) rels w = (Return None, w).
Proof. intros H. unfold find. rewrite H. by destruct rels. Qed.

(** C9.  What the four operations do when no instance has the given id:
    [get] returns (it does not throw) a [NotFoundError] object and
    [getTasks] throws a [NotFoundError], but [destroy] and [completeTask]
    throw a plain [Error]; in each case no rule is evaluated (the outcome
    does not depend on the rule table) and no row, engine state or effect
    changes. *)
Theorem missing_instance_errors `{rt : JsRuntime} {E} (camunda : WorkflowService E)
  (this : InstanceResolver) (id taskId : string) (info : list string)
  (state : option jsobj) (w : World E) :
  db w !! id = None ->
  let unchanged (w' : World E) :=
    db w' = db w /\ engine w' = engine w /\ trace w' = trace w in
  (fst (get this id info w)
   = Return (ReturnedError (NotFoundError "Instance not found."))
   /\ unchanged (snd (get this id info w)))
  /\ (fst (getTasks camunda this id w)
      = Throw (NotFoundError "Instance with identifier not found.")
      /\ unchanged (snd (getTasks camunda this id w)))
  /\ (fst (destroy camunda this {| di_id := id; di_state := state |} w)
      = Throw (Error "Instance with identifier not found.")
      /\ unchanged (snd (destroy camunda this {| di_id := id; di_state := state |} w)))
  /\ (truthy_str id = true -> truthy_str taskId = true ->
      (exists data, taskService_list camunda id (engine w) = Return data) ->
      let input := {| ct_id := id; ct_taskId := taskId; ct_state := state |} in
      fst (completeTask camunda this input w)
      = Throw (Error "Instance with identifier not found.")
      /\ unchanged (snd (completeTask camunda this input w))).
Proof.
  intros Hmiss unchanged.
  destruct (resolveUserForContext_total this w)
    as (user & w' & Huser & Hdb & Hen & Htr & _).
  split; [|split; [|split]].
  - unfold get. munfold. rewrite (find_missing _ _ _ _ Hmiss), Huser. done.
  - unfold getTasks. munfold. rewrite (find_missing _ _ _ _ Hmiss), Huser. done.
  - unfold destroy, destroyPrepare. munfold. cbn [di_id].
    rewrite (find_missing _ _ _ _ Hmiss), Huser. done.
  - intros Hid Htask [data Hdata] input. unfold completeTask. munfold.
    cbn [ct_id ct_taskId ct_state input]. rewrite Hid, Htask. cbn [negb orb].
    rewrite (find_missing _ _ _ _ Hmiss), Huser.
    rewrite <- Hen in Hdata. rewrite Hdata. done.
Qed.

(** On an id that no row carries, [destroy] throws a plain [Error]. *)
Lemma missing_instance_errors_witness :
  fst (destroy Sample.engineOf (Sample.resolver None)
         {| di_id := "nope"; di_state := None |} (Sample.world (Some "u1")))
  = Throw (Error "Instance with identifier not found.").
Proof.
  exact (proj1 (proj1 (proj2 (proj2
    (missing_instance_errors Sample.engineOf (Sample.resolver None)
       "nope" "t1" [] None (Sample.world (Some "u1")) eq_refl))))).
Defined.

(** ** C6: destroying an instance that has no process instance *)

Lemma save_engine {E} (this : InstanceResolver) (o : gmap string value)
  (w w' : World E) r :
  save this o w = (r, w') -> engine w' = engine w.
Proof.
  unfold save. munfold. cbn.
  destruct (prop o "id"); try (intros [= _ <-]; reflexivity).
  destruct (accepts (modelClass this) o); intros [= _ <-]; reflexivity.
Qed.

Lemma destroyPrepare_engine {E} (this : InstanceResolver) (input : DestroyInput)
  (w w' : World E) r :
  destroyPrepare this input w = (r, w') -> engine w' = engine w.
Proof.
  unfold destroyPrepare. munfold.
  destruct (find_total this (VStr (di_id input)) None w) as [o ->].
  destruct (resolveUserForContext_total this w) as (u & w0 & -> & _ & He & _).
  destruct o as [o|]; [|intros [= _ <-]; exact He].
  assert (Hstate : forall r w1,
    match filterState this (di_state input) with
    | Some filteredState =>
        if nonEmpty (okeys filteredState)
        then let '(object, didModify) := applyState filteredState o in
             if didModify then save this object else fun w => (Return (), w)
        else fun w => (Return (), w)
    | None => fun w => (Return (), w)
    end w0 = (r, w1) -> engine w1 = engine w).
  { intros r1 w1. destruct (filterState this (di_state input)) as [fs|];
      [|intros [= _ <-]; exact He].
    destruct (nonEmpty (okeys fs)); [|intros [= _ <-]; exact He].
    destruct (applyState fs o) as [o' []]; [|intros [= _ <-]; exact He].
    intros H. apply save_engine in H. congruence. }
  destruct (acl this) as [a|]; [|apply Hstate].
  destruct (userToAclTargets this u (Some o)) as [targets own].
  destruct (allow (applyRules a targets Access (Some o))); cbn [negb];
    [|intros [= _ <-]; exact He].
  destruct (_restrictionsApplyToUser _ own); cbn [negb];
    [|intros [= _ <-]; exact He].
  destruct (allow (applyRules a targets Destroy (Some o))); cbn [negb];
    [|intros [= _ <-]; exact He].
  apply Hstate.
Qed.

Lemma teardown_no_match `{rt : JsRuntime} {E} (camunda : WorkflowService E)
  (this : InstanceResolver) (input : DestroyInput) (w : World E)
  (data : list ProcessInstance) :
  processInstanceService_list camunda (di_id input) (processKey (taskDef this))
    (engine w) = Return data ->
  matchingProcessInstance (di_id input) data = None ->
  teardown camunda this input w = (Return false, w).
Proof.
  intros Hlist Hnone. unfold teardown. munfold. rewrite Hlist.
  unfold matchingProcessInstance in Hnone.
  destruct data as [|p data]; [reflexivity|].
  destruct (truthy_str (pi_id p) && truthy_str (pi_businessKey p)
            && String.eqb (toLowerCase (pi_businessKey p))
                 (toLowerCase (di_id input)));
    [discriminate|reflexivity].
Qed.

Lemma nothingToDelete_spec `{rt : JsRuntime} (id : string)
  (data : list ProcessInstance) :
  nothingToDelete id data <-> matchingProcessInstance id data = None.
Proof.
  unfold nothingToDelete, matchingProcessInstance.
  destruct data as [|p data]; [done|].
  unfold truthy_str.
  destruct (String.eqb_spec (pi_id p) ""); cbn [negb andb]; [tauto|].
  destruct (String.eqb_spec (pi_businessKey p) ""); cbn [negb andb]; [tauto|].
  destruct (String.eqb_spec (toLowerCase (pi_businessKey p)) (toLowerCase id));
    [|tauto].
  split; [|discriminate]. intros [?|[?|?]]; done.
Qed.

(** The claim as stated fails in two ways.  A process instance whose
    business key ["I1"] is not the instance id ["i1"] is none for that
    key, yet it is deleted and the call returns [true].  And under a rule
    that lets an instance be destroyed until its phase is ["destroyed"],
    the first [destroy] of an instance without process instance returns
    [false] and stores that phase, and the second is refused. *)
Lemma destroy_without_process_instance_counterexample :
  let open := Sample.resolver None in
  let once := Sample.resolver (Some RuleSample.destroyOnce) in
  let first := destroy Sample.engineOf once RuleSample.destroyInput
                 (Sample.world (Some "u1")) in
  pi_businessKey MoreSample.running <> "i1"
  /\ fst (destroy MoreSample.engineOf open {| di_id := "i1"; di_state := None |}
            (MoreSample.world (Some "u1") [MoreSample.running]))
     = Return true
  /\ trace (snd (destroy MoreSample.engineOf open
                    {| di_id := "i1"; di_state := None |}
                    (MoreSample.world (Some "u1") [MoreSample.running])))
     = [EProcessDelete "p1"]
  /\ engine (Sample.world (Some "u1")) = []
  /\ fst first = Return false
  /\ fst (destroy Sample.engineOf once RuleSample.destroyInput (snd first))
     = Throw (AuthorizationError
                "You do not have the rights allowed to destroy this object.").
Proof.
  cbv zeta. split_and!.
  - discriminate.
  - vm_compute. reflexivity.
  - vm_compute. reflexivity.
  - reflexivity.
  - vm_compute. reflexivity.
  - vm_compute. reflexivity.
Qed.

(** C6 (amended).  When the listing of process instances for the instance
    id gives nothing to delete -- it is empty, or its first entry lacks an
    id or a business key, or has a business key that differs from the
    instance id after both are lower-cased -- a [destroy] that gets as far
    as the teardown (the instance exists, the gates pass, the state change
    is persisted) returns [false] without any error and leaves the engine
    untouched; a second [destroy] then returns [false] again when it gets
    as far, and fails with the error of its own checks otherwise.  When
    the first entry has an id and a business key equal to the instance id
    up to letter case, the call does not return [false]: it asks the
    engine to delete that entry and returns [true], or fails with the
    generic [Error] when the engine fails. *)
Theorem destroy_without_process_instance `{rt : JsRuntime} {E}
  (camunda : WorkflowService E)
  (this : InstanceResolver) (input : DestroyInput) (w w1 : World E)
  (data : list ProcessInstance) :
  destroyPrepare this input w = (Return (), w1) ->
  processInstanceService_list camunda (di_id input) (processKey (taskDef this))
    (engine w) = Return data ->
  (nothingToDelete (di_id input) data ->
   destroy camunda this input w = (Return false, w1)
   /\ engine w1 = engine w
   /\ forall out w2,
        destroyPrepare this input w1 = (out, w2) ->
        destroy camunda this input w1
        = (match out with
           | Return _ => Return false
           | Throw e => Throw e
           end, w2))
  /\ (forall p rest,
        data = p :: rest ->
        pi_id p <> "" -> pi_businessKey p <> "" ->
        toLowerCase (pi_businessKey p) = toLowerCase (di_id input) ->
        fst (destroy camunda this input w)
        = match fst (processInstanceService_del camunda (pi_id p) (engine w1)) with
          | Return _ => Return true
          | Throw _ =>
              Throw (Error "Unable to destroy instance due to business engine error.")
          end).
Proof.
  intros Hprep Hlist.
  pose proof (destroyPrepare_engine _ _ _ _ _ Hprep) as He1.
  split.
  - intros Hnone. apply nothingToDelete_spec in Hnone.
    assert (Hcall : forall (wa wb : World E) out,
              engine wa = engine w ->
              destroyPrepare this input wa = (out, wb) ->
              destroy camunda this input wa
              = (match out with
                 | Return _ => Return false
                 | Throw e => Throw e
                 end, wb)).
    { intros wa wb out Hea Hp. unfold destroy.
      unfold mbind at 1. unfold M_bind. rewrite Hp.
      destruct out as [[]|e]; [|reflexivity].
      apply (teardown_no_match camunda this input wb data); [|exact Hnone].
      rewrite (destroyPrepare_engine _ _ _ _ _ Hp), Hea. exact Hlist. }
    split; [exact (Hcall w w1 (Return ()) eq_refl Hprep)|].
    split; [exact He1|].
    intros out w2 Hp2. by apply Hcall.
  - intros p rest -> Hid Hkey Hcase.
    unfold destroy. unfold mbind at 1. unfold M_bind at 1. rewrite Hprep.
    unfold teardown. munfold. rewrite He1, Hlist.
    unfold truthy_str.
    destruct (String.eqb_spec (pi_id p) ""); [done|].
    destruct (String.eqb_spec (pi_businessKey p) ""); [done|].
    rewrite Hcase, String.eqb_refl. cbn [negb andb engine withEffect].
    rewrite <- He1.
    by destruct (processInstanceService_del camunda (pi_id p) (engine w1))
      as [[[]|err] e'].
Qed.

(** Destroying the same instance twice, with a state change and an engine
    that holds no process instance: [false] both times. *)
Lemma destroy_without_process_instance_witness :
  let this := Sample.resolver (Some (Sample.rules (fun _ => Sample.allowAll None))) in
  let input := {| di_id := "i1"; di_state := Some [("phase", VStr "destroyed")] |} in
  exists w1 w2,
    destroy Sample.engineOf this input (Sample.world (Some "u1")) = (Return false, w1)
    /\ destroy Sample.engineOf this input w1 = (Return false, w2)
    /\ prop (default ∅ (db w1 !! "i1")) "phase" = VStr "destroyed".
Proof.
  intros this input.
  destruct (destroyPrepare this input (Sample.world (Some "u1")))
    as [r1 w1] eqn:H1.
  assert (Hr1 : r1 = Return ()) by (by vm_compute in H1; injection H1 as <- _).
  subst r1.
  destruct (destroyPrepare this input w1) as [r2 w2] eqn:H2.
  assert (Hr2 : r2 = Return ()).
  { assert (Hw1 : w1 = snd (destroyPrepare this input (Sample.world (Some "u1"))))
      by (by rewrite H1).
    rewrite Hw1 in H2. vm_compute in H2. by injection H2 as <- _. }
  subst r2.
  destruct (destroy_without_process_instance Sample.engineOf this input
              (Sample.world (Some "u1")) w1 [] H1 eq_refl)
    as [Hnone _].
  destruct (Hnone I) as (Hfirst & _ & Hsecond).
  exists w1, w2. split; [exact Hfirst|]. split; [exact (Hsecond _ _ H2)|].
  assert (Hw1 : w1 = snd (destroyPrepare this input (Sample.world (Some "u1"))))
    by (by rewrite H1).
  rewrite Hw1. vm_compute. reflexivity.
Defined.

(** ** C8: the variables forwarded by completeTask *)

Lemma oget_oset (o : jsobj) (k k' : string) (v : value) :
  oget (oset o k v) k' = if String.eqb k k' then Some v else oget o k'.
Proof.
  induction o as [|[k0 v0] o IH]; cbn [oset oget].
  - reflexivity.
  - destruct (String.eqb_spec k0 k) as [->|Hne]; cbn [oget].
    + destruct (String.eqb_spec k k'); reflexivity.
    + destruct (String.eqb_spec k0 k') as [->|Hne'].
      * destruct (String.eqb_spec k k'); [congruence|reflexivity].
      * exact IH.
Qed.

Lemma pickEntries_fold (o acc : jsobj) (keys : list string) (k : string) :
  oget (fold_left
          (fun acc k => match oget o k with
                        | Some v => oset acc k v
                        | None => acc
                        end) keys acc) k
  = if bool_decide (k ∈ keys)
    then match oget o k with Some v => Some v | None => oget acc k end
    else oget acc k.
Proof.
  revert acc. induction keys as [|k0 keys IH]; intros acc; cbn [fold_left].
  - reflexivity.
  - rewrite IH. clear IH.
    destruct (decide (k = k0)) as [->|Hne].
    + rewrite (bool_decide_eq_true_2 (k0 ∈ k0 :: keys)) by constructor.
      destruct (oget o k0) as [v|] eqn:Hv.
      * rewrite oget_oset, String.eqb_refl. by destruct (bool_decide _).
      * by destruct (bool_decide _).
    + assert (Hk : bool_decide (k ∈ k0 :: keys) = bool_decide (k ∈ keys)).
      { apply bool_decide_ext. rewrite elem_of_cons. tauto. }
      rewrite Hk.
      assert (Hacc : oget match oget o k0 with
                          | Some v => oset acc k0 v
                          | None => acc
                          end k = oget acc k).
      { destruct (oget o k0); [|done]. rewrite oget_oset.
        destruct (String.eqb_spec k0 k); [congruence|done]. }
      by rewrite Hacc.
Qed.

Lemma pickEntries_spec (o : jsobj) (keys : list string) (k : string) (v : value) :
  oget (pickEntries o keys) k = Some v <-> k ∈ keys /\ oget o k = Some v.
Proof.
  unfold pickEntries. rewrite pickEntries_fold. cbn [oget].
  destruct (bool_decide (k ∈ keys)) eqn:Hk.
  - apply bool_decide_eq_true in Hk.
    destruct (oget o k); split; [by intros [= <-]|by intros [_ ?]|done|by intros [_ ?]].
  - apply bool_decide_eq_false in Hk. split; [done|tauto].
Qed.

Lemma oget_okeys (o : jsobj) (k : string) : k ∈ okeys o <-> is_Some (oget o k).
Proof.
  induction o as [|[k0 v0] o IH]; cbn [okeys map oget fst].
  - split; [inversion 1|intros [? ?]; discriminate].
  - rewrite elem_of_cons.
    destruct (String.eqb_spec k0 k) as [->|Hne].
    + split; eauto.
    + unfold okeys in IH. rewrite IH. split; [intros [?|?]; [congruence|done]|auto].
Qed.

Lemma forwarded_spec (v : value) : forwarded v = true <-> processVariableValue v.
Proof.
  unfold forwarded, processVariableValue.
  destruct v; cbn; split; try discriminate; eauto;
    intros [[? ?]|[[? ?]|?]]; discriminate.
Qed.

Lemma applyStateVars_fold (fs : jsobj) (keys : list string)
  (instance : gmap string value) (didModify : bool)
  (newVars : gmap string value) (k : string) :
  snd (fold_left
         (fun '(instance, didModify, newVars) key =>
            let value := oprop fs key in
            let '(instance, didModify) :=
              if negb (strict_eq (prop instance key) value)
              then (<[key := value]> instance, true)
              else (instance, didModify) in
            if String.eqb (typeof value) "string"
               || String.eqb (typeof value) "number" || strict_eq value VNull
            then (instance, didModify, <[key := VObj [("value", value)]]> newVars)
            else (instance, didModify, newVars))
         keys (instance, didModify, newVars)) !! k
  = if bool_decide (k ∈ keys) && forwarded (oprop fs k)
    then Some (VObj [("value", oprop fs k)])
    else newVars !! k.
Proof.
  revert instance didModify newVars.
  induction keys as [|k0 keys IH]; intros instance didModify newVars;
    cbn [fold_left].
  - reflexivity.
  - assert (Hk : bool_decide (k ∈ k0 :: keys)
                 = bool_decide (k = k0) || bool_decide (k ∈ keys)).
    { apply eq_true_iff_eq.
      rewrite orb_true_iff, !bool_decide_eq_true, elem_of_cons. tauto. }
    rewrite Hk. clear Hk.
    fold (forwarded (oprop fs k0)).
    destruct (negb (strict_eq (prop instance k0) (oprop fs k0)));
      destruct (forwarded (oprop fs k0)) eqn:Hf; rewrite IH.
    all: destruct (decide (k = k0)) as [->|Hne].
    all: rewrite ?(bool_decide_eq_true_2 (k0 = k0)) by done.
    all: rewrite ?(bool_decide_eq_false_2 (k = k0)) by done.
    all: cbn [orb].
    all: rewrite ?Hf, ?andb_false_r, ?andb_true_r.
    all: rewrite ?lookup_insert_eq.
    all: rewrite ?lookup_insert_ne by done.
    all: try reflexivity.
    all: try (by destruct (bool_decide (k0 ∈ keys))).
Qed.

Lemma applyStateVars_spec (fs : jsobj) (instance : gmap string value)
  (k : string) (x : value) :
  snd (applyStateVars fs instance) !! k = Some x
  <-> exists v, oget fs k = Some v /\ processVariableValue v
                /\ x = VObj [("value", v)].
Proof.
  unfold applyStateVars. rewrite applyStateVars_fold, lookup_empty.
  destruct (bool_decide (k ∈ okeys fs)) eqn:Hk; cbn [andb].
  - apply bool_decide_eq_true, oget_okeys in Hk as [v Hv].
    unfold oprop. rewrite Hv. change (default VUndefined (Some v)) with v.
    destruct (forwarded v) eqn:Hf.
    + apply forwarded_spec in Hf. split.
      * intros Hx. injection Hx as Hx. subst x. exists v. done.
      * intros (v' & Hv' & _ & ->). by injection Hv' as ->.
    + split; [discriminate|]. intros (v' & Hv' & Hp & _).
      injection Hv' as ->. apply forwarded_spec in Hp. congruence.
  - apply bool_decide_eq_false in Hk. split; [discriminate|].
    intros (v & Hv & _). exfalso. apply Hk, oget_okeys. eauto.
Qed.

Lemma completeTask_success {E} (camunda : WorkflowService E)
  (this : InstanceResolver) (input : CompleteTaskInput) (w w' : World E) :
  completeTask camunda this input w = (Return true, w') ->
  exists opts inst,
    last (trace w') = Some (ETaskComplete opts)
    /\ cto_id opts = ct_taskId input
    /\ variables opts
       = match filterState this (ct_state input) with
         | Some fs => if nonEmpty (okeys fs)
                      then Some (snd (applyStateVars fs inst))
                      else None
         | None => None
         end.
Proof.
  unfold completeTask. munfold.
  destruct (negb (truthy_str (ct_id input)) || negb (truthy_str (ct_taskId input)));
    [discriminate|].
  destruct (find_total this (VStr (ct_id input)) None w) as [o ->].
  destruct (resolveUserForContext_total this w) as (u & w0 & -> & _).
  destruct (taskService_list camunda (ct_id input) (engine w0)) as [data|e];
    [|discriminate].
  destruct o as [inst|]; [|discriminate].
  destruct (negb (nonEmpty _)); [discriminate|].
  match goal with
  | |- context [let (_, _) := ?X in _] => destruct X as [[tm|e] w1]
  end; [|discriminate].
  destruct (negb (nonEmpty _)); [discriminate|].
  assert (Hfinal : forall (opts : CompleteTaskOpts) (wa : World E),
    (let (o1, w'2) :=
       match (taskService_complete camunda opts
                (engine (withEffect wa (ETaskComplete opts)))).1 with
       | Return _ =>
           (Return true,
            withEngine (withEffect wa (ETaskComplete opts))
              (taskService_complete camunda opts
                 (engine (withEffect wa (ETaskComplete opts)))).2)
       | Throw e =>
           (Throw e,
            withEngine (withEffect wa (ETaskComplete opts))
              (taskService_complete camunda opts
                 (engine (withEffect wa (ETaskComplete opts)))).2)
       end in
     match o1 with
     | Return a1 => (Return a1, w'2)
     | Throw _ =>
         (Throw (Error "Unable to complete task for instance due to business engine error."),
          w'2)
     end) = (Return true, w') ->
    last (trace w') = Some (ETaskComplete opts)).
  { intros opts wa.
    destruct ((taskService_complete camunda opts _).1); [|discriminate].
    intros [= <-]. cbn [trace withEngine withEffect]. unfold push.
    apply last_snoc. }
  destruct (filterState this (ct_state input)) as [fs|].
  - destruct (nonEmpty (okeys fs)).
    + destruct (applyStateVars fs inst) as [[inst' d] vars] eqn:Hvars.
      destruct ((if d then save this inst' else fun w3 => (Return (), w3)) w1)
        as [[[]|e] w2]; [|discriminate].
      intros H. apply Hfinal in H.
      exists {| cto_id := ct_taskId input; variables := Some vars |}, inst.
      rewrite Hvars. done.
    + intros H. apply Hfinal in H.
      by exists {| cto_id := ct_taskId input; variables := None |}, inst.
  - intros H. apply Hfinal in H.
    by exists {| cto_id := ct_taskId input; variables := None |}, inst.
Qed.

(** The claim as stated fails for a boolean: the state field [hidden] is
    declared, its value [true] is a scalar, and it is applied to the
    instance, but it is not forwarded as a process variable (the string
    [phase] is; the undeclared [title] is dropped by the filter). *)
Lemma completeTask_variables_counterexample :
  let this := Sample.resolver None in
  let run := completeTask TaskSample.engineOf this TaskSample.input TaskSample.world in
  fst run = Return true
  /\ filterState this (ct_state TaskSample.input)
     = Some [("phase", VStr "review"); ("hidden", VBool true)]
  /\ prop (default ∅ (db (snd run) !! "i1")) "hidden" = VBool true
  /\ last (trace (snd run))
     = Some (ETaskComplete
               {| cto_id := "t1";
                  variables := Some {["phase" := VObj [("value", VStr "review")]]} |}).
Proof.
  cbv zeta. split; [reflexivity|]. split; [reflexivity|].
  split; vm_compute; reflexivity.
Qed.

(** C8 (amended).  A [completeTask] that completes hands the workflow
    engine the task id and, as process variables, exactly the entries
    [k := {value: v}] for which [k] is a schema-declared state field, the
    caller's state gives [k] the value [v], and [v] is a string, a number or
    [null] (no write match is consulted; booleans, arrays and objects are
    applied to the instance but not forwarded). *)
Theorem completeTask_variables {E} (camunda : WorkflowService E)
  (this : InstanceResolver) (input : CompleteTaskInput) (w w' : World E) :
  completeTask camunda this input w = (Return true, w') ->
  exists opts,
    last (trace w') = Some (ETaskComplete opts)
    /\ cto_id opts = ct_taskId input
    /\ forall k x,
         (exists vars, variables opts = Some vars /\ vars !! k = Some x)
         <-> exists st v,
               ct_state input = Some st
               /\ declaredStateField this k
               /\ oget st k = Some v
               /\ processVariableValue v
               /\ x = VObj [("value", v)].
Proof.
  intros H. apply completeTask_success in H as (opts & inst & Hlast & Hid & Hvars).
  exists opts. split; [exact Hlast|]. split; [exact Hid|].
  intros k x. rewrite Hvars. clear Hvars. unfold filterState.
  set (allowedKeys := map (fun e => keyOf (field e)) (stateFields this)).
  assert (Hdecl : k ∈ allowedKeys <-> declaredStateField this k).
  { unfold allowedKeys, declaredStateField. rewrite list_elem_of_fmap.
    split; intros (e & H1 & H2); exists e; done. }
  split.
  - intros (vars & Hv & Hk).
    destruct (ct_state input) as [st|]; [|discriminate].
    destruct (nonEmpty allowedKeys); [|discriminate].
    destruct (nonEmpty (okeys (pickEntries st allowedKeys))); [|discriminate].
    injection Hv as <-.
    apply applyStateVars_spec in Hk as (v & Hget & Hp & ->).
    apply pickEntries_spec in Hget as [Hin Hget].
    exists st, v. split_and!; try done. by apply Hdecl.
  - intros (st & v & -> & Hd & Hget & Hp & ->).
    apply Hdecl in Hd.
    assert (Hne : nonEmpty allowedKeys = true).
    { apply nonEmpty_true. intros Hnil. rewrite Hnil in Hd. inversion Hd. }
    rewrite Hne.
    assert (Hpick : oget (pickEntries st allowedKeys) k = Some v)
      by (by apply pickEntries_spec).
    assert (Hne' : nonEmpty (okeys (pickEntries st allowedKeys)) = true).
    { apply nonEmpty_true. intros Hnil.
      assert (Hin : k ∈ okeys (pickEntries st allowedKeys))
        by (apply oget_okeys; eauto).
      rewrite Hnil in Hin. inversion Hin. }
    rewrite Hne'. eexists. split; [reflexivity|].
    apply applyStateVars_spec. eauto.
Qed.

(** Completing the sample task forwards [phase] and nothing else. *)
Lemma completeTask_variables_witness :
  exists opts,
    last (trace (snd (completeTask TaskSample.engineOf (Sample.resolver None)
                        TaskSample.input TaskSample.world)))
    = Some (ETaskComplete opts)
    /\ cto_id opts = "t1"
    /\ (exists vars, variables opts = Some vars
                     /\ vars !! "phase" = Some (VObj [("value", VStr "review")])).
Proof.
  destruct (completeTask TaskSample.engineOf (Sample.resolver None)
              TaskSample.input TaskSample.world) as [r w'] eqn:Hrun.
  assert (Hr : r = Return true).
  { change r with (fst (r, w')). rewrite <- Hrun. reflexivity. }
  subst r.
  destruct (completeTask_variables TaskSample.engineOf (Sample.resolver None)
              TaskSample.input TaskSample.world w' Hrun)
    as (opts & Hlast & Hid & Hvars).
  exists opts. split; [exact Hlast|]. split; [exact Hid|].
  apply Hvars. exists [("phase", VStr "review"); ("hidden", VBool true);
                       ("title", VStr "t")], (VStr "review").
  split; [reflexivity|]. split.
  - exists (Sample.el "phase"). split; [|reflexivity].
    apply list_elem_of_In. left. reflexivity.
  - split; [reflexivity|]. split; [|reflexivity]. left. by exists "review".
Defined.

(** ** C5: the ownership constraint of list *)

Lemma evalChain_and (row : gmap string value) (cur : bool) (g : Group) :
  (forall ca, ca ∈ g -> fst ca = CAnd) ->
  evalChain row cur g = cur && forallb (fun ca => evalAtom row (snd ca)) g.
Proof.
  revert cur. induction g as [|[c a] g IH]; intros cur Hand; cbn.
  - by rewrite andb_true_r.
  - assert (Hc : c = CAnd) by (apply (Hand (c, a)); constructor).
    subst c. rewrite IH.
    + by rewrite andb_assoc.
    + intros ca Hin. apply Hand. by constructor.
Qed.

Lemma evalChain_or (row : gmap string value) (cur : bool) (g : Group) :
  (forall ca, ca ∈ g -> fst ca = COr) ->
  evalChain row cur g = cur || existsb (fun ca => evalAtom row (snd ca)) g.
Proof.
  revert cur. induction g as [|[c a] g IH]; intros cur Hor; cbn.
  - by rewrite orb_false_r.
  - assert (Hc : c = COr) by (apply (Hor (c, a)); constructor).
    subst c. rewrite IH; [done|].
    intros ca Hin. apply Hor. by constructor.
Qed.

Lemma filter_all {A : Type} (P : A -> bool) (l : list A) :
  (forall x, x ∈ l -> P x = true) -> List.filter P l = l.
Proof.
  induction l as [|x l IH]; intros H; cbn; [done|].
  rewrite (H x) by constructor. f_equal. apply IH.
  intros y Hy. apply H. by constructor.
Qed.

Lemma evalGroup_and (row : gmap string value) (g : Group) :
  (forall ca, ca ∈ g -> fst ca = CAnd /\ atomValueUndefined (snd ca) = false) ->
  evalGroup row g = forallb (fun ca => evalAtom row (snd ca)) g.
Proof.
  intros H. unfold evalGroup.
  destruct g as [|[c a] g]; [done|].
  rewrite evalChain_and; [done|].
  intros ca Hca. apply H. by constructor.
Qed.

Lemma filterStatements_shape (this : InstanceResolver)
  (filter : option (gmap string value)) (ca : Conn * Atom) :
  ca ∈ fst (filterStatements this filter) ->
  fst ca = CAnd /\ atomValueUndefined (snd ca) = false.
Proof.
  unfold filterStatements.
  destruct filter as [filter|]; [|inversion 1].
  destruct (nonEmpty (listingFilterFields this)); [|inversion 1].
  assert (Hfold : forall fields b added,
    (forall x, x ∈ b -> fst x = CAnd /\ atomValueUndefined (snd x) = false) ->
    forall x,
      x ∈ fst (fold_left
                 (fun '(b, addedWhereStatement) f =>
                    let v := prop filter (keyOf (field f)) in
                    if negb (truthy v) then (b, addedWhereStatement)
                    else if negb (strict_eq v VNull) && negb (strict_eq v VUndefined)
                    then
                      if listingFilterMultiple f then
                        match v with
                        | VArr vs => (push b (CAnd, AIn (keyOf (field f)) vs), true)
                        | _ => (b, addedWhereStatement)
                        end
                      else (push b (CAnd, AEq (keyOf (field f)) v), true)
                    else (b, addedWhereStatement))
                 fields (b, added)) ->
      fst x = CAnd /\ atomValueUndefined (snd x) = false).
  { induction fields as [|f fields IH]; intros b added Hb x; cbn [fold_left fst].
    - apply Hb.
    - destruct (truthy (prop filter (keyOf (field f)))) eqn:Ht; cbn [negb];
        [|by apply IH].
      destruct (negb (strict_eq _ VNull) && negb (strict_eq _ VUndefined));
        [|by apply IH].
      destruct (listingFilterMultiple f).
      + destruct (prop filter (keyOf (field f))) eqn:Hv; try (by apply IH).
        apply IH. intros y Hy. unfold push in Hy.
        apply elem_of_app in Hy as [Hy|Hy]; [by apply Hb|].
        apply list_elem_of_singleton in Hy as ->. done.
      + apply IH. intros y Hy. unfold push in Hy.
        apply elem_of_app in Hy as [Hy|Hy]; [by apply Hb|].
        apply list_elem_of_singleton in Hy as ->. cbn.
        split; [done|]. by destruct (prop filter (keyOf (field f))). }
  apply Hfold. inversion 1.
Qed.

Lemma evalGroup_filters (this : InstanceResolver)
  (filter : option (gmap string value)) (row : gmap string value) :
  evalGroup row (fst (filterStatements this filter))
  = passesFilters this filter row.
Proof.
  unfold passesFilters. apply evalGroup_and. apply filterStatements_shape.
Qed.

Lemma evalGroup_owner (this : InstanceResolver) (u row : gmap string value) :
  ownerFields this <> [] ->
  evalGroup row (ownerFieldStatementBuilder this u) = ownsRow this u row.
Proof.
  intros Hne. unfold ownerFieldStatementBuilder, ownsRow, evalGroup.
  destruct (ownerFields this) as [|f fs]; [done|].
  rewrite imap_cons. cbn [existsb evalAtom].
  rewrite evalChain_or.
  - f_equal.
    assert (Himap : forall (l : list Element) (g : nat -> nat),
              (forall i, (g i =? 0)%nat = false) ->
              existsb (fun ca => evalAtom row (snd ca))
                (imap (fun index f0 =>
                         (if (g index =? 0)%nat then CAnd else COr,
                          AEq (keyOf (joinField f0)) (prop u "id"))) l)
              = existsb
                  (fun f0 => strict_eq (prop row (keyOf (joinField f0)))
                               (prop u "id")) l).
    { induction l as [|x l IH]; intros g Hg; [done|].
      rewrite imap_cons. cbn [existsb snd evalAtom]. f_equal.
      apply (IH (g ∘ S)). intros i. apply Hg. }
    apply (Himap fs S). done.
  - intros ca Hca. apply elem_of_lookup_imap in Hca as (i & f0 & -> & _).
    reflexivity.
Qed.

Lemma ownsRow_spec (this : InstanceResolver) (u row : gmap string value) :
  ownsRow this u row = true <-> ownsInstance this u row.
Proof.
  unfold ownsRow, ownsInstance. rewrite existsb_exists.
  split; intros (f & Hf & H); exists f; (split; [|done]);
    by apply list_elem_of_In.
Qed.

(** The claim as stated fails for a model without owner fields: the
    access match carries the [owner] restriction only and no row has an
    owner, yet the authenticated caller is listed both rows. *)
Lemma list_owner_counterexample :
  allowedRestrictions
    (applyRules ListSample.ownerOnly
       (fst (userToAclTargets ListSample.ownerless (Some Sample.alice) None))
       Access None) = Some ["owner"]
  /\ ownerFields ListSample.ownerless = []
  /\ fst (list_ ListSample.ownerless ListSample.input ["id"]
            (Sample.world (Some "u1")))
     = Return [ {["id" := VStr "i1"]}; {["id" := VStr "i2"]} ].
Proof.
  split; [reflexivity|]. split; [reflexivity|]. vm_compute. reflexivity.
Qed.

Lemma evalQuery_owner (this : InstanceResolver)
  (filter : option (gmap string value)) (u row : gmap string value) (q : Query) :
  q_where q = [fst (filterStatements this filter);
               ownerFieldStatementBuilder this u] ->
  ownerFields this <> [] ->
  evalQuery q row = passesFilters this filter row && ownsRow this u row.
Proof.
  intros Hq Hne. unfold evalQuery. rewrite Hq.
  cbn [forallb]. rewrite evalGroup_filters, evalGroup_owner by done.
  by rewrite andb_true_r.
Qed.

Lemma evalQuery_plain (this : InstanceResolver)
  (filter : option (gmap string value)) (row : gmap string value) (q : Query) :
  q_where q = [fst (filterStatements this filter)] ->
  evalQuery q row = passesFilters this filter row && true.
Proof.
  intros Hq. unfold evalQuery. rewrite Hq.
  cbn [forallb]. by rewrite evalGroup_filters.
Qed.

Lemma existsb_false {A : Type} (P : A -> bool) (l : list A) :
  (forall x, x ∈ l -> P x = false) -> existsb P l = false.
Proof.
  induction l as [|x l IH]; intros H; cbn [existsb]; [done|].
  rewrite (H x) by constructor. apply IH.
  intros y Hy. apply H. by constructor.
Qed.

(** The filter predicates never compare with [undefined]. *)
Lemma filters_defined (this : InstanceResolver)
  (filter : option (gmap string value)) :
  existsb (fun ca => atomValueUndefined (snd ca))
    (fst (filterStatements this filter)) = false.
Proof.
  apply existsb_false. intros ca Hca.
  by destruct (filterStatements_shape this filter ca Hca).
Qed.

(** The owner predicates compare with the caller's id. *)
Lemma owner_defined (this : InstanceResolver) (u : gmap string value) :
  existsb (fun ca => atomValueUndefined (snd ca))
    (ownerFieldStatementBuilder this u)
  = nonEmpty (ownerFields this) && strict_eq (prop u "id") VUndefined.
Proof.
  unfold ownerFieldStatementBuilder.
  destruct (strict_eq (prop u "id") VUndefined) eqn:Hid.
  - destruct (ownerFields this) as [|f fs]; [done|].
    rewrite imap_cons. cbn [existsb snd atomValueUndefined nonEmpty length
                              Nat.eqb negb andb].
    destruct (prop u "id"); try discriminate. reflexivity.
  - rewrite andb_false_r. apply existsb_false. intros ca Hca.
    apply elem_of_lookup_imap in Hca as (i & f & -> & _). cbn [snd].
    by destruct (prop u "id").
Qed.

Lemma undefinedBinding_owner (this : InstanceResolver)
  (filter : option (gmap string value)) (u : gmap string value) (q : Query) :
  q_where q = [fst (filterStatements this filter);
               ownerFieldStatementBuilder this u] ->
  undefinedBinding q
  = nonEmpty (ownerFields this) && strict_eq (prop u "id") VUndefined.
Proof.
  intros Hq. unfold undefinedBinding. rewrite Hq. cbn [existsb].
  rewrite filters_defined, owner_defined. cbn [orb]. by rewrite orb_false_r.
Qed.

Lemma undefinedBinding_plain (this : InstanceResolver)
  (filter : option (gmap string value)) (q : Query) :
  q_where q = [fst (filterStatements this filter)] ->
  undefinedBinding q = false.
Proof.
  intros Hq. unfold undefinedBinding. rewrite Hq. cbn [existsb].
  by rewrite filters_defined.
Qed.

(** C5 (amended).  When the access match of a [list] carries a restriction
    set without [all], the call fails with an [AuthorizationError] if no
    identity is resolved.  For a resolved identity with a truthy id and a
    model that declares owner fields, the rows selected are exactly the
    stored rows that pass the filter predicates and on which the caller is
    an owner (the join column of some owner field holds the caller's id);
    for a model without owner fields no ownership constraint is added,
    whatever the identity; the selected rows are then ordered, expanded
    and redacted one by one.  For a resolved identity that carries no id
    and a model that declares owner fields, the query compares with
    [undefined], the storage engine rejects it and the call fails. *)
Theorem list_owner_constraint `{rt : JsRuntime} {E} (this : InstanceResolver) (input : ListInput)
  (info : list string) (w w1 : World E) (user : option (gmap string value))
  (a : Acl) (rs : list string) :
  resolveUserForContext this w = (Return user, w1) ->
  acl this = Some a ->
  allow (applyRules a (fst (userToAclTargets this user None)) Access None) = true ->
  allowedRestrictions
    (applyRules a (fst (userToAclTargets this user None)) Access None) = Some rs ->
  "all" ∉ rs ->
  (user = None ->
   fst (list_ this input info w)
   = Throw (AuthorizationError "You must be a valid user "))
  /\ (forall u, user = Some u ->
        (truthy (prop u "id") = true \/ ownerFields this = [] ->
         fst (list_ this input info w)
         = Return
             (map (redactFor this user info)
                (presentRows this input info
                   (List.filter
                      (fun row =>
                         passesFilters this (li_filter input) row
                         && (if nonEmpty (ownerFields this)
                             then ownsRow this u row
                             else true))
                      (storedRows w)))))
        /\ (prop u "id" = VUndefined -> ownerFields this <> [] ->
            fst (list_ this input info w) = Throw StorageError)
        /\ forall row, ownsRow this u row = true <-> ownsInstance this u row).
Proof.
  intros Huser Hacl Hallow Hrs Hall.
  destruct (resolveUserForContext_world _ _ _ _ Huser) as (Hdb & _).
  apply includes_false in Hall.
  unfold list_. munfold. rewrite Huser, Hacl.
  destruct (userToAclTargets this user None) as [targets own].
  cbn [fst] in Hallow, Hrs. rewrite Hallow, Hrs. cbn [negb].
  destruct (filterStatements this (li_filter input)) as [fg added] eqn:Hfg.
  assert (Hfg' : fg = fst (filterStatements this (li_filter input)))
    by (by rewrite Hfg).
  rewrite Hall. cbn [negb].
  split.
  - intros ->. reflexivity.
  - intros u ->. split; [|split; [|intros row; apply ownsRow_spec]].
    + intros Hid.
      assert (Hredact :
        forall rows,
          map (fun object =>
                 let '(aclTargets, _) := userToAclTargets this (Some u) (Some object) in
                 _getInstance this object aclTargets info) rows
          = map (redactFor this (Some u) info) rows).
      { intros rows. apply map_ext. intros row. unfold redactFor.
        by destruct (userToAclTargets this (Some u) (Some row)). }
      unfold storedRows, presentRows. rewrite <- Hdb.
      destruct (nonEmpty (ownerFields this)) eqn:Hown.
      * apply nonEmpty_true in Hown.
        destruct Hid as [Hid|Hnil]; [|contradiction].
        assert (Hsel : forall q,
          q_where q = [fg; ownerFieldStatementBuilder this u] ->
          List.filter (evalQuery q) (map snd (map_to_list (db w1)))
          = List.filter
              (fun row => passesFilters this (li_filter input) row
                          && ownsRow this u row)
              (map snd (map_to_list (db w1)))).
        { intros q Hq. apply List.filter_ext. intros row.
          apply evalQuery_owner; try done. by rewrite Hq, Hfg'. }
        assert (Hdef : forall q,
          q_where q = [fg; ownerFieldStatementBuilder this u] ->
          undefinedBinding q = false).
        { intros q Hq.
          rewrite (undefinedBinding_owner this (li_filter input) u q)
            by (by rewrite Hq, Hfg').
          apply andb_false_iff. right. by destruct (prop u "id"). }
        unfold andWhere.
        replace (if added
                 then where_ (where_ {| q_where := []; q_skipUndefined := false;
                                        q_orderBy := []; q_eager := None |} fg)
                        (ownerFieldStatementBuilder this u)
                 else where_ (where_ {| q_where := []; q_skipUndefined := false;
                                        q_orderBy := []; q_eager := None |} fg)
                        (ownerFieldStatementBuilder this u))
          with {| q_where := [fg; ownerFieldStatementBuilder this u];
                  q_skipUndefined := false; q_orderBy := []; q_eager := None |}
          by (by destruct added).
        unfold runQuery.
        destruct (eagerResolvesFor this info) as [rels|];
          destruct (li_sorting input) as [sorting|];
          try destruct (nonEmpty (listingSortableFields this));
          try destruct (sortingToOrdering this sorting) as [|o os] eqn:Hord;
          cbn [nonEmpty length Nat.eqb negb eager orderBy skipUndefined];
          (rewrite Hdef by reflexivity);
          cbn [q_where q_skipUndefined q_orderBy q_eager];
          (rewrite Hsel by reflexivity);
          match goal with
          | |- context [addInstancesToContext this ?l w1] =>
              destruct (addInstancesToContext_total this l w1) as (w2 & -> & _)
          end;
          cbn [fst]; by rewrite Hredact.
      * assert (Hsel : forall q,
          q_where q = [fg] ->
          List.filter (evalQuery q) (map snd (map_to_list (db w1)))
          = List.filter
              (fun row => passesFilters this (li_filter input) row && true)
              (map snd (map_to_list (db w1)))).
        { intros q Hq. apply List.filter_ext. intros row.
          apply evalQuery_plain; try done. by rewrite Hq, Hfg'. }
        assert (Hdef : forall q, q_where q = [fg] -> undefinedBinding q = false).
        { intros q Hq.
          apply (undefinedBinding_plain this (li_filter input) q).
          by rewrite Hq, Hfg'. }
        unfold runQuery.
        destruct (eagerResolvesFor this info) as [rels|];
          destruct (li_sorting input) as [sorting|];
          try destruct (nonEmpty (listingSortableFields this));
          try destruct (sortingToOrdering this sorting) as [|o os] eqn:Hord;
          cbn [nonEmpty length Nat.eqb negb eager orderBy skipUndefined where_
                 push app q_where];
          (rewrite Hdef by reflexivity);
          cbn [q_where q_skipUndefined q_orderBy q_eager];
          (rewrite Hsel by reflexivity);
          match goal with
          | |- context [addInstancesToContext this ?l w1] =>
              destruct (addInstancesToContext_total this l w1) as (w2 & -> & _)
          end;
          cbn [fst]; by rewrite Hredact.
    + intros Hid Hne.
      assert (Hown : nonEmpty (ownerFields this) = true) by (by apply nonEmpty_true).
      rewrite Hown.
      assert (Hundef : forall q,
        q_where q = [fg; ownerFieldStatementBuilder this u] ->
        undefinedBinding q = true).
      { intros q Hq.
        rewrite (undefinedBinding_owner this (li_filter input) u q)
          by (by rewrite Hq, Hfg').
        rewrite Hown. by rewrite Hid. }
      unfold andWhere.
      replace (if added
               then where_ (where_ {| q_where := []; q_skipUndefined := false;
                                      q_orderBy := []; q_eager := None |} fg)
                      (ownerFieldStatementBuilder this u)
               else where_ (where_ {| q_where := []; q_skipUndefined := false;
                                      q_orderBy := []; q_eager := None |} fg)
                      (ownerFieldStatementBuilder this u))
        with {| q_where := [fg; ownerFieldStatementBuilder this u];
                q_skipUndefined := false; q_orderBy := []; q_eager := None |}
        by (by destruct added).
      unfold runQuery.
      destruct (eagerResolvesFor this info) as [rels|];
        destruct (li_sorting input) as [sorting|];
        try destruct (nonEmpty (listingSortableFields this));
        try destruct (sortingToOrdering this sorting) as [|o os] eqn:Hord;
        cbn [nonEmpty length Nat.eqb negb eager orderBy skipUndefined];
        by (rewrite Hundef by reflexivity).
Qed.

(** With the [owner] restriction and two rows of which the caller owns
    one, the listing is exactly that row; an identity without an id is
    answered with the storage engine's error. *)
Lemma list_owner_constraint_witness :
  fst (list_ ListSample.this ListSample.input ["id"; "title"]
         (Sample.world (Some "u1")))
  = Return [ <["id" := VStr "i1"]> {["title" := VStr "x"]} ]
  /\ fst (list_ ListSample.this ListSample.input ["id"; "title"]
            RuleSample.namelessWorld)
     = Throw StorageError.
Proof.
  assert (Hall : "all" ∉ ["owner"]).
  { intros H. apply list_elem_of_In in H. cbn in H.
    destruct H as [H|[]]. discriminate. }
  split.
  - destruct (list_owner_constraint ListSample.this ListSample.input
                ["id"; "title"] (Sample.world (Some "u1")) _ (Some Sample.alice)
                ListSample.ownerOnly ["owner"] eq_refl eq_refl eq_refl eq_refl Hall)
      as [_ Hsome].
    destruct (Hsome Sample.alice eq_refl) as (Hrows & _ & _).
    rewrite (Hrows (or_introl eq_refl)).
    vm_compute. reflexivity.
  - destruct (list_owner_constraint ListSample.this ListSample.input
                ["id"; "title"] RuleSample.namelessWorld _
                (Some RuleSample.nameless)
                ListSample.ownerOnly ["owner"] eq_refl eq_refl eq_refl eq_refl Hall)
      as [_ Hsome].
    destruct (Hsome RuleSample.nameless eq_refl) as (_ & Hfail & _).
    apply Hfail; [reflexivity|discriminate].
Defined.

(** * Further properties *)

(** ** Computations that only read *)

Lemma sameStore_refl {E} (w : World E) : sameStore w w.
Proof. by unfold sameStore. Qed.

Lemma sameStore_trans {E} (w1 w2 w3 : World E) :
  sameStore w1 w2 -> sameStore w2 w3 -> sameStore w1 w3.
Proof. unfold sameStore. intros (? & ? & ?) (? & ? & ?). split_and!; congruence. Qed.

Lemma readOnly_ret {E A} (a : A) : readOnly (mret a : M E A).
Proof. intros w r w' [= _ <-]. apply sameStore_refl. Qed.

Lemma readOnly_throw {E A} (e : JsError) : readOnly (throw e : M E A).
Proof. intros w r w' [= _ <-]. apply sameStore_refl. Qed.

Lemma readOnly_bind {E A B} (m : M E A) (f : A -> M E B) :
  readOnly m -> (forall a, readOnly (f a)) -> readOnly (m ≫= f).
Proof.
  intros Hm Hf w r w'. unfold mbind, M_bind.
  destruct (m w) as [[a|e] w1] eqn:Hmw.
  - intros Hfw. eapply sameStore_trans; [by eapply Hm|by eapply Hf].
  - intros [= _ <-]. by eapply Hm.
Qed.

Lemma readOnly_catch {E A} (m : M E A) (h : JsError -> M E A) :
  readOnly m -> (forall e, readOnly (h e)) -> readOnly (catch m h).
Proof.
  intros Hm Hh w r w'. unfold catch.
  destruct (m w) as [[a|e] w1] eqn:Hmw.
  - intros [= _ <-]. by eapply Hm.
  - intros Hhw. eapply sameStore_trans; [by eapply Hm|by eapply Hh].
Qed.

Lemma readOnly_find {E} (this : InstanceResolver) (id : value)
  (rels : option (list (option string))) :
  readOnly (find (E:=E) this id rels).
Proof. intros w r w' H. apply find_world in H as ->. apply sameStore_refl. Qed.

Lemma readOnly_resolveUserForContext {E} (this : InstanceResolver) :
  readOnly (resolveUserForContext (E:=E) this).
Proof.
  intros w r w' H. apply resolveUserForContext_world in H.
  unfold sameStore. tauto.
Qed.

Lemma readOnly_addInstancesToContext {E} (this : InstanceResolver)
  (l : list (gmap string value)) :
  readOnly (addInstancesToContext (E:=E) this l).
Proof.
  intros w r w' H.
  destruct (addInstancesToContext_total this l w) as (w0 & Hw & ? & ? & ? & _).
  rewrite Hw in H. injection H as _ <-. by unfold sameStore.
Qed.

Lemma readOnly_runQuery {E} (this : InstanceResolver) (q : Query) :
  readOnly (runQuery (E:=E) this q).
Proof.
  intros w r w'. unfold runQuery.
  destruct (undefinedBinding q); intros [= _ <-]; apply sameStore_refl.
Qed.

Lemma readOnly_engineRead {E A} (f : E -> Outcome A) :
  readOnly (engineRead f).
Proof. intros w r w'. unfold engineRead. intros [= _ <-]. apply sameStore_refl. Qed.

Ltac read_only :=
  repeat first
    [ apply readOnly_ret
    | apply readOnly_throw
    | apply readOnly_find
    | apply readOnly_resolveUserForContext
    | apply readOnly_addInstancesToContext
    | apply readOnly_runQuery
    | apply readOnly_engineRead
    | apply readOnly_bind; [|intros ?]
    | apply readOnly_catch; [|intros ?]
    | match goal with
      | |- readOnly (match ?x with _ => _ end) => destruct x
      | |- readOnly (if ?x then _ else _) => destruct x
      | |- readOnly (let '(_, _) := ?x in _) => destruct x
      end ].

(** X1.  [get], [list] and [getTasks] only read: whatever they return or
    throw, the stored rows, the state of the workflow engine and the trace
    of effects are as before (only the request context may change). *)
Theorem reads_change_nothing `{rt : JsRuntime} {E} (camunda : WorkflowService E)
  (this : InstanceResolver) (id : string) (input : ListInput)
  (info : list string) :
  readOnly (get (E:=E) this id info)
  /\ readOnly (list_ (E:=E) this input info)
  /\ readOnly (getTasks camunda this id).
Proof.
  split; [|split].
  - unfold get. read_only.
  - unfold list_. read_only.
  - unfold getTasks. read_only.
Qed.

(** ** Listing the tasks of an instance *)

Lemma getTasks_gate_passed {E} (camunda : WorkflowService E)
  (this : InstanceResolver) (id : string) (w w1 : World E)
  (obj : gmap string value) (user : option (gmap string value)) :
  db w !! id = Some obj ->
  resolveUserForContext this w = (Return user, w1) ->
  (forall m, taskMatch this user obj = Some m -> allow m = true) ->
  getTasks camunda this id w
  = catch
      (data ← engineRead (taskService_list camunda id);
       match embeddedTasks data with
       | None => throw TypeError
       | Some tasks =>
           mret (List.filter
                   (fun t => taskAdmitted (taskMatch this user obj)
                               (taskDefinitionKey t))
                   (map stripLinks tasks))
       end)
      (fun err =>
         throw (Error "Unable to fetch tasks for instance due to business engine error."))
      w1.
Proof.
  intros Hdb Huser Hgate. unfold getTasks.
  unfold mbind at 1. unfold M_bind at 1.
  assert (Hfind : find this (VStr id) None w = (Return (Some obj), w))
    by (unfold find; by rewrite Hdb).
  rewrite Hfind. unfold mbind at 1. unfold M_bind at 1. rewrite Huser.
  unfold taskMatch, taskAdmitted in *.
  destruct (acl this) as [a|].
  - destruct (userToAclTargets this user (Some obj)) as [targets own].
    cbn [fst] in *. unfold mbind at 1. unfold M_bind at 1.
    rewrite (Hgate _ eq_refl). cbn [negb]. unfold mret at 1, M_ret at 1.
    unfold catch. munfold.
    destruct (taskService_list camunda id (engine w1)) as [data|e];
      [|reflexivity].
    destruct (embeddedTasks data) as [tasks|]; [|reflexivity].
    cbn [option_bind].
    destruct (allowedTasks (applyRules a targets Task (Some obj)));
      [reflexivity|].
    by rewrite filter_all.
  - unfold catch. munfold.
    destruct (taskService_list camunda id (engine w1)) as [data|e];
      [|reflexivity].
    destruct (embeddedTasks data) as [tasks|]; [|reflexivity].
    cbn [option_bind]. by rewrite filter_all.
Qed.

(** X2.  Once its task gate is passed (the access action is not
    consulted), [getTasks] returns exactly the tasks the engine lists for
    the instance whose definition key the task match admits, in the
    engine's order, each with the engine's link and embedding metadata
    removed. *)
Theorem getTasks_filtered {E} (camunda : WorkflowService E)
  (this : InstanceResolver) (id : string) (w w1 : World E)
  (obj : gmap string value) (user : option (gmap string value))
  (data : TaskListData) (tasks : list WfTask) :
  db w !! id = Some obj ->
  resolveUserForContext this w = (Return user, w1) ->
  (forall m, taskMatch this user obj = Some m -> allow m = true) ->
  taskService_list camunda id (engine w1) = Return data ->
  embeddedTasks data = Some tasks ->
  exists result,
    fst (getTasks camunda this id w) = Return result
    /\ map task_id result
       = map task_id
           (List.filter
              (fun t => taskAdmitted (taskMatch this user obj) (taskDefinitionKey t))
              tasks)
    /\ (forall t, t ∈ result <->
          exists t0, t0 ∈ tasks /\ t = stripLinks t0
                     /\ taskAdmitted (taskMatch this user obj)
                          (taskDefinitionKey t0) = true)
    /\ (forall t, t ∈ result -> _links t = None /\ _embedded t = None).
Proof.
  intros Hdb Huser Hgate Hlist Htasks.
  set (keeps := fun t : WfTask =>
                  taskAdmitted (taskMatch this user obj) (taskDefinitionKey t)).
  exists (List.filter keeps (map stripLinks tasks)).
  assert (Hmem : forall t, t ∈ List.filter keeps (map stripLinks tasks) <->
            exists t0, t0 ∈ tasks /\ t = stripLinks t0 /\ keeps t0 = true).
  { intros t. rewrite elem_of_filter_bool, list_elem_of_fmap. split.
    - intros [(t0 & -> & Hin) Ha]. by exists t0.
    - intros (t0 & Hin & -> & Ha). split; [by exists t0|exact Ha]. }
  split_and!.
  - rewrite (getTasks_gate_passed camunda this id w w1 obj user Hdb Huser Hgate).
    unfold catch. munfold. rewrite Hlist, Htasks. reflexivity.
  - clear Hmem. induction tasks as [|t ts IH] in |- *; [done|].
    cbn [map List.filter].
    change (keeps (stripLinks t)) with (keeps t).
    destruct (keeps t); cbn [map]; by rewrite IH.
  - exact Hmem.
  - intros t Ht. apply Hmem in Ht as (t0 & _ & -> & _). done.
Qed.

(** Of the two tasks the engine lists, only the admitted [review] task is
    returned, without its links. *)
Lemma getTasks_filtered_witness :
  exists result,
    fst (getTasks MoreSample.engineOf (Sample.resolver (Some MoreSample.reviewOnly))
           "i1" (MoreSample.world (Some "u1") []))
    = Return result
    /\ map task_id result = ["t1"]
    /\ (forall t, t ∈ result -> _links t = None /\ _embedded t = None).
Proof.
  destruct (getTasks_filtered MoreSample.engineOf
              (Sample.resolver (Some MoreSample.reviewOnly)) "i1"
              (MoreSample.world (Some "u1") []) _ Sample.row1 (Some Sample.alice)
              _ _ eq_refl eq_refl
              (fun m Hm => match Hm in _ = y return
                                 match y with Some m' => allow m' = true | None => True end
                           with eq_refl => eq_refl end)
              eq_refl eq_refl)
    as (result & Hres & Hids & _ & Hlinks).
  exists result. split; [exact Hres|]. split; [exact Hids|exact Hlinks].
Defined.

(** X3.  When the engine's task listing fails, or its answer carries no
    task array, a [getTasks] that passed its gate fails with the one
    generic [Error]: the engine's own error is not surfaced, and nothing
    is changed. *)
Theorem getTasks_engine_failure {E} (camunda : WorkflowService E)
  (this : InstanceResolver) (id : string) (w w1 : World E)
  (obj : gmap string value) (user : option (gmap string value)) :
  db w !! id = Some obj ->
  resolveUserForContext this w = (Return user, w1) ->
  (forall m, taskMatch this user obj = Some m -> allow m = true) ->
  (exists e, taskService_list camunda id (engine w1) = Throw e)
  \/ (exists data, taskService_list camunda id (engine w1) = Return data
                   /\ embeddedTasks data = None) ->
  getTasks camunda this id w
  = (Throw (Error "Unable to fetch tasks for instance due to business engine error."),
     w1).
Proof.
  intros Hdb Huser Hgate Hfail.
  rewrite (getTasks_gate_passed camunda this id w w1 obj user Hdb Huser Hgate).
  unfold catch. munfold.
  destruct Hfail as [[e ->]|(data & -> & ->)]; reflexivity.
Qed.

(** With the engine down, the caller sees the generic error. *)
Lemma getTasks_engine_failure_witness :
  fst (getTasks MoreSample.down (Sample.resolver None) "i1" MoreSample.downWorld)
  = Throw (Error "Unable to fetch tasks for instance due to business engine error.").
Proof.
  assert (Hgate : forall m,
            taskMatch (Sample.resolver None) (Some Sample.alice) Sample.row1
            = Some m -> allow m = true)
    by (intros m Hm; discriminate Hm).
  rewrite (getTasks_engine_failure MoreSample.down (Sample.resolver None) "i1"
             MoreSample.downWorld _ Sample.row1 (Some Sample.alice)
             eq_refl eq_refl Hgate
             (or_introl (ex_intro _ (TransportError "ECONNREFUSED") eq_refl))).
  reflexivity.
Defined.

(** ** Applying state changes *)

Lemma strict_eq_eq (a b : value) : strict_eq a b = true -> a = b.
Proof.
  destruct a, b; cbn; try discriminate; try reflexivity.
  - intros H. apply Bool.eqb_prop in H. by subst.
  - intros H. apply Z.eqb_eq in H. by subst.
  - intros H. apply String.eqb_eq in H. by subst.
Qed.

Lemma fold_left_pointwise {A B : Type} (f g : A -> B -> A) (l : list B) (a : A) :
  (forall x y, f x y = g x y) -> fold_left f l a = fold_left g l a.
Proof.
  intros Hfg. revert a. induction l as [|y l IH]; intros a; cbn; [done|].
  by rewrite Hfg, IH.
Qed.

Lemma applyState_steps (fs : jsobj) (o : gmap string value) :
  applyState fs o = fold_left (stateStep fs) (okeys fs) (o, false).
Proof.
  unfold applyState. apply fold_left_pointwise. intros [object d] key.
  reflexivity.
Qed.

Lemma prop_insert_eq (o : gmap string value) (k : string) (v : value) :
  prop (<[k := v]> o) k = v.
Proof. unfold prop. by rewrite lookup_insert_eq. Qed.

Lemma prop_insert_ne (o : gmap string value) (k k' : string) (v : value) :
  k <> k' -> prop (<[k := v]> o) k' = prop o k'.
Proof. intros H. unfold prop. by rewrite lookup_insert_ne. Qed.

Lemma steps_other (fs : jsobj) (ks : list string)
  (acc : gmap string value * bool) (k : string) :
  k ∉ ks -> fst (fold_left (stateStep fs) ks acc) !! k = fst acc !! k.
Proof.
  revert acc. induction ks as [|k0 ks IH]; intros acc Hk; cbn [fold_left]; [done|].
  apply not_elem_of_cons in Hk as [Hne Hk]. rewrite IH by done.
  unfold stateStep. destruct (negb _); cbn [fst]; [|done].
  by rewrite lookup_insert_ne.
Qed.

Lemma steps_assigned (fs : jsobj) (ks : list string)
  (acc : gmap string value * bool) (k : string) :
  k ∈ ks \/ prop (fst acc) k = oprop fs k ->
  prop (fst (fold_left (stateStep fs) ks acc)) k = oprop fs k.
Proof.
  revert acc. induction ks as [|k0 ks IH]; intros acc Hk; cbn [fold_left].
  - destruct Hk as [Hk|Hk]; [inversion Hk|exact Hk].
  - apply IH.
    destruct (decide (k = k0)) as [->|Hne].
    + right. unfold stateStep.
      destruct (strict_eq (prop (fst acc) k0) (oprop fs k0)) eqn:Heq; cbn [negb fst].
      * by apply strict_eq_eq.
      * apply prop_insert_eq.
    + destruct Hk as [Hk|Hk].
      * apply elem_of_cons in Hk as [?|Hk]; [done|by left].
      * right. unfold stateStep. destruct (negb _); cbn [fst]; [|done].
        by rewrite prop_insert_ne.
Qed.

Lemma steps_unchanged (fs : jsobj) (ks : list string)
  (o : gmap string value) (d : bool) :
  (forall k, k ∈ ks -> strict_eq (prop o k) (oprop fs k) = true) ->
  fold_left (stateStep fs) ks (o, d) = (o, d).
Proof.
  induction ks as [|k0 ks IH]; intros Hsame; cbn [fold_left]; [done|].
  unfold stateStep at 2. cbn [fst snd].
  rewrite (Hsame k0) by constructor. cbn [negb].
  apply IH. intros k Hk. apply Hsame. by constructor.
Qed.

Lemma steps_modified_mono (fs : jsobj) (ks : list string)
  (o : gmap string value) :
  snd (fold_left (stateStep fs) ks (o, true)) = true.
Proof.
  revert o. induction ks as [|k0 ks IH]; intros o; cbn [fold_left]; [done|].
  unfold stateStep at 2. cbn [fst snd]. destruct (negb _); apply IH.
Qed.

Lemma steps_modified (fs : jsobj) (ks : list string)
  (o : gmap string value) (d : bool) (k : string) :
  k ∈ ks -> strict_eq (prop o k) (oprop fs k) = false ->
  snd (fold_left (stateStep fs) ks (o, d)) = true.
Proof.
  revert o d. induction ks as [|k0 ks IH]; intros o d Hk Hdiff; [inversion Hk|].
  cbn [fold_left]. unfold stateStep at 2. cbn [fst snd].
  destruct (strict_eq (prop o k0) (oprop fs k0)) eqn:Heq; cbn [negb].
  - apply elem_of_cons in Hk as [->|Hk]; [congruence|]. by apply IH.
  - apply steps_modified_mono.
Qed.

Lemma applyStateVars_fold_instance (fs : jsobj) (ks : list string)
  (o : gmap string value) (d : bool) (vars : gmap string value) :
  fst (fold_left
         (fun '(instance, didModify, newVars) key =>
            let value := oprop fs key in
            let '(instance, didModify) :=
              if negb (strict_eq (prop instance key) value)
              then (<[key := value]> instance, true)
              else (instance, didModify) in
            if String.eqb (typeof value) "string"
               || String.eqb (typeof value) "number" || strict_eq value VNull
            then (instance, didModify, <[key := VObj [("value", value)]]> newVars)
            else (instance, didModify, newVars))
         ks (o, d, vars))
  = fold_left (stateStep fs) ks (o, d).
Proof.
  revert o d vars. induction ks as [|k ks IH]; intros o d vars; cbn [fold_left].
  - reflexivity.
  - unfold stateStep at 2. cbn [fst snd].
    destruct (negb (strict_eq (prop o k) (oprop fs k)));
      destruct (_ || _); apply IH.
Qed.

Lemma applyStateVars_instance (fs : jsobj) (o : gmap string value) :
  fst (applyStateVars fs o) = applyState fs o.
Proof.
  unfold applyStateVars. rewrite applyState_steps.
  apply applyStateVars_fold_instance.
Qed.

(** The keys and values that survive the state filter are those the
    request gives to declared state fields. *)
Lemma filterState_requested (this : InstanceResolver) (state : option jsobj)
  (k : string) (v : value) :
  (exists fs, filterState this state = Some fs /\ oget fs k = Some v)
  <-> requestedState this state k v.
Proof.
  unfold filterState, requestedState, declaredStateField.
  set (allowedKeys := map (fun e => keyOf (field e)) (stateFields this)).
  assert (Hdecl : k ∈ allowedKeys
                  <-> exists e, e ∈ stateFields this /\ keyOf (field e) = k).
  { unfold allowedKeys. rewrite list_elem_of_fmap.
    split; intros (e & H1 & H2); exists e; done. }
  split.
  - intros (fs & Hfs & Hget). destruct state as [st|]; [|discriminate].
    destruct (nonEmpty allowedKeys); [|discriminate].
    injection Hfs as <-. apply pickEntries_spec in Hget as [Hin Hget].
    split; [by apply Hdecl|]. by exists st.
  - intros [Hd (st & -> & Hget)]. apply Hdecl in Hd.
    assert (Hne : nonEmpty allowedKeys = true).
    { apply nonEmpty_true. intros Hnil. rewrite Hnil in Hd. inversion Hd. }
    rewrite Hne. eexists. split; [reflexivity|]. by apply pickEntries_spec.
Qed.

Lemma stateOutcome_assigned (this : InstanceResolver) (state : option jsobj)
  (obj : gmap string value) (k : string) (v : value) :
  requestedState this state k v ->
  prop (fst (stateOutcome this state obj)) k = v.
Proof.
  intros Hreq. apply filterState_requested in Hreq as (fs & Hfs & Hget).
  unfold stateOutcome. rewrite Hfs.
  assert (Hin : k ∈ okeys fs) by (apply oget_okeys; eauto).
  assert (Hne : nonEmpty (okeys fs) = true).
  { apply nonEmpty_true. intros Hnil. rewrite Hnil in Hin. inversion Hin. }
  rewrite Hne, applyState_steps.
  rewrite steps_assigned by (by left). unfold oprop. by rewrite Hget.
Qed.

Lemma stateOutcome_other (this : InstanceResolver) (state : option jsobj)
  (obj : gmap string value) (k : string) :
  (forall v, ~ requestedState this state k v) ->
  fst (stateOutcome this state obj) !! k = obj !! k.
Proof.
  intros Hnot. unfold stateOutcome.
  destruct (filterState this state) as [fs|] eqn:Hfs; [|done].
  destruct (nonEmpty (okeys fs)); [|done].
  rewrite applyState_steps, steps_other; [done|].
  intros Hin. apply oget_okeys in Hin as [v Hv].
  apply (Hnot v). apply filterState_requested. eauto.
Qed.

Lemma forallb_false_ex {A : Type} (f : A -> bool) (l : list A) :
  forallb f l = false -> exists x, x ∈ l /\ f x = false.
Proof.
  induction l as [|x l IH]; cbn; [discriminate|].
  destruct (f x) eqn:Hx; cbn.
  - intros H. destruct (IH H) as (y & Hy & Hfy). exists y. split; [by constructor|done].
  - intros _. exists x. split; [constructor|done].
Qed.

Lemma stateOutcome_modified (this : InstanceResolver) (state : option jsobj)
  (obj : gmap string value) :
  snd (stateOutcome this state obj) = true
  <-> exists k v, requestedState this state k v
                  /\ strict_eq (prop obj k) v = false.
Proof.
  unfold stateOutcome. split.
  - destruct (filterState this state) as [fs|] eqn:Hfs; [|discriminate].
    destruct (nonEmpty (okeys fs)); [|discriminate].
    rewrite applyState_steps. intros Hmod.
    destruct (forallb (fun k => strict_eq (prop obj k) (oprop fs k)) (okeys fs))
      eqn:Hall.
    + rewrite steps_unchanged in Hmod; [discriminate|].
      intros k Hk. rewrite forallb_forall in Hall. apply Hall.
      by apply list_elem_of_In.
    + apply forallb_false_ex in Hall as (k & Hin & Hk).
      pose proof Hin as Hin'. apply oget_okeys in Hin' as [v Hv].
      exists k, v. split.
      * apply filterState_requested. eauto.
      * unfold oprop in Hk. by rewrite Hv in Hk.
  - intros (k & v & Hreq & Hdiff).
    apply filterState_requested in Hreq as (fs & -> & Hget).
    assert (Hin : k ∈ okeys fs) by (apply oget_okeys; eauto).
    assert (Hne : nonEmpty (okeys fs) = true).
    { apply nonEmpty_true. intros Hnil. rewrite Hnil in Hin. inversion Hin. }
    rewrite Hne, applyState_steps.
    apply (steps_modified fs (okeys fs) obj false k Hin).
    unfold oprop. by rewrite Hget.
Qed.

(** ** Destroying an instance *)

Lemma save_accepted {E} (this : InstanceResolver) (o : gmap string value)
  (id : string) (w : World E) :
  prop o "id" = VStr id ->
  accepts (modelClass this) o = true ->
  save this o w
  = (Return (), withDb (withEffect w (ESave o)) (<[id := o]> (db w))).
Proof.
  intros Hid Hacc. unfold save. munfold. rewrite Hid, Hacc. reflexivity.
Qed.

Lemma stateOutcome_unmodified (this : InstanceResolver) (state : option jsobj)
  (obj : gmap string value) :
  snd (stateOutcome this state obj) = false ->
  stateOutcome this state obj = (obj, false).
Proof.
  intros Hsnd.
  assert (Hsame : forall k v, requestedState this state k v ->
                              strict_eq (prop obj k) v = true).
  { intros k v Hreq. destruct (strict_eq (prop obj k) v) eqn:Heq; [done|].
    assert (Hmod : snd (stateOutcome this state obj) = true)
      by (apply stateOutcome_modified; eauto).
    congruence. }
  unfold stateOutcome in *.
  destruct (filterState this state) as [fs|] eqn:Hfs; [|done].
  destruct (nonEmpty (okeys fs)); [|done].
  rewrite applyState_steps. apply steps_unchanged.
  intros k Hk. apply oget_okeys in Hk as [v Hv].
  unfold oprop. rewrite Hv. apply Hsame.
  apply filterState_requested. eauto.
Qed.

Lemma destroyPrepare_granted {E} (this : InstanceResolver) (input : DestroyInput)
  (w w1 : World E) (obj : gmap string value)
  (user : option (gmap string value)) :
  db w !! di_id input = Some obj ->
  resolveUserForContext this w = (Return user, w1) ->
  destroyGranted this user obj ->
  destroyPrepare this input w
  = (if snd (stateOutcome this (di_state input) obj)
     then save this (fst (stateOutcome this (di_state input) obj))
     else mret ()) w1.
Proof.
  intros Hdb Huser Hgate. unfold destroyPrepare.
  assert (Hfind : find this (VStr (di_id input)) None w = (Return (Some obj), w))
    by (unfold find; by rewrite Hdb).
  unfold mbind at 1. unfold M_bind at 1. rewrite Hfind.
  unfold mbind at 1. unfold M_bind at 1. rewrite Huser.
  assert (Hstate :
    match filterState this (di_state input) with
    | Some filteredState =>
        if nonEmpty (okeys filteredState)
        then let '(object, didModify) := applyState filteredState obj in
             if didModify then save this object else mret ()
        else mret ()
    | None => mret ()
    end
    = (if snd (stateOutcome this (di_state input) obj)
       then save this (fst (stateOutcome this (di_state input) obj))
       else mret () : M E unit)).
  { unfold stateOutcome.
    destruct (filterState this (di_state input)) as [fs|]; [|done].
    destruct (nonEmpty (okeys fs)); [|done].
    by destruct (applyState fs obj) as [o []]. }
  rewrite Hstate. unfold destroyGranted, actionGranted in Hgate.
  destruct (acl this) as [a|]; [|reflexivity].
  destruct (userToAclTargets this user (Some obj)) as [targets own].
  cbn [fst snd] in Hgate. destruct Hgate as (Ha & Hr & Hd).
  unfold mbind at 1. unfold M_bind at 1.
  by rewrite Ha, Hr, Hd.
Qed.

Lemma teardown_db `{rt : JsRuntime} {E} (camunda : WorkflowService E) (this : InstanceResolver)
  (input : DestroyInput) (w : World E) :
  db (snd (teardown camunda this input w)) = db w.
Proof.
  unfold teardown. munfold.
  destruct (processInstanceService_list camunda _ _ (engine w)) as [data|e];
    [|reflexivity].
  destruct data as [|p data]; [reflexivity|].
  destruct (_ && _); [|reflexivity]. cbn.
  by destruct (processInstanceService_del camunda (pi_id p) (engine w)).1.
Qed.

(** X4.  The state change of a [destroy] that passes its gates: the row
    stored afterwards gives every declared state field named in the
    request its requested value and is otherwise the row loaded (keys of
    the request that are not declared state fields are never written),
    and no other row changes -- whatever the workflow teardown does next. *)
Theorem destroy_persists_state `{rt : JsRuntime} {E} (camunda : WorkflowService E)
  (this : InstanceResolver) (input : DestroyInput) (w w1 : World E)
  (obj : gmap string value) (user : option (gmap string value)) :
  db w !! di_id input = Some obj ->
  prop obj "id" = VStr (di_id input) ->
  resolveUserForContext this w = (Return user, w1) ->
  destroyGranted this user obj ->
  accepts (modelClass this) (fst (stateOutcome this (di_state input) obj)) = true ->
  (forall v, ~ requestedState this (di_state input) "id" v) ->
  exists obj',
    db (snd (destroy camunda this input w)) !! di_id input = Some obj'
    /\ (forall k v, requestedState this (di_state input) k v -> prop obj' k = v)
    /\ (forall k, (forall v, ~ requestedState this (di_state input) k v) ->
                  obj' !! k = obj !! k)
    /\ (forall id', id' <> di_id input ->
                    db (snd (destroy camunda this input w)) !! id' = db w !! id').
Proof.
  intros Hdb Hid Huser Hgate Hacc Hnoid.
  set (out := stateOutcome this (di_state input) obj) in *.
  destruct (resolveUserForContext_world _ _ _ _ Huser) as (Hdb1 & _).
  exists (fst out).
  assert (Hprep : exists w2,
    destroyPrepare this input w = (Return (), w2)
    /\ db w2 !! di_id input = Some (fst out)
    /\ forall id', id' <> di_id input -> db w2 !! id' = db w !! id').
  { rewrite (destroyPrepare_granted this input w w1 obj user Hdb Huser Hgate).
    fold out. destruct (snd out) eqn:Hmod.
    - assert (Hid' : prop (fst out) "id" = VStr (di_id input)).
      { unfold prop. subst out. rewrite stateOutcome_other by exact Hnoid.
        exact Hid. }
      rewrite (save_accepted this (fst out) (di_id input) w1 Hid' Hacc).
      eexists. split; [reflexivity|]. cbn [db withDb withEffect]. split.
      + apply lookup_insert_eq.
      + intros id' Hne. rewrite lookup_insert_ne by done. by rewrite Hdb1.
    - exists w1. split; [reflexivity|].
      subst out. rewrite (stateOutcome_unmodified _ _ _ Hmod). cbn [fst].
      rewrite Hdb1. split; [exact Hdb|done]. }
  destruct Hprep as (w2 & Hprep & Hrow & Hothers).
  assert (Hdestroy : db (snd (destroy camunda this input w)) = db w2).
  { unfold destroy. unfold mbind, M_bind. rewrite Hprep. apply teardown_db. }
  rewrite Hdestroy. split_and!.
  - exact Hrow.
  - intros k v Hreq. by apply stateOutcome_assigned.
  - intros k Hk. by apply stateOutcome_other.
  - exact Hothers.
Qed.

(** The request sets the declared [phase] and names the undeclared
    [title]: the stored row gets the phase and keeps its title. *)
Lemma destroy_persists_state_witness :
  exists obj',
    db (snd (destroy MoreSample.engineOf (Sample.resolver None)
               MoreSample.destroyInput (MoreSample.world (Some "u1") [])))
      !! "i1" = Some obj'
    /\ prop obj' "phase" = VStr "destroyed"
    /\ obj' !! "title" = Sample.row1 !! "title".
Proof.
  assert (Hphase : requestedState (Sample.resolver None)
                     (di_state MoreSample.destroyInput) "phase" (VStr "destroyed")).
  { split.
    - exists (Sample.el "phase"). split; [|reflexivity].
      apply list_elem_of_In. left. reflexivity.
    - eexists. split; reflexivity. }
  assert (Hundeclared : forall k, k = "id" \/ k = "title" ->
            forall v, ~ requestedState (Sample.resolver None)
                          (di_state MoreSample.destroyInput) k v).
  { intros k Hk v [(e & He & Hkey) _]. apply list_elem_of_In in He. cbn in He.
    destruct He as [<-|[<-|[]]]; cbn in Hkey; destruct Hk; congruence. }
  destruct (destroy_persists_state MoreSample.engineOf (Sample.resolver None)
              MoreSample.destroyInput (MoreSample.world (Some "u1") []) _
              Sample.row1 (Some Sample.alice) eq_refl eq_refl eq_refl I eq_refl
              (Hundeclared "id" (or_introl eq_refl)))
    as (obj' & Hrow & Hset & Hkeep & _).
  exists obj'. split; [exact Hrow|]. split.
  - by apply Hset.
  - apply Hkeep. apply Hundeclared. by right.
Defined.

(** X5.  A [destroy] that passes its gates saves the instance exactly when
    the request gives some declared state field a value that differs
    (strictly) from the stored one: with no such field the steps before
    the teardown change nothing, otherwise they issue one save of the
    changed instance. *)
Theorem destroy_saves_only_changes {E} (this : InstanceResolver)
  (input : DestroyInput) (w w1 : World E) (obj : gmap string value)
  (user : option (gmap string value)) :
  db w !! di_id input = Some obj ->
  resolveUserForContext this w = (Return user, w1) ->
  destroyGranted this user obj ->
  ((forall k v, requestedState this (di_state input) k v ->
                strict_eq (prop obj k) v = true) ->
   destroyPrepare this input w = (Return (), w1))
  /\ ((exists k v, requestedState this (di_state input) k v
                   /\ strict_eq (prop obj k) v = false) ->
      trace (snd (destroyPrepare this input w))
      = push (trace w) (ESave (fst (stateOutcome this (di_state input) obj)))).
Proof.
  intros Hdb Huser Hgate.
  destruct (resolveUserForContext_world _ _ _ _ Huser) as (_ & _ & Htr & _).
  rewrite (destroyPrepare_granted this input w w1 obj user Hdb Huser Hgate).
  split.
  - intros Hsame.
    destruct (snd (stateOutcome this (di_state input) obj)) eqn:Hmod; [|done].
    apply stateOutcome_modified in Hmod as (k & v & Hreq & Hdiff).
    rewrite (Hsame k v Hreq) in Hdiff. discriminate.
  - intros Hdiff. apply stateOutcome_modified in Hdiff. rewrite Hdiff.
    destruct (save_trace this (fst (stateOutcome this (di_state input) obj)) w1)
      as [-> _].
    by rewrite Htr.
Qed.

(** Asking again for the phase the instance already has saves nothing. *)
Lemma destroy_saves_only_changes_witness :
  let w := {| db := <["i1" := <["phase" := VStr "destroyed"]> Sample.row1]> ∅;
              identities := ∅; engine := ([] : list ProcessInstance);
              context := None; trace := [] |} in
  destroyPrepare (Sample.resolver None) MoreSample.destroyInput w = (Return (), w).
Proof.
  intros w.
  apply (proj1 (destroy_saves_only_changes (Sample.resolver None)
                  MoreSample.destroyInput w w
                  (<["phase" := VStr "destroyed"]> Sample.row1) None
                  eq_refl eq_refl I)).
  intros k v [(e & He & Hkey) (st & [= <-] & Hget)].
  apply list_elem_of_In in He. cbn in He.
  destruct He as [<-|[<-|[]]]; cbn in Hkey; subst k; cbn in Hget.
  - injection Hget as <-. reflexivity.
  - discriminate.
Defined.

(** X6.  The teardown of a [destroy] deletes the first process instance
    the engine lists, provided it has an id and its business key equals
    the instance id up to letter case: one delete request for that
    process instance is issued and the call returns [true]. *)
Theorem destroy_deletes_process_instance `{rt : JsRuntime} {E} (camunda : WorkflowService E)
  (this : InstanceResolver) (input : DestroyInput) (w w1 : World E)
  (data : list ProcessInstance) (p : ProcessInstance) (e' : E) :
  destroyPrepare this input w = (Return (), w1) ->
  processInstanceService_list camunda (di_id input) (processKey (taskDef this))
    (engine w1) = Return data ->
  matchingProcessInstance (di_id input) data = Some p ->
  processInstanceService_del camunda (pi_id p) (engine w1) = (Return (), e') ->
  destroy camunda this input w
  = (Return true, withEngine (withEffect w1 (EProcessDelete (pi_id p))) e')
  /\ head data = Some p
  /\ toLowerCase (pi_businessKey p) = toLowerCase (di_id input).
Proof.
  intros Hprep Hlist Hmatch Hdel.
  unfold matchingProcessInstance in Hmatch.
  destruct data as [|p0 data]; [discriminate|].
  destruct (truthy_str (pi_id p0) && truthy_str (pi_businessKey p0)
            && String.eqb (toLowerCase (pi_businessKey p0))
                 (toLowerCase (di_id input))) eqn:Hcond; [|discriminate].
  injection Hmatch as ->.
  split; [|split; [reflexivity|]].
  - unfold destroy. unfold mbind at 1. unfold M_bind at 1. rewrite Hprep.
    unfold teardown. munfold. rewrite Hlist, Hcond. cbn [engine withEffect].
    by rewrite Hdel.
  - apply andb_true_iff in Hcond as [_ Hcond]. by apply String.eqb_eq.
Qed.

(** The process instance of ["i1"], registered under ["I1"], is deleted. *)
Lemma destroy_deletes_process_instance_witness :
  exists w',
    destroy MoreSample.engineOf (Sample.resolver None)
      {| di_id := "i1"; di_state := None |}
      (MoreSample.world (Some "u1") [MoreSample.running])
    = (Return true, w')
    /\ engine w' = [] /\ trace w' = [EProcessDelete "p1"].
Proof.
  eexists. split.
  - exact (proj1 (destroy_deletes_process_instance MoreSample.engineOf
                    (Sample.resolver None) {| di_id := "i1"; di_state := None |}
                    (MoreSample.world (Some "u1") [MoreSample.running]) _
                    [MoreSample.running] MoreSample.running []
                    eq_refl eq_refl eq_refl eq_refl)).
  - split; reflexivity.
Defined.

(** X7.  When the engine fails during the teardown (listing the process
    instances, or deleting the one found), [destroy] fails with the one
    generic [Error] and the state change already saved stays in place. *)
Theorem destroy_engine_failure `{rt : JsRuntime} {E} (camunda : WorkflowService E)
  (this : InstanceResolver) (input : DestroyInput) (w w1 : World E) :
  destroyPrepare this input w = (Return (), w1) ->
  (exists err, processInstanceService_list camunda (di_id input)
                 (processKey (taskDef this)) (engine w1) = Throw err)
  \/ (exists data p err,
        processInstanceService_list camunda (di_id input)
          (processKey (taskDef this)) (engine w1) = Return data
        /\ matchingProcessInstance (di_id input) data = Some p
        /\ fst (processInstanceService_del camunda (pi_id p) (engine w1))
           = Throw err) ->
  fst (destroy camunda this input w)
  = Throw (Error "Unable to destroy instance due to business engine error.")
  /\ db (snd (destroy camunda this input w)) = db w1.
Proof.
  intros Hprep Hfail.
  assert (Hdb : db (snd (destroy camunda this input w)) = db w1).
  { unfold destroy. unfold mbind, M_bind. rewrite Hprep. apply teardown_db. }
  split; [|exact Hdb].
  unfold destroy. unfold mbind at 1. unfold M_bind at 1. rewrite Hprep.
  unfold teardown. munfold.
  destruct Hfail as [[err ->]|(data & p & err & -> & Hmatch & Hdel)];
    [reflexivity|].
  unfold matchingProcessInstance in Hmatch.
  destruct data as [|p0 data]; [discriminate|].
  destruct (truthy_str (pi_id p0) && truthy_str (pi_businessKey p0)
            && String.eqb (toLowerCase (pi_businessKey p0))
                 (toLowerCase (di_id input))) eqn:Hcond; [|discriminate].
  injection Hmatch as ->. cbn [engine withEffect]. by rewrite Hdel.
Qed.

(** The process instance ["stuck"] cannot be deleted: the destroy fails,
    the phase it set is stored. *)
Lemma destroy_engine_failure_witness :
  let stuck := {| pi_id := "stuck"; pi_businessKey := "i1" |} in
  let run := destroy MoreSample.engineOf (Sample.resolver None)
               MoreSample.destroyInput (MoreSample.world (Some "u1") [stuck]) in
  fst run = Throw (Error "Unable to destroy instance due to business engine error.")
  /\ prop (default ∅ (db (snd run) !! "i1")) "phase" = VStr "destroyed".
Proof.
  intros stuck run.
  destruct (destroyPrepare (Sample.resolver None) MoreSample.destroyInput
              (MoreSample.world (Some "u1") [stuck])) as [r w1] eqn:Hprep.
  assert (Hr : r = Return ()) by (by vm_compute in Hprep; injection Hprep as <- _).
  subst r.
  assert (Hw1 : w1 = snd (destroyPrepare (Sample.resolver None)
                            MoreSample.destroyInput
                            (MoreSample.world (Some "u1") [stuck])))
    by (by rewrite Hprep).
  assert (Hfail :
    exists data p err,
      processInstanceService_list MoreSample.engineOf
        (di_id MoreSample.destroyInput)
        (processKey (taskDef (Sample.resolver None))) (engine w1) = Return data
      /\ matchingProcessInstance (di_id MoreSample.destroyInput) data = Some p
      /\ fst (processInstanceService_del MoreSample.engineOf (pi_id p) (engine w1))
         = Throw err).
  { exists [stuck], stuck, (TransportError "503"). rewrite Hw1.
    split; [|split]; reflexivity. }
  destruct (destroy_engine_failure MoreSample.engineOf (Sample.resolver None)
              MoreSample.destroyInput (MoreSample.world (Some "u1") [stuck]) w1
              Hprep (or_intror Hfail)) as [Hres Hdb].
  split; [exact Hres|].
  subst run. rewrite Hdb, Hw1. vm_compute. reflexivity.
Defined.

(** ** Refusals are free of effects *)

Lemma clean_readOnly {E A} (m : M E A) : readOnly m -> refusesCleanly m.
Proof. intros Hm w r w' Hrun _. by apply (Hm w r w'). Qed.

Lemma clean_never {E A} (m : M E A) : neverRefuses m -> refusesCleanly m.
Proof. intros Hm w r w' Hrun Hr. by destruct (Hm w r w' Hrun). Qed.

Lemma clean_bind {E A B} (m : M E A) (k : A -> M E B) :
  readOnly m -> (forall a, refusesCleanly (k a)) -> refusesCleanly (m ≫= k).
Proof.
  intros Hm Hk w r w'. unfold mbind, M_bind.
  destruct (m w) as [[a|e] w1] eqn:Hrun.
  - intros Hrun' Hr. apply (sameStore_trans w w1 w').
    + by apply (Hm w (Return a) w1).
    + by apply (Hk a w1 r w').
  - intros [= <- <-] _. by apply (Hm w (Throw e) w1).
Qed.

Lemma clean_then_never {E A B} (m : M E A) (k : A -> M E B) :
  refusesCleanly m -> (forall a, neverRefuses (k a)) -> refusesCleanly (m ≫= k).
Proof.
  intros Hm Hk w r w'. unfold mbind, M_bind.
  destruct (m w) as [[a|e] w1] eqn:Hrun.
  - intros Hrun' Hr. by destruct (Hk a w1 r w' Hrun').
  - intros [= <- <-] [msg Hr]. apply (Hm w (Throw e) w1 Hrun).
    exists msg. destruct Hr as [[= ->]|[= ->]]; eauto.
Qed.

Lemma never_ret {E A} (a : A) : neverRefuses (mret a : M E A).
Proof. intros w r w' [= <- _] [msg [?|?]]; discriminate. Qed.

Lemma never_throw {E A} (e : JsError) :
  (forall msg, e <> AuthorizationError msg /\ e <> UserInputError msg) ->
  neverRefuses (throw e : M E A).
Proof.
  intros He w r w' [= <- _] [msg [[= ->]|[= ->]]]; by destruct (He msg).
Qed.

Lemma never_bind {E A B} (m : M E A) (k : A -> M E B) :
  neverRefuses m -> (forall a, neverRefuses (k a)) -> neverRefuses (m ≫= k).
Proof.
  intros Hm Hk w r w'. unfold mbind, M_bind.
  destruct (m w) as [[a|e] w1] eqn:Hrun.
  - apply Hk.
  - intros [= <- <-] [msg Hr]. apply (Hm w (Throw e) w1 Hrun).
    exists msg. destruct Hr as [[= ->]|[= ->]]; eauto.
Qed.

Lemma never_catch {E A} (m : M E A) (h : JsError -> M E A) :
  (forall e, neverRefuses (h e)) -> neverRefuses (catch m h).
Proof.
  intros Hh w r w'. unfold catch.
  destruct (m w) as [[a|e] w1].
  - intros [= <- _] [msg [?|?]]; discriminate.
  - apply Hh.
Qed.

Lemma never_save {E} (this : InstanceResolver) (o : gmap string value) :
  neverRefuses (save (E:=E) this o).
Proof.
  intros w r w'. unfold save. munfold.
  destruct (prop o "id"); try destruct (accepts (modelClass this) o);
    intros [= <- _] [msg [?|?]]; discriminate.
Qed.

Ltac never_refuses :=
  repeat first
    [ apply never_ret
    | apply never_save
    | apply never_throw; intros ?; split; discriminate
    | apply never_bind; [|intros ?]
    | apply never_catch; intros ?
    | match goal with
      | |- neverRefuses (match ?x with _ => _ end) => destruct x
      | |- neverRefuses (if ?x then _ else _) => destruct x
      end ].

Ltac refuses_cleanly :=
  repeat first
    [ apply clean_bind; [solve [read_only]|intros ?]
    | apply clean_readOnly; solve [read_only]
    | apply clean_never; solve [never_refuses]
    | match goal with
      | |- refusesCleanly (match ?x with _ => _ end) => destruct x
      | |- refusesCleanly (if ?x then _ else _) => destruct x
      end ].

(** X8.  [update], [destroy] and [completeTask] change nothing when they
    refuse: whenever one of them throws an [AuthorizationError] or a
    [UserInputError], the stored rows, the state of the workflow engine
    and the trace of effects are as before the call. *)
Theorem refusals_change_nothing `{rt : JsRuntime} {E} (camunda : WorkflowService E)
  (this : InstanceResolver) (updateInput : jsobj) (info : list string)
  (destroyInput : DestroyInput) (taskInput : CompleteTaskInput) :
  refusesCleanly (update (E:=E) this updateInput info)
  /\ refusesCleanly (destroy camunda this destroyInput)
  /\ refusesCleanly (completeTask camunda this taskInput).
Proof.
  split; [|split].
  - unfold update. cbv zeta. refuses_cleanly.
  - unfold destroy. apply clean_then_never.
    + unfold destroyPrepare. cbv zeta. refuses_cleanly.
    + intros _. unfold teardown. never_refuses.
  - unfold completeTask. cbv zeta. refuses_cleanly.
Qed.

(** ** Completing a task *)

Lemma completeTask_start {E} (camunda : WorkflowService E)
  (this : InstanceResolver) (input : CompleteTaskInput) (w w1 : World E)
  (user : option (gmap string value))
  (rest : list WfTask -> option (gmap string value) ->
          option (gmap string value) -> M E bool) :
  resolveUserForContext this w = (Return user, w1) ->
  (instance ← find this (VStr (ct_id input)) None;
   user ← resolveUserForContext this;
   tasks ← (data ← engineRead (taskService_list camunda (ct_id input));
            mret (List.filter (fun t => String.eqb (task_id t) (ct_taskId input))
                    (default [] (embeddedTasks data))));
   rest tasks instance user) w
  = match taskService_list camunda (ct_id input) (engine w1) with
    | Return data =>
        rest (tasksWithId data (ct_taskId input)) (db w !! ct_id input) user w1
    | Throw err => (Throw err, w1)
    end.
Proof.
  intros Huser. munfold. unfold find. rewrite Huser.
  by destruct (taskService_list camunda (ct_id input) (engine w1)).
Qed.

(** X9.  The checks [completeTask] makes before any access rule, in
    order: a missing id or task id is a [UserInputError]; a failure of the
    engine's task listing is passed on unchanged; then an unknown instance
    and an unknown task id are reported by plain [Error]s.  None of them
    writes anything. *)
Theorem completeTask_early_failures {E} (camunda : WorkflowService E)
  (this : InstanceResolver) (input : CompleteTaskInput) (w w1 : World E)
  (user : option (gmap string value)) :
  resolveUserForContext this w = (Return user, w1) ->
  (truthy_str (ct_id input) && truthy_str (ct_taskId input) = false ->
   completeTask camunda this input w
   = (Throw (UserInputError
               "Complete Task requires an id and taskId to be supplied"), w))
  /\ (truthy_str (ct_id input) && truthy_str (ct_taskId input) = true ->
      (forall err,
         taskService_list camunda (ct_id input) (engine w1) = Throw err ->
         completeTask camunda this input w = (Throw err, w1))
      /\ (forall data,
            taskService_list camunda (ct_id input) (engine w1) = Return data ->
            db w !! ct_id input = None ->
            completeTask camunda this input w
            = (Throw (Error "Instance with identifier not found."), w1))
      /\ (forall data obj,
            taskService_list camunda (ct_id input) (engine w1) = Return data ->
            db w !! ct_id input = Some obj ->
            tasksWithId data (ct_taskId input) = [] ->
            completeTask camunda this input w
            = (Throw (Error "Specific task not found for instance."), w1))).
Proof.
  intros Huser. split.
  - intros Hids. unfold completeTask.
    destruct (truthy_str (ct_id input)), (truthy_str (ct_taskId input));
      try discriminate; reflexivity.
  - intros Hids. apply andb_true_iff in Hids as [Hid Htid].
    unfold completeTask. rewrite Hid, Htid. cbn [negb orb].
    rewrite (completeTask_start camunda this input w w1 user
               (fun tasks instance user =>
                  match instance with Some i => _ | None => _ end) Huser).
    split; [|split].
    + intros err ->. reflexivity.
    + intros data -> ->. reflexivity.
    + intros data obj -> -> ->. reflexivity.
Qed.

(** With the engine down, completing a task of a stored instance fails
    with the engine's own error. *)
Lemma completeTask_early_failures_witness :
  fst (completeTask MoreSample.down (Sample.resolver None) TaskSample.input
         MoreSample.downWorld)
  = Throw (TransportError "ECONNREFUSED").
Proof.
  destruct (completeTask_early_failures MoreSample.down (Sample.resolver None)
              TaskSample.input MoreSample.downWorld _ (Some Sample.alice) eq_refl)
    as [_ Hgiven].
  destruct (Hgiven eq_refl) as [Hdown _].
  by rewrite (Hdown (TransportError "ECONNREFUSED") eq_refl).
Defined.

Lemma filter_admitted (this : InstanceResolver)
  (user : option (gmap string value)) (obj : gmap string value)
  (tasks : list WfTask) :
  match taskMatch this user obj ≫= allowedTasks with
  | Some allowed =>
      List.filter (fun t => includes (taskDefinitionKey t) allowed) tasks
  | None => tasks
  end
  = List.filter
      (fun t => taskAdmitted (taskMatch this user obj) (taskDefinitionKey t))
      tasks.
Proof.
  unfold taskAdmitted.
  destruct (taskMatch this user obj ≫= allowedTasks); [reflexivity|].
  symmetry. by apply filter_all.
Qed.

Lemma completeTask_granted {E} (camunda : WorkflowService E)
  (this : InstanceResolver) (input : CompleteTaskInput) (w w1 : World E)
  (obj : gmap string value) (user : option (gmap string value))
  (data : TaskListData) :
  truthy_str (ct_id input) && truthy_str (ct_taskId input) = true ->
  db w !! ct_id input = Some obj ->
  resolveUserForContext this w = (Return user, w1) ->
  taskService_list camunda (ct_id input) (engine w1) = Return data ->
  tasksWithId data (ct_taskId input) <> [] ->
  actionGranted this Task user obj ->
  completeTask camunda this input w
  = (if nonEmpty
          (List.filter
             (fun t => taskAdmitted (taskMatch this user obj) (taskDefinitionKey t))
             (tasksWithId data (ct_taskId input)))
     then completeAdmitted camunda this input obj
     else throw (AuthorizationError
                   "You do not have access to the task associated with the instance."))
      w1.
Proof.
  intros Hids Hdb Huser Hlist Hsome Hgate.
  apply andb_true_iff in Hids as [Hid Htid].
  unfold completeTask. rewrite Hid, Htid. cbn [negb orb].
  rewrite (completeTask_start camunda this input w w1 user
             (fun tasks instance user =>
                match instance with Some i => _ | None => _ end) Huser).
  rewrite Hlist, Hdb. apply nonEmpty_true in Hsome. rewrite Hsome. cbn [negb].
  assert (Htail : forall m : option AclMatch,
    m = taskMatch this user obj ->
    (if negb (nonEmpty
                match m ≫= allowedTasks with
                | Some allowed =>
                    List.filter (fun t => includes (taskDefinitionKey t) allowed)
                      (tasksWithId data (ct_taskId input))
                | None => tasksWithId data (ct_taskId input)
                end)
     then throw (AuthorizationError
                   "You do not have access to the task associated with the instance.")
     else
       completeTaskOpts ←
         match filterState this (ct_state input) with
         | Some filteredState =>
             if nonEmpty (okeys filteredState) then
               let '(instance, didModify, newVars) :=
                 applyStateVars filteredState obj in
               (if didModify then save this instance else mret ());;
               mret {| cto_id := ct_taskId input; variables := Some newVars |}
             else mret {| cto_id := ct_taskId input; variables := None |}
         | None => mret {| cto_id := ct_taskId input; variables := None |}
         end;
       catch
         (logEffect (ETaskComplete completeTaskOpts);;
          engineCall (taskService_complete camunda completeTaskOpts);;
          mret true)
         (fun err =>
            throw (Error "Unable to complete task for instance due to business engine error.")))
      w1
    = (if nonEmpty
            (List.filter
               (fun t => taskAdmitted (taskMatch this user obj) (taskDefinitionKey t))
               (tasksWithId data (ct_taskId input)))
       then completeAdmitted camunda this input obj
       else throw (AuthorizationError
                     "You do not have access to the task associated with the instance."))
        w1).
  { intros m ->. rewrite filter_admitted.
    destruct (nonEmpty (List.filter _ (tasksWithId data (ct_taskId input))));
      [|reflexivity].
    cbn [negb]. unfold completeAdmitted, stateOutcome, stateVariables.
    destruct (filterState this (ct_state input)) as [fs|]; [|reflexivity].
    destruct (nonEmpty (okeys fs)); [|reflexivity].
    rewrite <- (applyStateVars_instance fs obj).
    destruct (applyStateVars fs obj) as [[o d] vars]. cbn [fst snd].
    munfold. by destruct ((if d then save this o else fun w0 => (Return (), w0)) w1)
      as [[[]|e] w2]. }
  unfold actionGranted in Hgate. unfold taskMatch in *.
  destruct (acl this) as [a|].
  - destruct (userToAclTargets this user (Some obj)) as [targets own].
    cbn [fst snd] in *. destruct Hgate as (Ha & Hr & Ht).
    unfold mbind at 1. unfold M_bind at 1.
    rewrite Ha, Hr, Ht. cbn [negb]. unfold mret at 1, M_ret at 1.
    by apply Htail.
  - unfold mbind at 1. unfold M_bind at 1. unfold mret at 1, M_ret at 1.
    by apply Htail.
Qed.

Lemma never_completeAdmitted {E} (camunda : WorkflowService E)
  (this : InstanceResolver) (input : CompleteTaskInput)
  (obj : gmap string value) :
  neverRefuses (completeAdmitted camunda this input obj).
Proof. unfold completeAdmitted. never_refuses. Qed.

(** X10.  A caller who passes the access and task gates of
    [completeTask] is refused with "You do not have access to the task
    associated with the instance." exactly when none of the listed tasks
    carrying the requested task id has a definition key the task rule
    admits. *)
Theorem completeTask_task_excluded {E} (camunda : WorkflowService E)
  (this : InstanceResolver) (input : CompleteTaskInput) (w w1 : World E)
  (obj : gmap string value) (user : option (gmap string value))
  (data : TaskListData) :
  truthy_str (ct_id input) && truthy_str (ct_taskId input) = true ->
  db w !! ct_id input = Some obj ->
  resolveUserForContext this w = (Return user, w1) ->
  taskService_list camunda (ct_id input) (engine w1) = Return data ->
  tasksWithId data (ct_taskId input) <> [] ->
  actionGranted this Task user obj ->
  fst (completeTask camunda this input w)
  = Throw (AuthorizationError
             "You do not have access to the task associated with the instance.")
  <-> forall t, t ∈ tasksWithId data (ct_taskId input) ->
                taskAdmitted (taskMatch this user obj) (taskDefinitionKey t) = false.
Proof.
  intros Hids Hdb Huser Hlist Hsome Hgate.
  rewrite (completeTask_granted camunda this input w w1 obj user data
             Hids Hdb Huser Hlist Hsome Hgate).
  set (keeps := fun t : WfTask =>
                  taskAdmitted (taskMatch this user obj) (taskDefinitionKey t)).
  destruct (List.filter keeps (tasksWithId data (ct_taskId input)))
    as [|t0 rest] eqn:Hfilter; cbn [nonEmpty].
  - split; [intros _|reflexivity].
    intros t Hin. destruct (keeps t) eqn:Ht; [|exact Ht].
    assert (Hmem : t ∈ List.filter keeps (tasksWithId data (ct_taskId input)))
      by (by apply elem_of_filter_bool).
    rewrite Hfilter in Hmem. inversion Hmem.
  - split.
    + intros Hres.
      change (fst (completeAdmitted camunda this input obj w1)
              = Throw (AuthorizationError
                         "You do not have access to the task associated with the instance."))
        in Hres.
      destruct (completeAdmitted camunda this input obj w1) as [r w2] eqn:Hrun.
      destruct (never_completeAdmitted camunda this input obj w1 r w2 Hrun).
      eexists. left. exact Hres.
    + intros Hnone.
      assert (Hmem : t0 ∈ List.filter keeps (tasksWithId data (ct_taskId input)))
        by (rewrite Hfilter; left).
      apply elem_of_filter_bool in Hmem as [Hin Ht].
      specialize (Hnone t0 Hin). fold (keeps t0) in Hnone. congruence.
Qed.

(** The rule admits only [review] tasks; the task asked for is a
    [publish] task. *)
Lemma completeTask_task_excluded_witness :
  fst (completeTask MoreSample.engineOf
         (Sample.resolver (Some MoreSample.reviewOnly))
         {| ct_id := "i1"; ct_taskId := "t2"; ct_state := None |}
         (MoreSample.world (Some "u1") []))
  = Throw (AuthorizationError
             "You do not have access to the task associated with the instance.").
Proof.
  apply (proj2 (completeTask_task_excluded MoreSample.engineOf
                  (Sample.resolver (Some MoreSample.reviewOnly))
                  {| ct_id := "i1"; ct_taskId := "t2"; ct_state := None |}
                  (MoreSample.world (Some "u1") []) _ Sample.row1
                  (Some Sample.alice) _ eq_refl eq_refl eq_refl eq_refl
                  ltac:(discriminate)
                  ltac:(repeat split))).
  intros t Hin. apply list_elem_of_In in Hin. cbn in Hin.
  destruct Hin as [<-|[]]. reflexivity.
Defined.

Lemma complete_call {E} (camunda : WorkflowService E)
  (opts : CompleteTaskOpts) (w : World E) :
  let run :=
    catch
      (logEffect (ETaskComplete opts);;
       engineCall (taskService_complete camunda opts);;
       mret true)
      (fun err =>
         throw (Error "Unable to complete task for instance due to business engine error."))
      w in
  db (snd run) = db w
  /\ trace (snd run) = push (trace w) (ETaskComplete opts)
  /\ (fst run = Return true
      \/ fst run
         = Throw (Error "Unable to complete task for instance due to business engine error."))
  /\ (fst (taskService_complete camunda opts (engine w)) <> Return () ->
      fst run
      = Throw (Error "Unable to complete task for instance due to business engine error.")).
Proof.
  cbv zeta. munfold. cbn [engine withEffect].
  destruct (taskService_complete camunda opts (engine w)) as [[[]|e] e'];
    cbn [fst snd db trace withEngine withEffect]; split_and!; eauto.
  intros []. reflexivity.
Qed.

(** X11.  Once the checks of [completeTask] have passed, the requested
    state is stored before the engine is asked, and stays stored whatever
    the engine answers: afterwards the row holds the requested values of
    the declared state fields, the last effect is the completion request
    (with the variables of the state), and the outcome is [true] or, when
    the engine fails, the one generic [Error]. *)
Theorem completeTask_state_kept {E} (camunda : WorkflowService E)
  (this : InstanceResolver) (input : CompleteTaskInput) (w w1 : World E)
  (obj : gmap string value) (user : option (gmap string value))
  (data : TaskListData) :
  truthy_str (ct_id input) && truthy_str (ct_taskId input) = true ->
  db w !! ct_id input = Some obj ->
  prop obj "id" = VStr (ct_id input) ->
  resolveUserForContext this w = (Return user, w1) ->
  taskService_list camunda (ct_id input) (engine w1) = Return data ->
  actionGranted this Task user obj ->
  (exists t, t ∈ tasksWithId data (ct_taskId input)
             /\ taskAdmitted (taskMatch this user obj) (taskDefinitionKey t) = true) ->
  accepts (modelClass this) (fst (stateOutcome this (ct_state input) obj)) = true ->
  (forall v, ~ requestedState this (ct_state input) "id" v) ->
  let run := completeTask camunda this input w in
  exists obj',
    db (snd run) !! ct_id input = Some obj'
    /\ (forall k v, requestedState this (ct_state input) k v -> prop obj' k = v)
    /\ (forall k, (forall v, ~ requestedState this (ct_state input) k v) ->
                  obj' !! k = obj !! k)
    /\ last (trace (snd run))
       = Some (ETaskComplete
                 {| cto_id := ct_taskId input;
                    variables := stateVariables this (ct_state input) obj |})
    /\ (fst run = Return true
        \/ fst run
           = Throw (Error "Unable to complete task for instance due to business engine error."))
    /\ ((forall opts e, fst (taskService_complete camunda opts e) <> Return ()) ->
        fst run
        = Throw (Error "Unable to complete task for instance due to business engine error.")).
Proof.
  intros Hids Hdb Hid Huser Hlist Hgate (t & Hin & Hadm) Hacc Hnoid run.
  set (out := stateOutcome this (ct_state input) obj) in *.
  destruct (resolveUserForContext_world _ _ _ _ Huser) as (Hdb1 & _).
  assert (Hsome : tasksWithId data (ct_taskId input) <> [])
    by (intros Hnil; rewrite Hnil in Hin; inversion Hin).
  assert (Hrun : run = completeAdmitted camunda this input obj w1).
  { subst run.
    rewrite (completeTask_granted camunda this input w w1 obj user data
               Hids Hdb Huser Hlist Hsome Hgate).
    assert (Hne : nonEmpty
                    (List.filter
                       (fun t => taskAdmitted (taskMatch this user obj)
                                   (taskDefinitionKey t))
                       (tasksWithId data (ct_taskId input))) = true).
    { apply nonEmpty_true. intros Hnil.
      assert (Hmem : t ∈ List.filter
                (fun t => taskAdmitted (taskMatch this user obj)
                            (taskDefinitionKey t))
                (tasksWithId data (ct_taskId input)))
        by (by apply elem_of_filter_bool).
      rewrite Hnil in Hmem. inversion Hmem. }
    by rewrite Hne. }
  assert (Hsaved : exists w2,
    (if snd out then save this (fst out) else mret ()) w1 = (Return (), w2)
    /\ db w2 !! ct_id input = Some (fst out)).
  { destruct (snd out) eqn:Hmod.
    - assert (Hid' : prop (fst out) "id" = VStr (ct_id input)).
      { unfold prop. subst out. rewrite stateOutcome_other by exact Hnoid.
        exact Hid. }
      rewrite (save_accepted this (fst out) (ct_id input) w1 Hid' Hacc).
      eexists. split; [reflexivity|]. cbn [db withDb withEffect].
      apply lookup_insert_eq.
    - exists w1. split; [reflexivity|].
      subst out. rewrite (stateOutcome_unmodified _ _ _ Hmod). cbn [fst].
      by rewrite Hdb1. }
  destruct Hsaved as (w2 & Hsave & Hrow).
  exists (fst out).
  assert (Hcall : completeAdmitted camunda this input obj w1
    = catch
        (logEffect
           (ETaskComplete
              {| cto_id := ct_taskId input;
                 variables := stateVariables this (ct_state input) obj |});;
         engineCall
           (taskService_complete camunda
              {| cto_id := ct_taskId input;
                 variables := stateVariables this (ct_state input) obj |});;
         mret true)
        (fun err =>
           throw (Error "Unable to complete task for instance due to business engine error."))
        w2).
  { unfold completeAdmitted. fold out.
    unfold mbind at 1. unfold M_bind at 1. by rewrite Hsave. }
  rewrite Hrun, Hcall.
  destruct (complete_call camunda
              {| cto_id := ct_taskId input;
                 variables := stateVariables this (ct_state input) obj |} w2)
    as (Hdb2 & Htr & Hres & Hfail).
  cbv zeta in Hdb2, Htr, Hres, Hfail.
  rewrite Hdb2, Htr. split_and!.
  - exact Hrow.
  - intros k v Hreq. by apply stateOutcome_assigned.
  - intros k Hk. by apply stateOutcome_other.
  - unfold push. apply last_snoc.
  - exact Hres.
  - intros Hdown. apply Hfail. apply Hdown.
Qed.

(** The engine lists the task but fails to complete it: the call fails
    and the phase it was given is stored. *)
Lemma completeTask_state_kept_witness :
  let run := completeTask MoreSample.stalls (Sample.resolver None)
               TaskSample.input TaskSample.world in
  fst run
  = Throw (Error "Unable to complete task for instance due to business engine error.")
  /\ exists obj', db (snd run) !! "i1" = Some obj'
                  /\ prop obj' "phase" = VStr "review".
Proof.
  assert (Hphase : requestedState (Sample.resolver None)
                     (ct_state TaskSample.input) "phase" (VStr "review")).
  { split.
    - exists (Sample.el "phase"). split; [|reflexivity].
      apply list_elem_of_In. left. reflexivity.
    - eexists. split; reflexivity. }
  assert (Hnoid : forall v, ~ requestedState (Sample.resolver None)
                                (ct_state TaskSample.input) "id" v).
  { intros v [(e & He & Hkey) _]. apply list_elem_of_In in He. cbn in He.
    destruct He as [<-|[<-|[]]]; cbn in Hkey; congruence. }
  assert (Hadm : exists t,
            t ∈ tasksWithId {| embedded_tasks := Some [TaskSample.review];
                               embedded_task := None |}
                  (ct_taskId TaskSample.input)
            /\ taskAdmitted (taskMatch (Sample.resolver None)
                               (Some Sample.alice) Sample.row1)
                 (taskDefinitionKey t) = true).
  { exists TaskSample.review. split; [left|reflexivity]. }
  destruct (completeTask_state_kept MoreSample.stalls (Sample.resolver None)
              TaskSample.input TaskSample.world _ Sample.row1
              (Some Sample.alice) _ eq_refl eq_refl eq_refl eq_refl eq_refl I
              Hadm eq_refl Hnoid)
    as (obj' & Hrow & Hset & _ & _ & _ & Hfail).
  split.
  - apply Hfail. intros opts e. discriminate.
  - exists obj'. split; [exact Hrow|]. by apply Hset.
Defined.

(** ** Listing *)

Lemma truthy_defined (v : value) :
  truthy v = true ->
  negb (strict_eq v VNull) && negb (strict_eq v VUndefined) = true.
Proof. by destruct v. Qed.

Lemma nonEmpty_snoc {A} (l : list A) (x : A) : nonEmpty (l ++ [x]) = true.
Proof. apply nonEmpty_true. by destruct l. Qed.

Lemma filterStatements_atoms (this : InstanceResolver)
  (filter : gmap string value) :
  filterStatements this (Some filter)
  = (map (fun a => (CAnd, a))
       (omap (fun f => filterAtom f filter) (listingFilterFields this)),
     nonEmpty (omap (fun f => filterAtom f filter) (listingFilterFields this))).
Proof.
  unfold filterStatements.
  assert (Hfold : forall fields (b : list Atom),
    fold_left
      (fun '(b, addedWhereStatement) f =>
         let v := prop filter (keyOf (field f)) in
         if negb (truthy v) then (b, addedWhereStatement)
         else if negb (strict_eq v VNull) && negb (strict_eq v VUndefined)
         then
           if listingFilterMultiple f then
             match v with
             | VArr vs => (push b (CAnd, AIn (keyOf (field f)) vs), true)
             | _ => (b, addedWhereStatement)
             end
           else (push b (CAnd, AEq (keyOf (field f)) v), true)
         else (b, addedWhereStatement))
      fields (map (fun a => (CAnd, a)) b, nonEmpty b)
    = (map (fun a => (CAnd, a)) (b ++ omap (fun f => filterAtom f filter) fields),
       nonEmpty (b ++ omap (fun f => filterAtom f filter) fields))).
  { intros fields.
    match goal with |- forall b, fold_left ?s _ _ = _ => set (step := s) end.
    assert (Hstep : forall f b,
      step (map (fun a => (CAnd, a)) b, nonEmpty b) f
      = match filterAtom f filter with
        | Some a => (map (fun a => (CAnd, a)) (b ++ [a]), nonEmpty (b ++ [a]))
        | None => (map (fun a => (CAnd, a)) b, nonEmpty b)
        end).
    { intros f b. unfold step, filterAtom. cbv zeta.
      destruct (truthy (prop filter (keyOf (field f)))) eqn:Ht; cbn [negb];
        [|reflexivity].
      rewrite (truthy_defined _ Ht). unfold push.
      destruct (listingFilterMultiple f);
        [destruct (prop filter (keyOf (field f))); try reflexivity|];
        by rewrite map_app, nonEmpty_snoc. }
    induction fields as [|f fields IH]; intros b.
    - cbn. by rewrite app_nil_r.
    - cbn [fold_left]. rewrite Hstep.
      change (omap (fun f => filterAtom f filter) (f :: fields))
        with (match filterAtom f filter with
              | Some a => a :: omap (fun f => filterAtom f filter) fields
              | None => omap (fun f => filterAtom f filter) fields
              end).
      destruct (filterAtom f filter) as [a|]; [|apply IH].
      rewrite IH. by rewrite <- !app_assoc. }
  destruct (nonEmpty (listingFilterFields this)) eqn:Hne.
  - apply (Hfold (listingFilterFields this) []).
  - destruct (listingFilterFields this); [reflexivity|discriminate].
Qed.

Lemma filterAtom_entry (f : Element) (filter : gmap string value) :
  filterAtom f filter
  = match filterEntry f (Some filter) with
    | Some v =>
        if listingFilterMultiple f then
          match v with
          | VArr vs => Some (AIn (keyOf (field f)) vs)
          | _ => None
          end
        else Some (AEq (keyOf (field f)) v)
    | None => None
    end.
Proof.
  unfold filterAtom, filterEntry. cbv zeta.
  destruct (truthy (prop filter (keyOf (field f)))); [|reflexivity].
  destruct (listingFilterMultiple f); [|reflexivity].
  by destruct (prop filter (keyOf (field f))).
Qed.

(** X12.  Which rows a filter selects: a row passes exactly when, for
    every declared listing-filter field whose filter value is truthy, the
    row's value is strictly equal to the filter value -- or, for a field
    taking several values, to one element of the filter value when that is
    an array (any other value of such a field is ignored). *)
Theorem filters_select (this : InstanceResolver)
  (filter row : gmap string value) :
  passesFilters this (Some filter) row = true
  <-> forall f, f ∈ listingFilterFields this ->
        let v := prop filter (keyOf (field f)) in
        truthy v = true ->
        if listingFilterMultiple f
        then forall vs, v = VArr vs ->
               exists x, x ∈ vs /\ strict_eq (prop row (keyOf (field f))) x = true
        else strict_eq (prop row (keyOf (field f))) v = true.
Proof.
  unfold passesFilters. rewrite filterStatements_atoms. cbn [fst].
  rewrite forallb_forall. split.
  - intros Hall f Hf Ht.
    assert (Hatom : forall a, filterAtom f filter = Some a -> evalAtom row a = true).
    { intros a Ha. apply (Hall (CAnd, a)). apply list_elem_of_In.
      apply list_elem_of_fmap. exists a. split; [reflexivity|].
      apply list_elem_of_omap. by exists f. }
    unfold filterAtom in Hatom. cbv zeta in Hatom. rewrite Ht in Hatom.
    destruct (listingFilterMultiple f).
    + intros vs Hv. rewrite Hv in Hatom.
      specialize (Hatom _ eq_refl). cbn in Hatom.
      apply existsb_exists in Hatom as (x & Hx & Heq).
      exists x. split; [by apply list_elem_of_In|exact Heq].
    + exact (Hatom _ eq_refl).
  - intros Hsel [c a] Hin. apply list_elem_of_In in Hin.
    apply list_elem_of_fmap in Hin as (a' & [= -> <-] & Hin).
    apply list_elem_of_omap in Hin as (f & Hf & Ha).
    specialize (Hsel f Hf).
    unfold filterAtom in Ha. cbv zeta in Ha.
    destruct (truthy (prop filter (keyOf (field f)))); [|discriminate].
    specialize (Hsel eq_refl).
    destruct (listingFilterMultiple f).
    + destruct (prop filter (keyOf (field f))) eqn:Hv; try discriminate.
      injection Ha as <-. destruct (Hsel _ eq_refl) as (x & Hx & Heq).
      cbn. apply existsb_exists. exists x. split; [by apply list_elem_of_In|exact Heq].
    + injection Ha as <-. exact Hsel.
Qed.

Lemma list_all_rows `{rt : JsRuntime} {E} (this : InstanceResolver) (input : ListInput)
  (info : list string) (w w1 : World E) (user : option (gmap string value)) :
  resolveUserForContext this w = (Return user, w1) ->
  listsAll this user ->
  fst (list_ this input info w)
  = Return
      (map (redactFor this user info)
         (presentRows this input info
            (List.filter (passesFilters this (li_filter input)) (storedRows w)))).
Proof.
  intros Huser Hgate.
  destruct (resolveUserForContext_world _ _ _ _ Huser) as (Hdb & _).
  assert (Hrun : forall (fg : Group) (added : bool),
    fg = fst (filterStatements this (li_filter input)) ->
    fst ((r ← runQuery this
                (let query :=
                   skipUndefined
                     (where_ {| q_where := []; q_skipUndefined := false;
                                q_orderBy := []; q_eager := None |} fg) in
                 let query :=
                   match li_sorting input with
                   | Some sorting =>
                       if nonEmpty (listingSortableFields this) then
                         let ordering := sortingToOrdering this sorting in
                         if nonEmpty ordering then orderBy query ordering else query
                       else query
                   | None => query
                   end in
                 match eagerResolvesFor this info with
                 | Some rels => eager query rels
                 | None => query
                 end);
          addInstancesToContext this r;;
          mret (map (fun object =>
                       let '(aclTargets, _) :=
                         userToAclTargets this user (Some object) in
                       _getInstance this object aclTargets info)
                  r)) w1)
    = Return
        (map (redactFor this user info)
           (presentRows this input info
              (List.filter (passesFilters this (li_filter input)) (storedRows w))))).
  { intros fg added Hfg.
    assert (Hredact :
      forall rows,
        map (fun object =>
               let '(aclTargets, _) := userToAclTargets this user (Some object) in
               _getInstance this object aclTargets info) rows
        = map (redactFor this user info) rows).
    { intros rows. apply map_ext. intros row. unfold redactFor.
      by destruct (userToAclTargets this user (Some row)). }
    assert (Hsel : forall q,
      q_where q = [fg] ->
      List.filter (evalQuery q) (map snd (map_to_list (db w1)))
      = List.filter (passesFilters this (li_filter input))
          (map snd (map_to_list (db w1)))).
    { intros q Hq. apply List.filter_ext. intros row.
      rewrite (evalQuery_plain this (li_filter input) row q); [|by rewrite Hq, Hfg].
      apply andb_true_r. }
    assert (Hdef : forall q, q_where q = [fg] -> undefinedBinding q = false).
    { intros q Hq.
      apply (undefinedBinding_plain this (li_filter input) q).
      by rewrite Hq, Hfg. }
    unfold storedRows, presentRows. rewrite <- Hdb.
    munfold. unfold runQuery.
    destruct (eagerResolvesFor this info) as [rels|];
      destruct (li_sorting input) as [sorting|];
      try destruct (nonEmpty (listingSortableFields this));
      try destruct (sortingToOrdering this sorting) as [|o os] eqn:Hord;
      cbn [nonEmpty length Nat.eqb negb eager orderBy skipUndefined where_
             push app q_where];
      (rewrite Hdef by reflexivity);
      cbn [q_where q_skipUndefined q_orderBy q_eager];
      (rewrite Hsel by reflexivity);
      match goal with
      | |- context [addInstancesToContext this ?l w1] =>
          destruct (addInstancesToContext_total this l w1) as (w2 & -> & _)
      end;
      cbn [fst]; by rewrite Hredact. }
  unfold list_. cbv zeta.
  unfold mbind at 1. unfold M_bind at 1. rewrite Huser.
  unfold listsAll in Hgate.
  destruct (filterStatements this (li_filter input)) as [fg added] eqn:Hfg.
  assert (Hfg' : fg = fst (filterStatements this (li_filter input)))
    by (by rewrite Hfg).
  destruct (acl this) as [a|].
  - destruct (userToAclTargets this user None) as [targets own].
    cbn [fst] in Hgate. destruct Hgate as (Hallow & rs & Hrs & Hall).
    apply includes_true in Hall.
    unfold mbind at 1. unfold M_bind at 1. rewrite Hallow. cbn [negb].
    unfold mret at 1, M_ret at 1. rewrite Hrs.
    unfold mbind at 1. unfold M_bind at 1. rewrite Hall. cbn [negb].
    unfold mret at 1, M_ret at 1. by apply (Hrun fg added).
  - unfold mbind at 1. unfold M_bind at 1. unfold mret at 1, M_ret at 1.
    unfold mbind at 1. unfold M_bind at 1.
    change (includes "all" ["all"]) with true. cbn [negb].
    unfold mret at 1, M_ret at 1. by apply (Hrun fg added).
Qed.

(** X13.  A listing without restriction -- no rule table, or an access
    match that allows and names the restriction ["all"] -- returns every
    stored row that passes the filter, ordered and expanded as asked and
    redacted row by row; no identity is needed for it. *)
Theorem list_unrestricted `{rt : JsRuntime} {E} (this : InstanceResolver) (input : ListInput)
  (info : list string) (w w1 : World E) (user : option (gmap string value)) :
  resolveUserForContext this w = (Return user, w1) ->
  listsAll this user ->
  fst (list_ this input info w)
  = Return
      (map (redactFor this user info)
         (presentRows this input info
            (List.filter (passesFilters this (li_filter input)) (storedRows w)))).
Proof. apply list_all_rows. Qed.

(** Without a rule table, a caller without identity lists both rows. *)
Lemma list_unrestricted_witness :
  fst (list_ (Sample.resolver None) ListSample.input ["id"; "title"]
         (MoreSample.world None []))
  = Return [ <["id" := VStr "i1"]> {["title" := VStr "x"]};
             <["id" := VStr "i2"]> {["title" := VStr "y"]} ].
Proof.
  rewrite (list_unrestricted (Sample.resolver None) ListSample.input
             ["id"; "title"] (MoreSample.world None []) _ None eq_refl I).
  vm_compute. reflexivity.
Defined.

(** X14.  How [list] fails at its gate when a rule table is present: a
    match that does not allow is an [AuthorizationError]; a match that
    allows without naming any restrictions makes the listing fail with a
    [TypeError] -- although the restriction rule applied by the other
    operations treats absent restrictions as no restriction. *)
Theorem list_gate_failures `{rt : JsRuntime} {E} (this : InstanceResolver) (input : ListInput)
  (info : list string) (w w1 : World E) (user : option (gmap string value))
  (a : Acl) :
  resolveUserForContext this w = (Return user, w1) ->
  acl this = Some a ->
  let accessMatch :=
    applyRules a (fst (userToAclTargets this user None)) Access None in
  (allow accessMatch = false ->
   list_ this input info w
   = (Throw (AuthorizationError "You do not have access to this object."), w1))
  /\ (allow accessMatch = true ->
      allowedRestrictions accessMatch = None ->
      list_ this input info w = (Throw TypeError, w1)
      /\ forall isOwner,
           _restrictionsApplyToUser (allowedRestrictions accessMatch) isOwner
           = true).
Proof.
  intros Huser Hacl accessMatch. subst accessMatch.
  unfold list_. cbv zeta.
  destruct (userToAclTargets this user None) as [targets own] eqn:Htargets.
  cbn [fst].
  split.
  - intros Hdeny. munfold. rewrite Huser, Hacl, Htargets, Hdeny. reflexivity.
  - intros Hallow Hnone. split.
    + munfold. rewrite Huser, Hacl, Htargets, Hallow, Hnone. cbn [negb].
      by destruct (filterStatements this (li_filter input)).
    + intros isOwner. by rewrite Hnone.
Qed.

(** A rule table that allows access without naming restrictions. *)
Lemma list_gate_failures_witness :
  list_ (Sample.resolver (Some (Sample.rules (fun _ => Sample.allowAll None))))
    ListSample.input ["id"] (Sample.world (Some "u1"))
  = (Throw TypeError,
     snd (resolveUserForContext
            (Sample.resolver (Some (Sample.rules (fun _ => Sample.allowAll None))))
            (Sample.world (Some "u1")))).
Proof.
  exact (proj1 (proj2 (list_gate_failures
                         (Sample.resolver
                            (Some (Sample.rules (fun _ => Sample.allowAll None))))
                         ListSample.input ["id"] (Sample.world (Some "u1")) _
                         (Some Sample.alice) _ eq_refl eq_refl)
                 eq_refl eq_refl)).
Defined.

Lemma sortingToOrdering_flags (this : InstanceResolver)
  (sorting : gmap string value) :
  sortingToOrdering this sorting
  = omap (fun f =>
            (fun b => {| column := keyOf (field f); desc := b |})
              <$> sortFlag f (Some sorting))
      (listingSortableFields this).
Proof.
  unfold sortingToOrdering.
  set (entry := fun f : Element =>
         (fun b => {| column := keyOf (field f); desc := b |})
           <$> sortFlag f (Some sorting)).
  assert (Hfold : forall fields acc,
    fold_left
      (fun ordering f =>
         match sorting !! keyOf (field f) with
         | None => ordering
         | Some v =>
             match v with
             | VBool b => push ordering {| column := keyOf (field f); desc := b |}
             | _ => ordering
             end
         end)
      fields acc
    = (acc ++ omap entry fields)%list).
  { induction fields as [|f fields IH]; intros acc.
    - cbn. by rewrite app_nil_r.
    - cbn [fold_left]. rewrite IH.
      change (omap entry (f :: fields))
        with (match entry f with
              | Some o => o :: omap entry fields
              | None => omap entry fields
              end).
      unfold entry at 2. unfold sortFlag.
      destruct (sorting !! keyOf (field f)) as [[]|]; try reflexivity.
      unfold push. cbn [fmap option_fmap option_map]. by rewrite <- app_assoc. }
  apply (Hfold (listingSortableFields this) []).
Qed.

Lemma omap_agree {A B} (g h : A -> option B) (l : list A) :
  (forall x, x ∈ l -> g x = h x) -> omap g l = omap h l.
Proof.
  induction l as [|x l IH]; intros Hgh; [reflexivity|].
  change (match g x with Some y => y :: omap g l | None => omap g l end
          = match h x with Some y => y :: omap h l | None => omap h l end).
  rewrite (Hgh x) by left. rewrite IH; [reflexivity|].
  intros y Hy. apply Hgh. by right.
Qed.

Lemma omap_none {A B} (g : A -> option B) (l : list A) :
  (forall x, x ∈ l -> g x = None) -> omap g l = [].
Proof.
  induction l as [|x l IH]; intros Hg; [reflexivity|].
  change (match g x with Some y => y :: omap g l | None => omap g l end = []).
  rewrite (Hg x) by left. apply IH. intros y Hy. apply Hg. by right.
Qed.

Lemma filterStatements_entries (this : InstanceResolver)
  (filter1 filter2 : option (gmap string value)) :
  (forall f, f ∈ listingFilterFields this ->
             filterEntry f filter1 = filterEntry f filter2) ->
  filterStatements this filter1 = filterStatements this filter2.
Proof.
  assert (Hnone : forall flt,
    (forall f, f ∈ listingFilterFields this -> filterEntry f (Some flt) = None) ->
    filterStatements this (Some flt) = filterStatements this None).
  { intros flt Hent. rewrite filterStatements_atoms.
    rewrite (omap_none (fun f => filterAtom f flt) (listingFilterFields this)).
    - reflexivity.
    - intros f Hf. rewrite filterAtom_entry. by rewrite (Hent f Hf). }
  intros Hent. destruct filter1 as [flt1|], filter2 as [flt2|].
  - rewrite !filterStatements_atoms.
    rewrite (omap_agree (fun f => filterAtom f flt1) (fun f => filterAtom f flt2));
      [reflexivity|].
    intros f Hf. rewrite !filterAtom_entry. by rewrite (Hent f Hf).
  - apply Hnone. intros f Hf. apply (Hent f Hf).
  - symmetry. apply Hnone. intros f Hf. symmetry. apply (Hent f Hf).
  - reflexivity.
Qed.

Lemma sorting_flags (this : InstanceResolver)
  (sorting1 sorting2 : option (gmap string value)) (q : Query) :
  (forall f, f ∈ listingSortableFields this ->
             sortFlag f sorting1 = sortFlag f sorting2) ->
  match sorting1 with
  | Some sorting =>
      if nonEmpty (listingSortableFields this) then
        let ordering := sortingToOrdering this sorting in
        if nonEmpty ordering then orderBy q ordering else q
      else q
  | None => q
  end
  = match sorting2 with
    | Some sorting =>
        if nonEmpty (listingSortableFields this) then
          let ordering := sortingToOrdering this sorting in
          if nonEmpty ordering then orderBy q ordering else q
        else q
    | None => q
    end.
Proof.
  assert (Hnone : forall s,
    (forall f, f ∈ listingSortableFields this -> sortFlag f (Some s) = None) ->
    (if nonEmpty (listingSortableFields this) then
       let ordering := sortingToOrdering this s in
       if nonEmpty ordering then orderBy q ordering else q
     else q) = q).
  { intros s Hflags. destruct (nonEmpty (listingSortableFields this)); [|done].
    cbv zeta. rewrite sortingToOrdering_flags.
    rewrite omap_none; [reflexivity|].
    intros f Hf. by rewrite (Hflags f Hf). }
  intros Hflags. destruct sorting1 as [s1|], sorting2 as [s2|].
  - rewrite !sortingToOrdering_flags.
    rewrite (omap_agree _
               (fun f => (fun b => {| column := keyOf (field f); desc := b |})
                           <$> sortFlag f (Some s2)));
      [reflexivity|].
    intros f Hf. by rewrite (Hflags f Hf).
  - apply Hnone. intros f Hf. apply (Hflags f Hf).
  - symmetry. apply Hnone. intros f Hf. symmetry. apply (Hflags f Hf).
  - reflexivity.
Qed.

Lemma bind_pointwise {E A B} (m : M E A) (k1 k2 : A -> M E B) (w : World E) :
  (forall a w', k1 a w' = k2 a w') -> (m ≫= k1) w = (m ≫= k2) w.
Proof.
  intros Hk. unfold mbind, M_bind. destruct (m w) as [[a|e] w']; [apply Hk|done].
Qed.

(** X15.  [list] depends on its input only through the entries that
    count: the truthy filter values of the declared listing-filter fields
    (arrays only, for a field taking several values) and the boolean
    sorting values of the declared sortable fields.  Two inputs that agree
    on those behave alike; other keys, falsy filter values and sorting
    values that are not booleans change nothing. *)
Theorem list_effective_input `{rt : JsRuntime} {E} (this : InstanceResolver)
  (input1 input2 : ListInput) (info : list string) (w : World E) :
  (forall f, f ∈ listingFilterFields this ->
             filterEntry f (li_filter input1) = filterEntry f (li_filter input2)) ->
  (forall f, f ∈ listingSortableFields this ->
             sortFlag f (li_sorting input1) = sortFlag f (li_sorting input2)) ->
  list_ this input1 info w = list_ this input2 info w.
Proof.
  intros Hfilter Hsorting. unfold list_. cbv zeta.
  rewrite (filterStatements_entries this _ _ Hfilter).
  apply bind_pointwise. intros user w1.
  apply bind_pointwise. intros rs w2.
  destruct (filterStatements this (li_filter input2)) as [fg added].
  apply bind_pointwise. intros q w3.
  pose proof (sorting_flags this _ _ (skipUndefined q) Hsorting) as Hsort.
  cbv zeta in Hsort. cbv beta zeta. by rewrite Hsort.
Qed.

(** A filter naming an undeclared key, an empty title and a phase that is
    not an array, with a sorting whose title entry is a string, lists what
    the empty input lists. *)
Lemma list_effective_input_witness :
  list_ MoreSample.listing
    {| li_filter := Some (<["owner" := VStr "u1"]>
                            (<["title" := VStr ""]> {["phase" := VStr "draft"]}));
       li_sorting := Some {["title" := VStr "desc"]} |}
    ["id"] (MoreSample.world None [])
  = list_ MoreSample.listing ListSample.input ["id"] (MoreSample.world None []).
Proof.
  apply list_effective_input.
  - intros f Hf. apply list_elem_of_In in Hf. cbn in Hf.
    destruct Hf as [<-|[<-|[]]]; reflexivity.
  - intros f Hf. apply list_elem_of_In in Hf. cbn in Hf.
    destruct Hf as [<-|[]]; reflexivity.
Defined.

(** ** Updating an instance *)

Lemma update_granted `{rt : JsRuntime} {E} (this : InstanceResolver) (input : jsobj)
  (info : list string) (w w1 w2 : World E)
  (object user : option (gmap string value)) :
  md_input (modelDef this) = Some true ->
  find this (oprop input "id") None w = (Return object, w1) ->
  resolveUserForContext this w1 = (Return user, w2) ->
  updateGranted this user object ->
  update this input info w
  = match applyInput
            match writeMatch this user object ≫= allowedFields with
            | Some fs => pick (allowedInputFields this) fs
            | None => allowedInputFields this
            end
            (odelete input "id") (okeys (odelete input "id")) object [] with
    | Throw e => throw e
    | Return (object, restrictedFields) =>
        if nonEmpty restrictedFields
        then throw (AuthorizationError
                      ("You do not have write access on the following fields: "
                         ++ join ", " restrictedFields))
        else
          match object with
          | Some o => save this o;; mret true
          | None => throw TypeError
          end
    end w2.
Proof.
  intros Hin Hfind Huser Hgate.
  unfold update. rewrite Hin. cbn [negb].
  unfold mbind at 1. unfold M_bind at 1. rewrite Hfind.
  unfold mbind at 1. unfold M_bind at 1. rewrite Huser.
  unfold updateGranted, writeMatch in *.
  destruct (acl this) as [a|].
  - destruct (userToAclTargets this user object) as [targets own].
    cbn [fst snd] in *. destruct Hgate as (Ha & Hr & Hw).
    unfold mbind at 1. unfold M_bind at 1. rewrite Ha, Hr, Hw. reflexivity.
  - reflexivity.
Qed.

Lemma applyInput_None (allowedFields : gmap string Element) (input : jsobj)
  (keys rs : list string) :
  applyInput allowedFields input keys None rs
  = if forallb (disallowedKey allowedFields) keys
    then Return (None, (rs ++ keys)%list)
    else Throw TypeError.
Proof.
  revert rs. induction keys as [|k keys IH]; intros rs; cbn [applyInput forallb].
  - by rewrite app_nil_r.
  - unfold disallowedKey at 1.
    destruct (bool_decide (is_Some (allowedFields !! k))); cbn [negb andb];
      [reflexivity|].
    rewrite IH. unfold push. by rewrite <- app_assoc.
Qed.

(** X16.  [update] has no check for a missing instance.  When the id
    names no stored row and the gates let the caller through, the call
    fails with a [TypeError] as soon as the input holds a writable key, or
    no key at all; an input of disallowed keys only is answered with the
    [AuthorizationError] naming them.  Nothing is written either way. *)
Theorem update_missing_instance `{rt : JsRuntime} {E} (this : InstanceResolver) (input : jsobj)
  (info : list string) (w w1 w2 : World E)
  (user : option (gmap string value)) :
  let keys := okeys (odelete input "id") in
  let writable :=
    match writeMatch this user None ≫= allowedFields with
    | Some fs => pick (allowedInputFields this) fs
    | None => allowedInputFields this
    end in
  md_input (modelDef this) = Some true ->
  find this (oprop input "id") None w = (Return None, w1) ->
  resolveUserForContext this w1 = (Return user, w2) ->
  updateGranted this user None ->
  sameStore w (snd (update this input info w))
  /\ ((exists k, k ∈ keys /\ is_Some (writable !! k)) \/ keys = [] ->
      fst (update this input info w) = Throw TypeError)
  /\ ((forall k, k ∈ keys -> writable !! k = None) -> keys <> [] ->
      fst (update this input info w)
      = Throw (AuthorizationError
                 ("You do not have write access on the following fields: "
                    ++ join ", " keys))).
Proof.
  intros keys writable Hin Hfind Huser Hgate.
  pose proof (find_world _ _ _ _ _ _ Hfind) as ->.
  destruct (resolveUserForContext_world _ _ _ _ Huser) as (Hdb & Hen & Htr & _).
  rewrite (update_granted this input info w w w2 None user Hin Hfind Huser Hgate).
  fold keys. fold writable. rewrite applyInput_None. cbn [app].
  destruct (forallb (disallowedKey writable) keys) eqn:Hall.
  - assert (Hnone : forall k, k ∈ keys -> writable !! k = None).
    { intros k Hk. rewrite forallb_forall in Hall.
      specialize (Hall k (proj1 (list_elem_of_In _ _) Hk)).
      unfold disallowedKey in Hall. apply negb_true_iff in Hall.
      apply bool_decide_eq_false in Hall.
      destruct (writable !! k); [|reflexivity]. destruct Hall. eauto. }
    destruct keys as [|k0 keys0] eqn:Hkeys.
    + cbn. split; [done|]. split; [done|]. intros _ Hne. by destruct Hne.
    + change (nonEmpty (k0 :: keys0)) with true. cbn [fst snd throw].
      split; [done|]. split; [|done].
      intros [(k & Hk & Hsome)|Hnil]; [|discriminate].
      rewrite (Hnone k Hk) in Hsome. by destruct Hsome.
  - cbn [fst snd throw]. split; [done|]. split; [done|].
    intros Hnone Hne. exfalso.
    assert (Hall' : forallb (disallowedKey writable) keys = true).
    { apply forallb_forall. intros k Hk. apply list_elem_of_In in Hk.
      unfold disallowedKey. rewrite (Hnone k Hk).
      apply negb_true_iff, bool_decide_eq_false. by intros [? ?]. }
    congruence.
Qed.

(** Renaming the title of an instance that does not exist. *)
Lemma update_missing_instance_witness :
  fst (update UpdateSample.this [("id", VStr "nope"); ("title", VStr "z")] []
         (Sample.world (Some "u1")))
  = Throw TypeError.
Proof.
  destruct (update_missing_instance UpdateSample.this
              [("id", VStr "nope"); ("title", VStr "z")] []
              (Sample.world (Some "u1")) _ _ (Some Sample.alice)
              eq_refl eq_refl eq_refl ltac:(repeat split)) as (_ & Hcrash & _).
  apply Hcrash. left. exists "title". split.
  - apply list_elem_of_In. left. reflexivity.
  - vm_compute. eauto.
Defined.

Lemma assign_lookup (input : jsobj) (keys : list string) (o : gmap string value)
  (k : string) :
  fold_left (fun o k => <[k := oprop input k]> o) keys o !! k
  = if bool_decide (k ∈ keys) then Some (oprop input k) else o !! k.
Proof.
  revert o. induction keys as [|k0 keys IH]; intros o; cbn [fold_left].
  - reflexivity.
  - rewrite IH. destruct (decide (k ∈ keys)) as [Hin|Hin].
    + rewrite !bool_decide_eq_true_2; [reflexivity|by right|done].
    + rewrite (bool_decide_eq_false_2 _ Hin).
      destruct (decide (k = k0)) as [->|Hne].
      * rewrite bool_decide_eq_true_2 by left. apply lookup_insert_eq.
      * rewrite bool_decide_eq_false_2.
        -- by apply lookup_insert_ne.
        -- intros Hk. apply elem_of_cons in Hk as [?|?]; done.
Qed.

Lemma okeys_odelete (o : jsobj) (k : string) : k ∉ okeys (odelete o k).
Proof.
  unfold okeys, odelete. intros Hin.
  apply list_elem_of_fmap in Hin as ([k' v] & -> & Hin).
  apply elem_of_filter_bool in Hin as [_ Hne]. cbn in Hne.
  by rewrite String.eqb_refl in Hne.
Qed.

(** X17.  What a successful [update] stores: the row of the instance
    takes the input's value at every input key (the id apart) and keeps
    its other properties; no other row changes. *)
Theorem update_stores_input `{rt : JsRuntime} {E} (this : InstanceResolver) (input : jsobj)
  (info : list string) (w w1 w2 : World E) (id : string)
  (o : gmap string value) (user : option (gmap string value)) :
  let input' := odelete input "id" in
  let writable :=
    match writeMatch this user (Some o) ≫= allowedFields with
    | Some fs => pick (allowedInputFields this) fs
    | None => allowedInputFields this
    end in
  md_input (modelDef this) = Some true ->
  find this (oprop input "id") None w = (Return (Some o), w1) ->
  prop o "id" = VStr id ->
  resolveUserForContext this w1 = (Return user, w2) ->
  updateGranted this user (Some o) ->
  (forall k, k ∈ okeys input' -> is_Some (writable !! k)) ->
  (forall o', accepts (modelClass this) o' = true) ->
  fst (update this input info w) = Return true
  /\ exists o',
       db (snd (update this input info w)) !! id = Some o'
       /\ (forall k, k ∈ okeys input' -> o' !! k = Some (oprop input' k))
       /\ (forall k, k ∉ okeys input' -> o' !! k = o !! k)
       /\ (forall id', id' <> id ->
             db (snd (update this input info w)) !! id' = db w !! id').
Proof.
  intros input' writable Hin Hfind Hid Huser Hgate Hall Hacc.
  pose proof (find_world _ _ _ _ _ _ Hfind) as ->.
  destruct (resolveUserForContext_world _ _ _ _ Huser) as (Hdb & _).
  rewrite (update_granted this input info w w w2 (Some o) user Hin Hfind Huser Hgate).
  fold input'. fold writable.
  rewrite applyInput_allowed.
  2:{ intros k Hk. unfold disallowedKey.
      apply negb_false_iff, bool_decide_eq_true. by apply Hall. }
  change (nonEmpty []) with false. cbv iota.
  set (o' := fold_left (fun o k => <[k := oprop input' k]> o) (okeys input') o).
  assert (Hid' : prop o' "id" = VStr id).
  { unfold prop, o'. rewrite assign_lookup.
    rewrite bool_decide_eq_false_2 by apply okeys_odelete. exact Hid. }
  unfold mbind, M_bind. rewrite (save_accepted this o' id w2 Hid' (Hacc o')).
  cbn [fst snd db withDb withEffect mret M_ret].
  split; [reflexivity|]. exists o'. split_and!.
  - apply lookup_insert_eq.
  - intros k Hk. unfold o'. rewrite assign_lookup.
    by rewrite bool_decide_eq_true_2.
  - intros k Hk. unfold o'. rewrite assign_lookup.
    by rewrite bool_decide_eq_false_2.
  - intros id' Hne. rewrite lookup_insert_ne by done. by rewrite Hdb.
Qed.

(** Renaming the instance ["i1"]: the title is replaced, the secret and
    the other row stay. *)
Lemma update_stores_input_witness :
  exists o',
    db (snd (update UpdateSample.this [("id", VStr "i1"); ("title", VStr "z")] []
               (Sample.world (Some "u1")))) !! "i1" = Some o'
    /\ o' !! "title" = Some (VStr "z")
    /\ o' !! "secret" = Sample.row1 !! "secret".
Proof.
  destruct (update_stores_input UpdateSample.this
              [("id", VStr "i1"); ("title", VStr "z")] []
              (Sample.world (Some "u1")) _ _ "i1" Sample.row1 (Some Sample.alice)
              eq_refl eq_refl eq_refl eq_refl ltac:(repeat split))
    as (_ & o' & Hrow & Hset & Hkeep & _).
  - intros k Hk. apply list_elem_of_In in Hk. cbn in Hk.
    destruct Hk as [<-|[]]. vm_compute. eauto.
  - reflexivity.
  - exists o'. split; [exact Hrow|]. split.
    + apply (Hset "title"). apply list_elem_of_In. left. reflexivity.
    + apply Hkeep. intros Hk. apply list_elem_of_In in Hk. cbn in Hk.
      destruct Hk as [Hk|[]]. discriminate.
Defined.

(** ** The request context *)

(** X18.  The identity of the caller is looked up at most once per
    request: once [resolveUserForContext] has found it, every later call
    on the same request context returns it from the context, whatever the
    identity store then holds. *)
Theorem resolved_user_memoized {E} (this : InstanceResolver) (w w1 : World E)
  (u : gmap string value) :
  resolveUserForContext this w = (Return (Some u), w1) ->
  forall w2 : World E,
    context w2 = context w1 ->
    resolveUserForContext this w2 = (Return (Some u), w2).
Proof.
  unfold resolveUserForContext. intros Hrun w2 Hctx.
  destruct (context w) as [c|] eqn:Hc; [|discriminate].
  destruct (negb (truthy_str (default "" (rc_user c)))) eqn:Hu; [discriminate|].
  destruct (resolvedUser c) as [u0|] eqn:Hr.
  - injection Hrun as -> <-. by rewrite Hctx, Hc, Hu, Hr.
  - injection Hrun as Hid <-. rewrite Hctx. cbn [context withContext rc_user].
    rewrite Hu. cbn [resolvedUser]. by rewrite Hid.
Qed.

(** After the first call the identity store may lose the caller. *)
Lemma resolved_user_memoized_witness :
  let w1 := snd (resolveUserForContext (Sample.resolver None)
                   (Sample.world (Some "u1"))) in
  let w2 := {| db := db w1; identities := ∅; engine := engine w1;
               context := context w1; trace := trace w1 |} in
  resolveUserForContext (Sample.resolver None) w2
  = (Return (Some Sample.alice), w2).
Proof.
  intros w1 w2.
  exact (resolved_user_memoized (Sample.resolver None)
           (Sample.world (Some "u1")) w1 Sample.alice eq_refl w2 eq_refl).
Defined.

Lemma cache_fold (rows : list (gmap string value))
  (m : gmap string (gmap string value)) (key : string)
  (row : gmap string value) :
  (forall row', row' ∈ rows ->
     truthy (prop row' "id") = true ->
     toPropertyKey (prop row' "id") = key -> row' = row) ->
  m !! key = Some row
  \/ (row ∈ rows /\ truthy (prop row "id") = true
      /\ toPropertyKey (prop row "id") = key) ->
  fold_left
    (fun m instance =>
       let id := prop instance "id" in
       if truthy id then <[toPropertyKey id := instance]> m else m)
    rows m !! key = Some row.
Proof.
  revert m. induction rows as [|r rows IH]; intros m Huniq Hhas.
  - destruct Hhas as [Hm|[Hin _]]; [exact Hm|inversion Hin].
  - cbn [fold_left]. apply IH.
    + intros row' Hin. apply Huniq. by right.
    + cbv zeta. destruct (truthy (prop r "id")) eqn:Ht.
      * destruct (decide (toPropertyKey (prop r "id") = key)) as [Hk|Hk].
        -- left. rewrite (Huniq r) in * by (done || left).
           rewrite Hk. apply lookup_insert_eq.
        -- destruct Hhas as [Hm|(Hin & Ht' & Hk')].
           ++ left. by rewrite lookup_insert_ne.
           ++ right. apply elem_of_cons in Hin as [->|Hin]; [done|done].
      * destruct Hhas as [Hm|(Hin & Ht' & Hk')]; [by left|].
        right. apply elem_of_cons in Hin as [->|Hin]; [congruence|done].
Qed.

(** X19.  Instances added to the request context are served from it:
    after [addInstancesToContext], [resolveInstanceUsingContext] returns
    the added row for its id without consulting storage -- also when the
    stored row has changed or gone since -- and writes nothing. *)
Theorem cached_instance_served {E} (this : InstanceResolver)
  (rows : list (gmap string value)) (row : gmap string value) (id : string)
  (w : World E) (c : RequestContext) :
  context w = Some c ->
  truthy_str (default "" (rc_user c)) = true ->
  row ∈ rows ->
  prop row "id" = VStr id ->
  truthy_str id = true ->
  (forall row', row' ∈ rows ->
     truthy (prop row' "id") = true ->
     toPropertyKey (prop row' "id") = id -> row' = row) ->
  forall w2 : World E,
    context w2 = context (snd (addInstancesToContext this rows w)) ->
    fst (resolveInstanceUsingContext this (VStr id) true w2) = Return (Some row)
    /\ sameStore w2 (snd (resolveInstanceUsingContext this (VStr id) true w2)).
Proof.
  intros Hc Huser Hin Hid Htid Huniq w2 Hctx.
  assert (Hrows : nonEmpty rows = true)
    by (apply nonEmpty_true; intros Hnil; rewrite Hnil in Hin; inversion Hin).
  unfold addInstancesToContext in Hctx. rewrite Hc, Hrows in Hctx.
  cbn [snd context withContext] in Hctx.
  unfold resolveInstanceUsingContext. rewrite Hctx. cbn [rc_user].
  rewrite Huser. cbn [negb instanceLookup]. rewrite lookup_insert_eq.
  cbn [default from_option Datatypes.id toPropertyKey].
  rewrite (cache_fold rows _ id row Huniq).
  - split; [reflexivity|]. done.
  - right. split; [exact Hin|]. rewrite Hid. by split.
Qed.

(** The row listed for ["i1"] is still resolved after it was deleted from
    storage. *)
Lemma cached_instance_served_witness :
  let w1 := snd (addInstancesToContext (Sample.resolver None)
                   [Sample.row1; Sample.row2] (Sample.world (Some "u1"))) in
  let w2 := {| db := ∅; identities := identities w1; engine := engine w1;
               context := context w1; trace := trace w1 |} in
  fst (resolveInstanceUsingContext (Sample.resolver None) (VStr "i1") true w2)
  = Return (Some Sample.row1).
Proof.
  intros w1 w2.
  refine (proj1 (cached_instance_served (Sample.resolver None)
                   [Sample.row1; Sample.row2] Sample.row1 "i1"
                   (Sample.world (Some "u1")) _ eq_refl eq_refl _ eq_refl eq_refl
                   _ w2 eq_refl)).
  - left.
  - intros row' Hin _ Hkey. apply list_elem_of_In in Hin. cbn in Hin.
    destruct Hin as [<-|[<-|[]]]; [reflexivity|discriminate Hkey].
Defined.

(** X20.  [resolveRelation] never touches the world and never uses the
    request context: its outcome is determined by the stored rows alone,
    so an instance cached in the context is read from storage again. *)
Theorem resolveRelation_reads_storage {E}
  (relatedQuery : gmap string value -> string -> value)
  (this : InstanceResolver) (element : Element)
  (parent : option (gmap string value)) (w : World E) :
  snd (resolveRelation relatedQuery this element parent w) = w
  /\ forall w' : World E,
       db w' = db w ->
       fst (resolveRelation relatedQuery this element parent w')
       = fst (resolveRelation relatedQuery this element parent w).
Proof.
  unfold resolveRelation.
  destruct parent as [p|]; [|by split].
  destruct (negb (truthy (prop p "id"))); [by split|].
  destruct (negb (strict_eq (prop p (keyOf (field element))) VUndefined));
    [by split|].
  unfold resolveInstanceUsingContext, find. munfold. split.
  - by destruct (match prop p "id" with VStr s => db w !! s | _ => None end).
  - intros w' ->.
    by destruct (match prop p "id" with VStr s => db w !! s | _ => None end).
Qed.

(** ** Creating an instance *)

Lemma create_granted {E} (pds : ProcessDefinitionService E)
  (defaultsOf : Element -> ElementDefault) (created updated newId : string)
  (this : InstanceResolver) (w w1 : World E)
  (user : option (gmap string value)) :
  resolveUserForContext this w = (Return user, w1) ->
  createGranted this created updated user ->
  create pds defaultsOf created updated newId this w
  = (newInstance ← saveNew this
                     (prepareInstance this defaultsOf user
                        (newInstanceAt created updated)) newId;
     engineCall (processDefinitionService_start pds (processKey (taskDef this))
                   newId);;
     mret newInstance) w1.
Proof.
  intros Huser Hgate. unfold create. cbv zeta.
  unfold mbind at 1. unfold M_bind at 1. rewrite Huser.
  unfold createGranted in Hgate.
  destruct (acl this) as [a|]; [|reflexivity].
  destruct (userToAclTargets this user (Some (newInstanceAt created updated)))
    as [targets own].
  cbn [fst] in Hgate. unfold mbind at 1. unfold M_bind at 1.
  by rewrite Hgate.
Qed.

Lemma saveNew_accepted {E} (this : InstanceResolver) (o : gmap string value)
  (newId : string) (w : World E) :
  accepts (modelClass this) o = true ->
  saveNew this o newId w
  = (Return (<["id" := VStr newId]> o),
     withDb (withEffect w (ESave o))
       (<[newId := <["id" := VStr newId]> o]> (db w))).
Proof. intros Hacc. unfold saveNew. munfold. by rewrite Hacc. Qed.

(** X21.  A [create] that the rules do not allow fails with its
    [AuthorizationError] before anything happens: no row is stored, no
    process is started, nothing is logged. *)
Theorem create_denied {E} (pds : ProcessDefinitionService E)
  (defaultsOf : Element -> ElementDefault) (created updated newId : string)
  (this : InstanceResolver) (w w1 : World E)
  (user : option (gmap string value)) (a : Acl) :
  resolveUserForContext this w = (Return user, w1) ->
  acl this = Some a ->
  allow (applyRules a
           (fst (userToAclTargets this user (Some (newInstanceAt created updated))))
           Create (Some (newInstanceAt created updated))) = false ->
  create pds defaultsOf created updated newId this w
  = (Throw (AuthorizationError "You do not have rights to create a new instance."),
     w1)
  /\ sameStore w w1.
Proof.
  intros Huser Hacl Hdeny. split.
  - unfold create. cbv zeta.
    unfold mbind at 1. unfold M_bind at 1. rewrite Huser, Hacl.
    destruct (userToAclTargets this user (Some (newInstanceAt created updated)))
      as [targets own].
    cbn [fst] in Hdeny. unfold mbind at 1. unfold M_bind at 1.
    by rewrite Hdeny.
  - destruct (resolveUserForContext_world _ _ _ _ Huser) as (? & ? & ? & _).
    done.
Qed.

(** A rule table that denies everything. *)
Lemma create_denied_witness :
  fst (create MoreSample.starts MoreSample.defaults "t0" "t0" "i9"
         (Sample.resolver (Some (Sample.rules (fun _ => Sample.denyAll))))
         (MoreSample.world (Some "u1") []))
  = Throw (AuthorizationError "You do not have rights to create a new instance.").
Proof.
  destruct (create_denied MoreSample.starts MoreSample.defaults "t0" "t0" "i9"
              (Sample.resolver (Some (Sample.rules (fun _ => Sample.denyAll))))
              (MoreSample.world (Some "u1") []) _ (Some Sample.alice) _
              eq_refl eq_refl eq_refl) as [Hrun _].
  by rewrite Hrun.
Defined.

(** X22.  When the engine fails to start the process, [create] passes
    the engine's own error on -- and the new instance, saved before,
    stays stored without a process. *)
Theorem create_start_failure {E} (pds : ProcessDefinitionService E)
  (defaultsOf : Element -> ElementDefault) (created updated newId : string)
  (this : InstanceResolver) (w w1 : World E)
  (user : option (gmap string value)) (err : JsError) :
  resolveUserForContext this w = (Return user, w1) ->
  createGranted this created updated user ->
  accepts (modelClass this)
    (prepareInstance this defaultsOf user (newInstanceAt created updated)) = true ->
  fst (processDefinitionService_start pds (processKey (taskDef this)) newId
         (engine w1)) = Throw err ->
  fst (create pds defaultsOf created updated newId this w) = Throw err
  /\ exists row,
       db (snd (create pds defaultsOf created updated newId this w)) !! newId
       = Some row
       /\ row !! "id" = Some (VStr newId).
Proof.
  intros Huser Hgate Hacc Hstart.
  set (row := <["id" := VStr newId]>
                (prepareInstance this defaultsOf user
                   (newInstanceAt created updated))).
  assert (Hrun : exists w',
    create pds defaultsOf created updated newId this w = (Throw err, w')
    /\ db w' !! newId = Some row).
  { rewrite (create_granted pds defaultsOf created updated newId this w w1 user
               Huser Hgate).
    unfold mbind at 1. unfold M_bind at 1.
    rewrite (saveNew_accepted this _ newId w1 Hacc).
    munfold. cbn [engine withDb withEffect]. rewrite Hstart.
    eexists. split; [reflexivity|]. cbn [db withEngine withDb].
    apply lookup_insert_eq. }
  destruct Hrun as (w' & -> & Hrow). split; [reflexivity|].
  exists row. split; [exact Hrow|apply lookup_insert_eq].
Qed.

(** The engine is unavailable: the error is its own, the row is there. *)
Lemma create_start_failure_witness :
  let run := create MoreSample.unavailable MoreSample.defaults "t0" "t0" "i9"
               (Sample.resolver None) (MoreSample.world (Some "u1") []) in
  fst run = Throw (TransportError "503")
  /\ exists row, db (snd run) !! "i9" = Some row
                 /\ row !! "id" = Some (VStr "i9").
Proof.
  exact (create_start_failure MoreSample.unavailable MoreSample.defaults
           "t0" "t0" "i9" (Sample.resolver None)
           (MoreSample.world (Some "u1") []) _ (Some Sample.alice)
           (TransportError "503") eq_refl I eq_refl eq_refl).
Defined.

Lemma assignOwner_lookup (this : InstanceResolver) (userId : value)
  (o : gmap string value) (k : string) :
  assignOwner this userId o !! k
  = if bool_decide (k ∈ map (fun f => keyOf (joinField f)) (ownerFields this))
    then Some userId else o !! k.
Proof.
  unfold assignOwner. revert o.
  induction (ownerFields this) as [|f fs IH]; intros o; cbn [fold_left map].
  - reflexivity.
  - rewrite IH.
    destruct (decide (k ∈ map (fun f => keyOf (joinField f)) fs)) as [Hin|Hin].
    + rewrite !bool_decide_eq_true_2; [reflexivity|by right|exact Hin].
    + rewrite (bool_decide_eq_false_2 _ Hin).
      destruct (decide (k = keyOf (joinField f))) as [->|Hk].
      * rewrite bool_decide_eq_true_2 by left. apply lookup_insert_eq.
      * rewrite bool_decide_eq_false_2.
        -- by apply lookup_insert_ne.
        -- intros Hk0. apply elem_of_cons in Hk0 as [?|?]; done.
Qed.

Lemma defaults_untouched (this : InstanceResolver)
  (defaultsOf : Element -> ElementDefault) (es : list Element)
  (o : gmap string value) (k : string) :
  (forall e, e ∈ es -> keyOf (field e) = k -> defaultFor this defaultsOf e = None) ->
  fold_left (applyDefault this defaultsOf) es o !! k = o !! k.
Proof.
  revert o. induction es as [|e es IH]; intros o Hnone; [reflexivity|].
  cbn [fold_left]. rewrite IH by (intros e' He'; apply Hnone; by right).
  unfold applyDefault.
  destruct (defaultFor this defaultsOf e) as [v|] eqn:Hd; [|reflexivity].
  apply lookup_insert_ne. intros Hk.
  rewrite (Hnone e) in Hd by (done || left). discriminate.
Qed.

Lemma defaults_applied (this : InstanceResolver)
  (defaultsOf : Element -> ElementDefault) (es : list Element)
  (o : gmap string value) (k : string) (v : value) :
  (forall e, e ∈ es -> keyOf (field e) = k ->
     defaultFor this defaultsOf e = Some v \/ defaultFor this defaultsOf e = None) ->
  o !! k = Some v
  \/ (exists e, e ∈ es /\ keyOf (field e) = k
                /\ defaultFor this defaultsOf e = Some v) ->
  fold_left (applyDefault this defaultsOf) es o !! k = Some v.
Proof.
  revert o. induction es as [|e es IH]; intros o Hsame Hhas.
  - destruct Hhas as [Ho|(e & He & _)]; [exact Ho|inversion He].
  - cbn [fold_left]. apply IH.
    + intros e' He'. apply Hsame. by right.
    + unfold applyDefault.
      destruct (decide (keyOf (field e) = k)) as [Hk|Hk].
      * destruct (Hsame e ltac:(left) Hk) as [Hd|Hd]; rewrite Hd.
        -- left. rewrite Hk. apply lookup_insert_eq.
        -- destruct Hhas as [Ho|(e0 & He0 & Hk0 & Hd0)]; [by left|].
           right. apply elem_of_cons in He0 as [->|He0]; [congruence|].
           by exists e0.
      * destruct Hhas as [Ho|(e0 & He0 & Hk0 & Hd0)].
        -- left. destruct (defaultFor this defaultsOf e); [|exact Ho].
           by rewrite lookup_insert_ne.
        -- right. apply elem_of_cons in He0 as [->|He0]; [done|].
           by exists e0.
Qed.

(** X23.  What a successful [create] stores and returns: the row carries
    the new id; every owner field's join column holds the id of an
    identified caller; every element with a default (an enum value, else
    a default value, applied only when truthy) holds it; and apart from
    [created] and [updated] nothing else is set.  Defaults are applied
    after the owner, so a default on a join column would replace it.  The
    process is started with the task definition's key and the new id. *)
Theorem create_row {E} (pds : ProcessDefinitionService E)
  (defaultsOf : Element -> ElementDefault) (created updated newId : string)
  (this : InstanceResolver) (w w1 : World E)
  (user : option (gmap string value)) :
  resolveUserForContext this w = (Return user, w1) ->
  createGranted this created updated user ->
  accepts (modelClass this)
    (prepareInstance this defaultsOf user (newInstanceAt created updated)) = true ->
  fst (processDefinitionService_start pds (processKey (taskDef this)) newId
         (engine w1)) = Return () ->
  let noDefault k :=
    forall e, e ∈ elements (modelDef this) -> keyOf (field e) = k ->
              defaultFor this defaultsOf e = None in
  let identified u := user = Some u /\ truthy (prop u "id") = true in
  exists row,
    fst (create pds defaultsOf created updated newId this w) = Return row
    /\ db (snd (create pds defaultsOf created updated newId this w)) !! newId
       = Some row
    /\ engine (snd (create pds defaultsOf created updated newId this w))
       = snd (processDefinitionService_start pds (processKey (taskDef this))
                newId (engine w1))
    /\ row !! "id" = Some (VStr newId)
    /\ (forall u f, identified u -> f ∈ ownerFields this ->
          keyOf (joinField f) <> "id" -> noDefault (keyOf (joinField f)) ->
          row !! keyOf (joinField f) = Some (prop u "id"))
    /\ (forall e v, e ∈ elements (modelDef this) ->
          defaultFor this defaultsOf e = Some v ->
          keyOf (field e) <> "id" ->
          (forall e', e' ∈ elements (modelDef this) ->
             keyOf (field e') = keyOf (field e) ->
             defaultFor this defaultsOf e' = Some v
             \/ defaultFor this defaultsOf e' = None) ->
          row !! keyOf (field e) = Some v)
    /\ (forall k, k ∉ ["id"; "created"; "updated"] -> noDefault k ->
          (forall u f, identified u -> f ∈ ownerFields this ->
                       keyOf (joinField f) <> k) ->
          row !! k = None).
Proof.
  intros Huser Hgate Hacc Hstart noDefault identified.
  set (prepared := prepareInstance this defaultsOf user
                     (newInstanceAt created updated)) in *.
  assert (Hrun :
    create pds defaultsOf created updated newId this w
    = (Return (<["id" := VStr newId]> prepared),
       withEngine
         (withDb (withEffect w1 (ESave prepared))
            (<[newId := <["id" := VStr newId]> prepared]> (db w1)))
         (snd (processDefinitionService_start pds (processKey (taskDef this))
                 newId (engine w1))))).
  { rewrite (create_granted pds defaultsOf created updated newId this w w1 user
               Huser Hgate).
    unfold mbind at 1. unfold M_bind at 1. fold prepared.
    rewrite (saveNew_accepted this _ newId w1 Hacc).
    munfold. cbn [engine withDb withEffect]. by rewrite Hstart. }
  rewrite Hrun. cbn [fst snd db engine withEngine withDb].
  exists (<["id" := VStr newId]> prepared).
  split; [reflexivity|]. split; [apply lookup_insert_eq|].
  split; [reflexivity|]. split; [apply lookup_insert_eq|].
  split; [|split].
  - intros u f [-> Hid] Hf Hne Hnone.
    rewrite lookup_insert_ne by done. unfold prepared, prepareInstance.
    rewrite defaults_untouched by exact Hnone. rewrite Hid.
    assert (Hown : nonEmpty (ownerFields this) = true)
      by (apply nonEmpty_true; intros Hnil; rewrite Hnil in Hf; inversion Hf).
    rewrite Hown. cbn [andb]. rewrite assignOwner_lookup.
    rewrite bool_decide_eq_true_2; [reflexivity|].
    apply list_elem_of_fmap. by exists f.
  - intros e v He Hd Hne Hsame.
    rewrite lookup_insert_ne by done. unfold prepared, prepareInstance.
    apply defaults_applied; [exact Hsame|]. right. by exists e.
  - intros k Hk Hnone Howner.
    assert (Hk' : k <> "id" /\ k <> "created" /\ k <> "updated").
    { split_and!; intros ->; apply Hk; apply list_elem_of_In; cbn; tauto. }
    destruct Hk' as (Hk1 & Hk2 & Hk3).
    rewrite lookup_insert_ne by done. unfold prepared, prepareInstance.
    rewrite defaults_untouched by exact Hnone.
    assert (Hnew : newInstanceAt created updated !! k = None).
    { unfold newInstanceAt. by rewrite !lookup_insert_ne, lookup_empty. }
    destruct user as [u|]; [|exact Hnew].
    destruct (truthy (prop u "id")) eqn:Hid; cbn [andb]; [|exact Hnew].
    destruct (nonEmpty (ownerFields this)); [|exact Hnew].
    rewrite assignOwner_lookup. rewrite bool_decide_eq_false_2; [exact Hnew|].
    intros Hin. apply list_elem_of_fmap in Hin as (f & Hkf & Hf).
    by apply (Howner u f).
Qed.

(** Alice creates a submission: she becomes its submitter, the phase gets
    its default, the empty default title is not applied. *)
Lemma create_row_witness :
  exists row,
    fst (create MoreSample.starts MoreSample.defaults "t0" "t0" "i9"
           (Sample.resolver None) (MoreSample.world (Some "u1") []))
    = Return row
    /\ row !! "submitterId" = Some (VStr "u1")
    /\ row !! "phase" = Some (VStr "draft")
    /\ row !! "title" = None.
Proof.
  assert (Hdefaults : forall e, e ∈ elements (modelDef (Sample.resolver None)) ->
            e = Sample.el "title" \/ e = Sample.el "secret"
            \/ e = Sample.el "phase" \/ e = Sample.el "hidden"
            \/ e = Sample.submitter).
  { intros e He. apply list_elem_of_In in He. cbn in He.
    destruct He as [<-|[<-|[<-|[<-|[<-|[]]]]]]; tauto. }
  destruct (create_row MoreSample.starts MoreSample.defaults "t0" "t0" "i9"
              (Sample.resolver None) (MoreSample.world (Some "u1") []) _
              (Some Sample.alice) eq_refl I eq_refl eq_refl)
    as (row & Hres & _ & _ & _ & Howner & Hdefault & Hnone).
  exists row. split; [exact Hres|]. split; [|split].
  - apply (Howner Sample.alice Sample.submitter).
    + by split.
    + apply list_elem_of_In. left. reflexivity.
    + discriminate.
    + intros e He Hk.
      destruct (Hdefaults e He) as [->|[->|[->|[->| ->]]]];
        first [discriminate Hk|reflexivity].
  - apply (Hdefault (Sample.el "phase") (VStr "draft")).
    + apply list_elem_of_In. cbn. tauto.
    + reflexivity.
    + discriminate.
    + intros e He Hk.
      destruct (Hdefaults e He) as [->|[->|[->|[->| ->]]]];
        first [discriminate Hk|by left].
  - apply Hnone.
    + intros Hin. apply list_elem_of_In in Hin. cbn in Hin.
      destruct Hin as [?|[?|[?|[]]]]; discriminate.
    + intros e He Hk.
      destruct (Hdefaults e He) as [->|[->|[->|[->| ->]]]];
        first [discriminate Hk|reflexivity].
    + intros u f _ Hf. apply list_elem_of_In in Hf. cbn in Hf.
      destruct Hf as [<-|[]]. discriminate.
Defined.

(** ** Reading one instance and listing agree *)

(** X24.  What [get] returns for a stored instance is what an
    unrestricted, unsorted [list] returns for its row: when the row passes
    the filter and the caller passes the access gate, the object [get]
    answers with is an element of the listing. *)
Theorem list_contains_get `{rt : JsRuntime} {E} (this : InstanceResolver) (input : ListInput)
  (info : list string) (id : string) (w w1 : World E)
  (row : gmap string value) (user : option (gmap string value)) :
  let obj := match eagerResolvesFor this info with
             | Some rels => expand (modelClass this) rels row
             | None => row
             end in
  resolveUserForContext this w = (Return user, w1) ->
  db w !! id = Some row ->
  accessGranted this user obj ->
  listsAll this user ->
  li_sorting input = None ->
  passesFilters this (li_filter input) row = true ->
  exists r l,
    fst (get this id info w) = Return (GotObject r)
    /\ fst (list_ this input info w) = Return l
    /\ r ∈ l.
Proof.
  intros obj Huser Hrow Haccess Hall Hsort Hpass.
  exists (redactFor this user info obj).
  eexists. split; [|split].
  - apply (get_granted this id info w w w1 obj user); [|exact Huser|exact Haccess].
    unfold find. rewrite Hrow. subst obj.
    by destruct (eagerResolvesFor this info).
  - apply (list_all_rows this input info w w1 user Huser Hall).
  - apply list_elem_of_fmap. exists obj. split; [reflexivity|].
    assert (Hin : row ∈ List.filter (passesFilters this (li_filter input))
                          (storedRows w)).
    { apply elem_of_filter_bool. split; [|exact Hpass].
      unfold storedRows. apply list_elem_of_fmap. exists (id, row).
      split; [reflexivity|]. by apply elem_of_map_to_list. }
    unfold presentRows. rewrite Hsort. subst obj.
    destruct (eagerResolvesFor this info) as [rels|]; [|exact Hin].
    apply list_elem_of_fmap. by exists row.
Qed.

(** The first row, read and listed by its owner. *)
Lemma list_contains_get_witness :
  exists r l,
    fst (get (Sample.resolver None) "i1" ["id"; "title"]
           (MoreSample.world (Some "u1") [])) = Return (GotObject r)
    /\ fst (list_ (Sample.resolver None) ListSample.input ["id"; "title"]
              (MoreSample.world (Some "u1") [])) = Return l
    /\ r ∈ l.
Proof.
  exact (list_contains_get (Sample.resolver None) ListSample.input
           ["id"; "title"] "i1" (MoreSample.world (Some "u1") []) _
           Sample.row1 (Some Sample.alice) eq_refl eq_refl I I eq_refl eq_refl).
Defined.

(** ** Sorting *)

(** X25.  The ordering [list] asks for follows the model, not the
    request: it has one entry for every sortable field whose sorting value
    is a boolean ([true] for descending), and its columns come in the
    order in which the model declares the sortable fields. *)
Theorem sorting_follows_model (this : InstanceResolver)
  (sorting : gmap string value) :
  (forall o, o ∈ sortingToOrdering this sorting
             <-> exists f b, f ∈ listingSortableFields this
                             /\ sorting !! keyOf (field f) = Some (VBool b)
                             /\ o = {| column := keyOf (field f); desc := b |})
  /\ map column (sortingToOrdering this sorting)
     `sublist_of` map (fun f => keyOf (field f)) (listingSortableFields this).
Proof.
  rewrite sortingToOrdering_flags. split.
  - intros o. rewrite list_elem_of_omap. split.
    + intros (f & Hf & Ho). exists f. unfold sortFlag in Ho.
      destruct (sorting !! keyOf (field f)) as [[]|]; try discriminate.
      injection Ho as <-. eauto.
    + intros (f & b & Hf & Hs & ->). exists f. split; [exact Hf|].
      unfold sortFlag. by rewrite Hs.
  - induction (listingSortableFields this) as [|f fs IH]; [constructor|].
    change (omap (fun f0 => (fun b => {| column := keyOf (field f0); desc := b |})
                              <$> sortFlag f0 (Some sorting)) (f :: fs))
      with (match (fun b => {| column := keyOf (field f); desc := b |})
                    <$> sortFlag f (Some sorting) with
            | Some o => o :: omap (fun f0 => (fun b => {| column := keyOf (field f0);
                                                         desc := b |})
                                              <$> sortFlag f0 (Some sorting)) fs
            | None => omap (fun f0 => (fun b => {| column := keyOf (field f0);
                                                   desc := b |})
                                        <$> sortFlag f0 (Some sorting)) fs
            end).
    destruct (sortFlag f (Some sorting)) as [b|]; cbn [fmap option_fmap option_map map].
    + by apply sublist_skip.
    + by apply sublist_cons.
Qed.

(** ** The field ceilings *)

(** X26.  The field sets of a resolver nest: every field that accepts
    input is readable under the model, and a policy match that names plain
    field names only narrows them -- the fields [getAllowedReadFields]
    grants to such a match (the fixed additional ones apart) are exactly
    the readable fields the match admits, and all of them are granted when
    there is no match. *)
Theorem ceilings_nest `{rt : JsRuntime} (utils : Utils) (uid : nat) (mc : ModelClass)
  (td : TaskDefinition) (enums : Enums) :
  let this := newInstanceResolver utils uid mc td enums in
  (forall k, is_Some (allowedInputFields this !! k) ->
             is_Some (allowedReadFields this !! k))
  /\ (forall m k, plainPolicy m ->
        (k ∈ getAllowedReadFields this m false
         <-> is_Some (allowedReadFields this !! k) /\ policyAdmits m k))
  /\ (forall m k, plainPolicy m ->
        k ∈ getAllowedReadFields this m false ->
        k ∈ getAllowedReadFields this None false).
Proof.
  intros this.
  assert (Hpolicy : forall m k, plainPolicy m ->
            (k ∈ getAllowedReadFields this m false
             <-> is_Some (allowedReadFields this !! k) /\ policyAdmits m k)).
  { intros m k. unfold getAllowedReadFields, policyAdmits, plainPolicy.
    destruct (m ≫= allowedFields) as [fs|]; intros Hplain.
    - rewrite (pick_plain _ _ Hplain), elem_of_dom. apply pickOwn_is_Some.
    - rewrite elem_of_dom. tauto. }
  split; [|split].
  - intros k Hk. subst this. cbn [allowedInputFields allowedReadFields] in *.
    apply _allowedReadFieldKeysForInstance_spec.
    apply _allowedInputKeysForInstanceInput_spec in Hk
      as (e & He & Hf & Hne & _).
    by exists e.
  - exact Hpolicy.
  - intros m k Hplain Hk. destruct (proj1 (Hpolicy m k Hplain) Hk) as [Hread _].
    unfold getAllowedReadFields. cbn. by apply elem_of_dom.
Qed.

(** ** Reordering files and authors *)

Lemma relativeStart_le (len : nat) (start : Z) :
  (relativeStart len start <= len)%nat.
Proof. unfold relativeStart. destruct (start <? 0)%Z eqn:H; lia. Qed.

Lemma relativeStart_in_range (len : nat) (start : Z) :
  (0 <= start < Z.of_nat len)%Z -> relativeStart len start = Z.to_nat start.
Proof. intros H. unfold relativeStart. destruct (start <? 0)%Z eqn:Hs; lia. Qed.

Lemma relativeStart_beyond (len : nat) (start : Z) :
  (Z.of_nat len <= start)%Z -> relativeStart len start = len.
Proof. intros H. unfold relativeStart. destruct (start <? 0)%Z eqn:Hs; lia. Qed.

Lemma splice_remove_one {A} (arr : list A) (start : Z) (x : A) :
  arr !! relativeStart (length arr) start = Some x ->
  splice arr start (Some 1%nat) []
  = ([x], (take (relativeStart (length arr) start) arr
           ++ drop (S (relativeStart (length arr) start)) arr)%list).
Proof.
  intros Hx. unfold splice. set (s := relativeStart (length arr) start) in *.
  assert (Hlt : (s < length arr)%nat) by (by apply lookup_lt_Some in Hx).
  replace (Nat.min 1 (length arr - s)) with 1%nat by lia.
  replace (s + 1)%nat with (S s) by lia. cbn [app]. f_equal.
  rewrite <- (take_drop_middle arr s x Hx) at 1.
  rewrite drop_app_length'; [reflexivity|].
  rewrite length_take. lia.
Qed.

Lemma splice_remove_none {A} (arr : list A) (start : Z) :
  relativeStart (length arr) start = length arr ->
  splice arr start (Some 1%nat) [] = ([], arr).
Proof.
  intros Hs. unfold splice. rewrite Hs.
  replace (Nat.min 1 (length arr - length arr)) with 0%nat by lia.
  rewrite Nat.add_0_r, firstn_O, drop_ge by lia.
  rewrite take_ge by lia. cbn [app]. by rewrite app_nil_r.
Qed.

Lemma splice_insert {A} (arr : list A) (start : Z) (x : A) :
  splice arr start (Some 0%nat) [x]
  = ([], (take (relativeStart (length arr) start) arr
          ++ x :: drop (relativeStart (length arr) start) arr)%list).
Proof.
  unfold splice.
  replace (Nat.min 0 (length arr - relativeStart (length arr) start))
    with 0%nat by lia.
  by rewrite firstn_O, Nat.add_0_r.
Qed.

Lemma splice_all {A} (arr : list A) : splice arr 0 None [] = (arr, []).
Proof.
  assert (H0 : relativeStart (length arr) 0 = 0%nat).
  { unfold relativeStart. change (0 <? 0)%Z with false. cbv iota. lia. }
  unfold splice. rewrite H0. rewrite Nat.sub_0_r. cbn [Nat.add].
  rewrite drop_0, firstn_O, drop_ge by lia. by rewrite take_ge by lia.
Qed.

(** Moving one element: what the two [splice] calls of [reorderFile] and
    [onDragEnd] compute when the source index falls inside the array. *)
Lemma move_spec {A} (arr : list A) (from to : Z) (x : A) :
  arr !! relativeStart (length arr) from = Some x ->
  let rest := (take (relativeStart (length arr) from) arr
               ++ drop (S (relativeStart (length arr) from)) arr)%list in
  let moved := (take (relativeStart (length rest) to) rest
                ++ x :: drop (relativeStart (length rest) to) rest)%list in
  moved ≡ₚ arr
  /\ length rest = (length arr - 1)%nat
  /\ moved !! relativeStart (length arr - 1) to = Some x.
Proof.
  intros Hx rest moved.
  set (s := relativeStart (length arr) from) in *.
  assert (Hlt : (s < length arr)%nat) by (by apply lookup_lt_Some in Hx).
  assert (Hlen : length rest = (length arr - 1)%nat).
  { unfold rest. rewrite length_app, length_take, length_drop. lia. }
  split; [|split; [exact Hlen|]].
  - unfold moved. rewrite <- Permutation_middle.
    rewrite take_drop. unfold rest.
    rewrite <- (take_drop_middle arr s x Hx) at 3.
    by rewrite <- Permutation_middle.
  - unfold moved. rewrite <- Hlen.
    pose proof (relativeStart_le (length rest) to) as Hle.
    rewrite lookup_app_r by (rewrite length_take; lia).
    rewrite length_take.
    replace (relativeStart (length rest) to
             - relativeStart (length rest) to `min` length rest)%nat
      with 0%nat by lia.
    reflexivity.
Qed.

Lemma prop_order_other (o : gmap string value) (v : value) (k : string) :
  k <> "order" -> prop (<["order" := v]> o) k = prop o k.
Proof. intros Hk. unfold prop. by rewrite lookup_insert_ne. Qed.

Lemma renumber_files (files : list nat) (index : nat)
  (objects : gmap nat (gmap string value)) :
  exists objects',
    renumber (map Some files) index objects = (Return (), objects')
    /\ (forall f, f ∉ files -> objects' !! f = objects !! f)
    /\ (forall f, is_Some (objects !! f) -> is_Some (objects' !! f))
    /\ (forall f k, k <> "order" ->
          prop (default ∅ (objects' !! f)) k = prop (default ∅ (objects !! f)) k)
    /\ (NoDup files ->
        forall j f, files !! j = Some f -> is_Some (objects !! f) ->
                    orderOf objects' f = VNum (Z.of_nat (index + j))).
Proof.
  revert index objects. induction files as [|f0 files IH]; intros index objects.
  - exists objects. cbn. split_and!; try done; intros _ j f Hj; inversion Hj.
  - cbn [map renumber].
    set (objects1 := alter (fun o => <["order" := VNum (Z.of_nat index)]> o)
                       f0 objects).
    destruct (IH (S index) objects1) as (objects' & Hrun & Hout & Hsome & Hkeep & Hord).
    exists objects'. split; [exact Hrun|]. split_and!.
    + intros f Hf. apply not_elem_of_cons in Hf as [Hne Hf].
      rewrite (Hout f Hf). unfold objects1. by rewrite lookup_alter_ne.
    + intros f Hf. apply Hsome. unfold objects1.
      destruct (decide (f0 = f)) as [->|Hne].
      * rewrite lookup_alter_eq. destruct Hf as [o ->]. by eexists.
      * by rewrite lookup_alter_ne.
    + intros f k Hk. rewrite (Hkeep f k Hk). unfold objects1.
      destruct (decide (f0 = f)) as [->|Hne].
      * rewrite lookup_alter_eq. destruct (objects !! f) as [o|]; [|reflexivity].
        cbn. by apply prop_order_other.
      * by rewrite lookup_alter_ne.
    + intros Hnd j f Hj Hf. apply NoDup_cons in Hnd as [Hnotin Hnd].
      destruct j as [|j].
      * injection Hj as ->. unfold orderOf. rewrite (Hout f Hnotin).
        unfold objects1. rewrite lookup_alter_eq. destruct Hf as [o ->].
        cbn. unfold prop. rewrite lookup_insert_eq. cbn. f_equal. lia.
      * cbn in Hj. replace (index + S j)%nat with (S index + j)%nat by lia.
        apply (Hord Hnd j f Hj). unfold objects1.
        destruct (decide (f0 = f)) as [->|Hne].
        -- rewrite lookup_alter_eq. destruct Hf as [o ->]. by eexists.
        -- by rewrite lookup_alter_ne.
Qed.

Lemma renumber_undefined (before : list nat) (after : list (option nat))
  (index : nat) (objects : gmap nat (gmap string value)) :
  exists objects',
    renumber (map Some before ++ None :: after) index objects
    = (Throw TypeError, objects').
Proof.
  revert index objects. induction before as [|f before IH]; intros index objects.
  - by exists objects.
  - cbn [map app renumber]. apply IH.
Qed.

(** X27.  [reorderFile] with a source index inside the listing (counted
    from the end when negative): the listing it hands to the component
    state and to the form data is a rearrangement of the old one with the
    moved file at the place [splice] gives the target index, every file
    object's [order] is its position in the new listing, and no other
    property of a file changes. *)
Theorem reorderFile_moves (fileListing : list nat) (newIndex oldIndex : Z)
  (objects : gmap nat (gmap string value)) :
  NoDup fileListing ->
  (forall f, f ∈ fileListing -> is_Some (objects !! f)) ->
  (relativeStart (length fileListing) oldIndex < length fileListing)%nat ->
  exists files objects',
    reorderFile fileListing newIndex oldIndex objects
    = (Return (),
       [SetFieldValueForComplexObject (map Some files);
        SetFileListing (map Some files);
        SetFilesModified true; ClearValidationIssues; RelationshipWasModified],
       objects')
    /\ files ≡ₚ fileListing
    /\ files !! relativeStart (length fileListing - 1) newIndex
       = fileListing !! relativeStart (length fileListing) oldIndex
    /\ (forall i f, files !! i = Some f ->
          orderOf objects' f = VNum (Z.of_nat i))
    /\ (forall f k, k <> "order" ->
          prop (default ∅ (objects' !! f)) k = prop (default ∅ (objects !! f)) k).
Proof.
  intros Hnd Hobj Hin.
  destruct (lookup_lt_is_Some_2 fileListing _ Hin) as [x Hx].
  set (s := relativeStart (length fileListing) oldIndex) in *.
  set (rest := (take s fileListing ++ drop (S s) fileListing)%list).
  set (p := relativeStart (length rest) newIndex).
  set (files := (take p rest ++ x :: drop p rest)%list).
  destruct (move_spec fileListing oldIndex newIndex x Hx) as (Hperm & Hlen & Hland).
  fold s in Hperm, Hlen, Hland. fold rest in Hperm, Hlen, Hland.
  fold p in Hperm, Hland. fold files in Hperm, Hland.
  destruct (renumber_files files 0 objects)
    as (objects' & Hrun & _ & _ & Hkeep & Hord).
  exists files, objects'. split; [|split; [exact Hperm|split; [|split]]].
  - unfold reorderFile.
    rewrite (splice_remove_one (map Some fileListing) oldIndex (Some x));
      rewrite length_map; fold s; [|by rewrite list_lookup_fmap, Hx].
    cbn [firstOf head default from_option Datatypes.id].
    rewrite splice_insert.
    assert (Hrest : (take s (map Some fileListing)
                     ++ drop (S s) (map Some fileListing))%list = map Some rest).
    { unfold rest. by rewrite map_app, <- !fmap_take, <- !fmap_drop. }
    rewrite Hrest, length_map. fold p.
    assert (Hfiles : (take p (map Some rest) ++ Some x :: drop p (map Some rest))%list
                     = map Some files).
    { unfold files. rewrite map_app. cbn [map].
      by rewrite <- !fmap_take, <- !fmap_drop. }
    rewrite Hfiles, Hrun. reflexivity.
  - by rewrite Hland, Hx.
  - intros i f Hi. apply (Hord (proj2 (NoDup_Permutation_proper _ _ Hperm) Hnd) i f Hi).
    apply Hobj. rewrite <- Hperm. by apply list_elem_of_lookup_2 in Hi.
  - exact Hkeep.
Qed.

(** Three files; the first is dragged to the end. *)
Lemma reorderFile_moves_witness :
  let objects : gmap nat (gmap string value) :=
    <[1%nat := {["id" := VStr "a"]}]>
      (<[2%nat := {["id" := VStr "b"]}]> {[3%nat := {["id" := VStr "c"]}]}) in
  exists files objects',
    reorderFile [1%nat; 2%nat; 3%nat] 2 0 objects
    = (Return (),
       [SetFieldValueForComplexObject (map Some files);
        SetFileListing (map Some files);
        SetFilesModified true; ClearValidationIssues; RelationshipWasModified],
       objects')
    /\ files !! 2%nat = Some 1%nat
    /\ orderOf objects' 1%nat = VNum 2.
Proof.
  intros objects.
  assert (Hnd : NoDup [1%nat; 2%nat; 3%nat]).
  { apply NoDup_ListNoDup. repeat constructor; cbn; intuition discriminate. }
  assert (Hobj : forall f, f ∈ [1%nat; 2%nat; 3%nat] -> is_Some (objects !! f)).
  { intros f Hf. apply list_elem_of_In in Hf. cbn in Hf.
    destruct Hf as [<-|[<-|[<-|[]]]]; vm_compute; eauto. }
  destruct (reorderFile_moves [1%nat; 2%nat; 3%nat] 2 0 objects Hnd Hobj
              ltac:(vm_compute; lia))
    as (files & objects' & Hrun & _ & Hland & Hord & _).
  exists files, objects'. split; [exact Hrun|].
  assert (Hat : files !! 2%nat = Some 1%nat) by exact Hland.
  split; [exact Hat|]. exact (Hord 2%nat 1%nat Hat).
Defined.

(** X28.  [reorderFile] with a source index at or beyond the end of the
    listing moves nothing: the entry it inserts is [undefined], the
    renumbering stops on it with a [TypeError], and neither the component
    state nor the form data is given a new listing. *)
Theorem reorderFile_out_of_range (fileListing : list nat) (newIndex oldIndex : Z)
  (objects : gmap nat (gmap string value)) :
  (Z.of_nat (length fileListing) <= oldIndex)%Z ->
  exists objects',
    reorderFile fileListing newIndex oldIndex objects
    = (Throw TypeError, [], objects')
    /\ forall f k, k <> "order" ->
         prop (default ∅ (objects' !! f)) k = prop (default ∅ (objects !! f)) k.
Proof.
  intros Hout. unfold reorderFile.
  rewrite splice_remove_none
    by (rewrite length_map; by apply relativeStart_beyond).
  cbn [firstOf head default from_option Datatypes.id].
  rewrite splice_insert. rewrite length_map.
  set (p := relativeStart (length fileListing) newIndex).
  rewrite <- fmap_take, <- fmap_drop.
  destruct (renumber_files (take p fileListing) 0 objects)
    as (objects1 & _ & _ & _ & Hkeep & _).
  assert (Hrun : forall before after index objects0,
    exists objects',
      renumber (map Some before ++ None :: after) index objects0
      = (Throw TypeError, objects')
      /\ fst (renumber (map Some before) index objects0) = Return ()
      /\ objects' = snd (renumber (map Some before) index objects0)).
  { induction before as [|f before IH]; intros after index objects0.
    - by exists objects0.
    - cbn [map app renumber]. apply IH. }
  destruct (Hrun (take p fileListing) (map Some (drop p fileListing)) 0%nat objects)
    as (objects' & Hthrow & _ & Hsnd).
  exists objects'.
  change (Some <$> take p fileListing) with (map Some (take p fileListing)).
  change (Some <$> drop p fileListing) with (map Some (drop p fileListing)).
  rewrite Hthrow. split; [reflexivity|].
  intros f k Hk. rewrite Hsnd.
  destruct (renumber_files (take p fileListing) 0 objects)
    as (objects2 & Hrun2 & _ & _ & Hkeep2 & _).
  rewrite Hrun2. cbn [snd]. by apply Hkeep2.
Qed.

(** Dragging from a position that does not exist. *)
Lemma reorderFile_out_of_range_witness :
  fst (reorderFile [1%nat; 2%nat] 0 5 {[1%nat := ∅; 2%nat := ∅]})
  = (Throw TypeError, []).
Proof.
  destruct (reorderFile_out_of_range [1%nat; 2%nat] 0 5
              {[1%nat := ∅; 2%nat := ∅]} ltac:(cbn; lia))
    as (objects' & Hrun & _).
  by rewrite Hrun.
Defined.

(** X29.  [onDragEnd] of the authors editor: a drop without destination
    does nothing; a drag from a position inside the list hands
    [setAuthors] a rearrangement of the authors with the moved one at the
    place [splice] gives the destination index; a drag from a position at
    or beyond the end adds an [undefined] entry instead. *)
Theorem onDragEnd_moves (authors : list (option (gmap string value)))
  (destination source : Z) :
  onDragEnd (Some authors) None source = (Return (), [])
  /\ ((relativeStart (length authors) source < length authors)%nat ->
      exists moved,
        onDragEnd (Some authors) (Some destination) source
        = (Return (), [SetAuthors moved])
        /\ moved ≡ₚ authors
        /\ moved !! relativeStart (length authors - 1) destination
           = authors !! relativeStart (length authors) source)
  /\ ((Z.of_nat (length authors) <= source)%Z ->
      exists moved,
        onDragEnd (Some authors) (Some destination) source
        = (Return (), [SetAuthors moved])
        /\ moved ≡ₚ None :: authors).
Proof.
  split; [reflexivity|]. split.
  - intros Hin.
    destruct (lookup_lt_is_Some_2 authors _ Hin) as [x Hx].
    destruct (move_spec authors source destination x Hx) as (Hperm & Hlen & Hland).
    eexists. split; [|split; [exact Hperm|by rewrite Hland, Hx]].
    unfold onDragEnd. rewrite (splice_remove_one authors source x Hx).
    cbn [firstOf head default from_option Datatypes.id].
    by rewrite splice_insert.
  - intros Hout. eexists. split.
    + unfold onDragEnd.
      rewrite splice_remove_none by (by apply relativeStart_beyond).
      cbn [firstOf head default from_option Datatypes.id].
      by rewrite splice_insert.
    + rewrite <- Permutation_middle. by rewrite take_drop.
Qed.

(** ** Adding and removing authors *)

Lemma filterOtherIds_fresh (id : value) (authors : list (gmap string value)) :
  (forall a, a ∈ authors -> strict_eq (prop a "id") id = false) ->
  filterOtherIds id (map Some authors) = Some (map Some authors).
Proof.
  induction authors as [|a authors IH]; intros Hfresh; [reflexivity|].
  cbn [map filterOtherIds]. rewrite IH by (intros b Hb; apply Hfresh; by right).
  cbn. by rewrite (Hfresh a) by left.
Qed.

Lemma filterOtherIds_app (id : value)
  (arr1 arr2 kept1 kept2 : list (option (gmap string value))) :
  filterOtherIds id arr1 = Some kept1 ->
  filterOtherIds id arr2 = Some kept2 ->
  filterOtherIds id (arr1 ++ arr2) = Some (kept1 ++ kept2)%list.
Proof.
  revert kept1. induction arr1 as [|[a|] arr1 IH]; intros kept1 H1 H2.
  - injection H1 as <-. exact H2.
  - cbn [app filterOtherIds] in *.
    destruct (filterOtherIds id arr1) as [rest|]; [|discriminate].
    rewrite (IH rest eq_refl H2). cbn in *. injection H1 as <-.
    by destruct (negb (strict_eq (prop a "id") id)).
  - discriminate.
Qed.

(** X30.  Adding an author and removing it again gives back the list:
    [addAuthor] hands [setAuthors] the authors followed by a new one that
    carries only the id [nextUniqueIdInArray] returned, and
    [removeAuthor] of that author then hands it the authors as they were
    -- provided the new id differs from every author's id.  Both handlers
    take the authors out of the bound array with [splice(0)], which leaves
    that array empty. *)
Theorem removeAuthor_after_addAuthor
  (nextUniqueIdInArray : option (list (option (gmap string value))) -> value)
  (authors : list (gmap string value)) :
  let bound := Some (map Some authors) in
  let newAuthor : gmap string value := {["id" := nextUniqueIdInArray bound]} in
  strict_eq (nextUniqueIdInArray bound) (nextUniqueIdInArray bound) = true ->
  (forall a, a ∈ authors ->
     strict_eq (prop a "id") (nextUniqueIdInArray bound) = false) ->
  addAuthor nextUniqueIdInArray bound
  = (Return (),
     [ClearValidationIssues; SetAuthors (map Some authors ++ [Some newAuthor])],
     Some [])
  /\ removeAuthor newAuthor (Some (map Some authors ++ [Some newAuthor])%list)
     = (Return (), [ClearValidationIssues; SetAuthors (map Some authors)],
        Some []).
Proof.
  intros bound newAuthor Hself Hfresh. split.
  - unfold addAuthor. subst newAuthor. unfold bound. cbv iota beta.
    by rewrite splice_all.
  - unfold removeAuthor. rewrite splice_all.
    assert (Hid : prop newAuthor "id" = nextUniqueIdInArray bound).
    { unfold prop, newAuthor. by rewrite lookup_singleton_eq. }
    rewrite Hid.
    rewrite (filterOtherIds_app _ (map Some authors) [Some newAuthor]
               (map Some authors) []).
    + by rewrite app_nil_r.
    + by apply filterOtherIds_fresh.
    + cbn. by rewrite Hid, Hself.
Qed.

(** One author, and the id 2 for the next. *)
Lemma removeAuthor_after_addAuthor_witness :
  removeAuthor {["id" := VNum 2]}
    (Some [Some {["id" := VNum 1]}; Some {["id" := VNum 2]}])
  = (Return (), [ClearValidationIssues; SetAuthors [Some {["id" := VNum 1]}]],
     Some []).
Proof.
  refine (proj2 (removeAuthor_after_addAuthor (fun _ => VNum 2)
                   [{["id" := VNum 1]}] eq_refl _)).
  intros a Ha. apply list_elem_of_In in Ha. cbn in Ha.
  destruct Ha as [<-|[]]. reflexivity.
Defined.
